(** * projet-phil: submission extraction and concurrent evaluation

    A shallow embedding of the parts of the student-evaluation
    application that carry design decisions:

    - [src/parsers/zip_handler.py]: recovering the "student name -> files"
      mapping from an archive ([extract_student_submissions]) and the
      extension dispatch of [parse_document];
    - [src/evaluation/llm_evaluator.py]: prompt composition and the two
      asyncio orchestrators [evaluate_all_students_async] and
      [evaluate_all_students_free_format_async];
    - the part of [main.py] that drives them: the validations of the
      evaluation button, the reading of the grid and of the students'
      files, the sorting of the results;
    - [src/export]: the names of archive members and sheets, and the
      free-form Word document.

    Conventions.  A Python [str] is represented by a [string], read as the
    UTF-8 encoding of the text; the string operations the program uses
    (splitting on "/", prefix and substring tests against ASCII literals,
    concatenation) commute with that encoding.  The operations that
    consult Unicode tables decode the characters: [str.strip] removes the
    characters that [str.isspace] accepts, listed in [Str.isspace]; the
    class \d of regular expressions is the digits 0-9 and, beyond ASCII,
    the decimal digits of the interpreter's Unicode tables, which are a
    parameter; [str.lower] is used on file extensions only and is
    modelled on the letters A-Z.  Python [bytes] are lists of [Byte.byte].
    A Python exception is a value of [Exception]: what [except Exception]
    catches; cancellation and interpreter exit, which that clause lets
    through, abort a run and are not modelled. *)

From Stdlib Require Import Ascii String Strings.Byte QArith_base.
From stdpp Require Import gmap strings list fin_maps.

(** ** Exceptions and the error monad *)

Inductive Exception : Type :=
  | Exc (class : string) (message : string).

Inductive result (A : Type) : Type :=
  | Return (a : A)
  | Raise (e : Exception).
Arguments Return {A} a.
Arguments Raise {A} e.

#[global] Instance result_ret : MRet result := λ A a, Return a.

#[global] Instance result_bind : MBind result := λ A B k r,
  match r with
  | Return a => k a
  | Raise e => Raise e
  end.

#[global] Instance result_fmap : FMap result := λ A B f r,
  match r with
  | Return a => Return (f a)
  | Raise e => Raise e
  end.

Definition bytes : Type := list Byte.byte.

(** ** UTF-8 *)

Module Utf8.

Definition code (c : ascii) : N := N_of_ascii c.

Definition continuation (b : ascii) : bool :=
  (128 <=? code b)%N && (code b <=? 191)%N.

(** The code point of a character encoded on one, two, three or four
    bytes; [None] when the bytes are not the encoding of a character. *)
Definition char1 (a : ascii) : option N :=
  if (code a <? 128)%N then Some (code a) else None.

Definition char2 (a b : ascii) : option N :=
  if (194 <=? code a)%N && (code a <=? 223)%N && continuation b
  then Some ((code a - 192) * 64 + (code b - 128))%N
  else None.

Definition char3 (a b c : ascii) : option N :=
  if (224 <=? code a)%N && (code a <=? 239)%N && continuation b && continuation c
  then
    let cp := ((code a - 224) * 4096 + (code b - 128) * 64 + (code c - 128))%N in
    if (2048 <=? cp)%N && negb ((55296 <=? cp)%N && (cp <=? 57343)%N)
    then Some cp else None
  else None.

Definition char4 (a b c d : ascii) : option N :=
  if (240 <=? code a)%N && (code a <=? 244)%N
     && continuation b && continuation c && continuation d
  then
    let cp := ((code a - 240) * 262144 + (code b - 128) * 4096
               + (code c - 128) * 64 + (code d - 128))%N in
    if (65536 <=? cp)%N && (cp <=? 1114111)%N then Some cp else None
  else None.

Section Class.

(** A class of characters, by code point. *)
Variable member : N → bool.

Definition among (o : option N) : bool :=
  match o with
  | Some c => member c
  | None => false
  end.

(** [w] is one character of the class. *)
Definition char (w : string) : bool :=
  match w with
  | String a EmptyString => among (char1 a)
  | String a (String b EmptyString) => among (char2 a b)
  | String a (String b (String c EmptyString)) => among (char3 a b c)
  | String a (String b (String c (String d EmptyString))) =>
      among (char4 a b c d)
  | _ => false
  end.

(** [s] without its leading characters of the class. *)
Fixpoint skip (s : string) : string :=
  match s with
  | EmptyString => EmptyString
  | String a s1 =>
      if among (char1 a) then skip s1
      else
        match s1 with
        | EmptyString => s
        | String b s2 =>
            if among (char2 a b) then skip s2
            else
              match s2 with
              | EmptyString => s
              | String c s3 =>
                  if among (char3 a b c) then skip s3
                  else
                    match s3 with
                    | EmptyString => s
                    | String d s4 =>
                        if among (char4 a b c d) then skip s4 else s
                    end
              end
        end
  end.

(** [s] is made of characters of the class only. *)
Inductive run : string → Prop :=
  | run_nil : run EmptyString
  | run_cons w s : char w = true → run s → run (w +:+ s).

(** [s] starts, or ends, with a character of the class. *)
Definition starts (s : string) : Prop :=
  ∃ w r, char w = true ∧ s = w +:+ r.

Definition ends (s : string) : Prop :=
  ∃ r w, char w = true ∧ s = r +:+ w.

End Class.

End Utf8.

(** ** Python string primitives *)

Module Str.

(** [bool(s)]: a string is truthy when it is not empty. *)
Definition truthy (s : string) : bool :=
  match s with
  | EmptyString => false
  | String _ _ => true
  end.

(** [s.startswith(p)] *)
Definition startswith (p s : string) : bool := String.prefix p s.

(** [p in s] *)
Fixpoint contains (p s : string) : bool :=
  String.prefix p s ||
  match s with
  | EmptyString => false
  | String _ s' => contains p s'
  end.

(** [s.endswith("/")] *)
Fixpoint endswith_char (c : ascii) (s : string) : bool :=
  match s with
  | EmptyString => false
  | String a EmptyString => Ascii.eqb a c
  | String _ s' => endswith_char c s'
  end.

(** [s.split(c)] for a one-character separator. *)
Fixpoint split (c : ascii) (s : string) : list string :=
  match s with
  | EmptyString => [EmptyString]
  | String a s' =>
      if Ascii.eqb a c then EmptyString :: split c s'
      else match split c s' with
           | w :: ws => String a w :: ws
           | [] => [String a EmptyString]
           end
  end.

(** [sep.join(parts)] *)
Fixpoint join (sep : string) (parts : list string) : string :=
  match parts with
  | [] => EmptyString
  | [p] => p
  | p :: ps => p +:+ sep +:+ join sep ps
  end.

Definition code (c : ascii) : N := N_of_ascii c.

(** [c.isspace()], the table of the interpreter: U+0009-U+000D,
    U+001C-U+001F, U+0020, U+0085, U+00A0, U+1680, U+2000-U+200A,
    U+2028, U+2029, U+202F, U+205F and U+3000. *)
Definition isspace (c : N) : bool :=
  ((9 <=? c) && (c <=? 13) || (28 <=? c) && (c <=? 31) || (c =? 32)
   || (c =? 133) || (c =? 160) || (c =? 5760)
   || (8192 <=? c) && (c <=? 8202)
   || (c =? 8232) || (c =? 8233) || (c =? 8239) || (c =? 8287)
   || (c =? 12288))%N.

(** The class \d of a [str] pattern: 0-9 and, beyond ASCII, the decimal
    digits [beyond_ascii] of the Unicode tables of the interpreter. *)
Definition isdecimal (beyond_ascii : N → bool) (c : N) : bool :=
  ((48 <=? c) && (c <=? 57) || (128 <=? c) && beyond_ascii c)%N.

(** [s.lstrip()] *)
Definition lstrip (s : string) : string := Utf8.skip isspace s.

(** [s.rstrip()]: what comes before the trailing white space, that is
    before the first place from which only white space follows. *)
Fixpoint rstrip (s : string) : string :=
  match s with
  | EmptyString => EmptyString
  | String c s' =>
      match lstrip s with
      | EmptyString => EmptyString
      | _ => String c (rstrip s')
      end
  end.

(** [s.strip()] *)
Definition strip (s : string) : string := rstrip (lstrip s).

(** A text of white space only, and a text with white space at neither
    end. *)
Definition blank (s : string) : Prop := Utf8.run isspace s.

Definition trimmed (s : string) : Prop :=
  ¬ Utf8.starts isspace s ∧ ¬ Utf8.ends isspace s.

(** [t] is [s] without the white space around it. *)
Definition trims (s t : string) : Prop :=
  ∃ l r, s = l +:+ t +:+ r ∧ blank l ∧ blank r ∧ trimmed t.

(** [c.lower()] restricted to A-Z; other characters are left alone. *)
Definition lower_char (c : ascii) : ascii :=
  if (65 <=? code c)%N && (code c <=? 90)%N
  then ascii_of_N (code c + 32)
  else c.

(** [s.lower()] *)
Fixpoint lower (s : string) : string :=
  match s with
  | EmptyString => EmptyString
  | String c s' => String (lower_char c) (lower s')
  end.

(** [s.rfind(".")]: index of the last dot, if any. *)
Fixpoint rfind_dot (s : string) : option nat :=
  match s with
  | EmptyString => None
  | String c s' =>
      match rfind_dot s' with
      | Some i => Some (S i)
      | None => if Ascii.eqb c "." then Some 0 else None
      end
  end.

(** [s[i:]] *)
Fixpoint drop (i : nat) (s : string) : string :=
  match i, s with
  | 0, _ => s
  | S i', String _ s' => drop i' s'
  | S _, EmptyString => EmptyString
  end.

End Str.

(** ** [pathlib.PurePosixPath] *)

Module PurePosixPath.

(** [posixpath.splitroot]: the root ("" , "/" or "//") and the rest. *)
Definition splitroot (p : string) : string * string :=
  match p with
  | String "/" (String "/" (String "/" r)) => ("/", String "/" (String "/" r))
  | String "/" (String "/" r) => ("//", r)
  | String "/" r => ("/", r)
  | _ => ("", p)
  end.

(** The relative components: empty ones and "." are dropped. *)
Definition tail (p : string) : list string :=
  filter (fun x => x ≠ "" ∧ x ≠ ".") (Str.split "/" (snd (splitroot p))).

(** [PurePosixPath(p).parts]: the components of the path; a leading
    "/" or "//" counts as the first of them. *)
Definition parts (p : string) : list string :=
  let root := fst (splitroot p) in
  if Str.truthy root then root :: tail p else tail p.

(** [PurePosixPath(p).name]: the last component, the root excluded. *)
Definition name (p : string) : string := List.last (tail p) "".

(** [PurePosixPath(p).suffix] *)
Definition suffix (p : string) : string :=
  let n := name p in
  match Str.rfind_dot n with
  | Some i => if ((0 <? i) && (i <? String.length n - 1))%nat then Str.drop i n else ""
  | None => ""
  end.

End PurePosixPath.

(** ** [src/parsers/zip_handler.py] *)

Module ZipHandler.

(** [zipfile.ZipInfo]: the extractor consults the member name only. *)
Record ZipInfo : Type := { filename : string }.

(** An opened [zipfile.ZipFile]: the members in archive order, and the
    [read] method, which looks a member up by name and may raise (bad
    CRC, encrypted or unsupported member). *)
Record ZipFile : Type := {
  infolist : list ZipInfo;
  read : string → result bytes
}.

(** [ZipInfo.is_dir()] on a POSIX host: the name ends with a slash. *)
Definition is_dir (file_info : ZipInfo) : bool :=
  Str.endswith_char "/" (filename file_info).

(** *** The pattern [^(.+?)_\d+_assignsubmission_] *)

(** Every character of [s] satisfies [p]. *)
Fixpoint string_forall (p : ascii → bool) (s : string) : bool :=
  match s with
  | EmptyString => true
  | String c s' => p c && string_forall p s'
  end.

Section Names.

(** The decimal digits beyond ASCII, as the Unicode tables of the
    interpreter have them (category Nd). *)
Variable decimal_beyond_ascii : N → bool.

(** Greedy \d*: the rest after the longest run of digits.  No shorter run
    can be followed by the "_" the pattern asks for next. *)
Definition skip_digits (s : string) : string :=
  Utf8.skip (Str.isdecimal decimal_beyond_ascii) s.

(** [_\d+_assignsubmission_] at the head of [s]: the run of digits is
    not empty. *)
Definition match_marker (s : string) : bool :=
  match s with
  | String "_" s' =>
      negb (String.eqb (skip_digits s') s')
      && String.prefix "_assignsubmission_" (skip_digits s')
  | _ => false
  end.

(** [re.match(r"^(.+?)_\d+_assignsubmission_", s)], returning group 1.
    The lazy [.+?] takes one character, then one more each time the rest
    of the pattern fails; "." refuses the line feed. *)
Fixpoint re_match_group1 (s : string) : option string :=
  match s with
  | EmptyString => None
  | String c s' =>
      if Ascii.eqb c "010" then None
      else if match_marker s' then Some (String c EmptyString)
      else String c <$> re_match_group1 s'
  end.

Definition extract_student_name_from_moodle_folder
    (folder_name : string) : option string :=
  match re_match_group1 folder_name with
  | Some g => Some (Str.strip g)
  | None => None
  end.

(** *** [extract_student_submissions] *)

(** The [for ... in enumerate(parts[:-1])] loop: the first folder whose
    Moodle name is truthy ends the search. *)
Fixpoint moodle_student_name (folders : list string) : option string :=
  match folders with
  | [] => None
  | part :: rest =>
      match extract_student_name_from_moodle_folder part with
      | Some moodle_name =>
          if Str.truthy moodle_name then Some moodle_name
          else moodle_student_name rest
      | None => moodle_student_name rest
      end
  end.

(** The student an entry with components [parts] is filed under. *)
Definition student_name_of (parts : list string) : string :=
  match moodle_student_name (removelast parts) with
  | Some student_name => student_name
  | None => List.hd "" parts
  end.

(** One iteration of the loop over [zf.infolist()]; a [continue] leaves
    the dictionary as it is. *)
Definition visit (zf : ZipFile) (students : gmap string (list (string * bytes)))
    (file_info : ZipInfo) : result (gmap string (list (string * bytes))) :=
  if is_dir file_info || Str.contains "__MACOSX" (filename file_info)
  then Return students
  else
    let parts := PurePosixPath.parts (filename file_info) in
    let name := PurePosixPath.name (filename file_info) in
    if Str.startswith "." name then Return students
    else if (length parts <? 2)%nat then Return students
    else
      let student_name := student_name_of parts in
      content ← read zf (filename file_info);
      let students :=
        match students !! student_name with
        | None => <[student_name := []]> students
        | Some _ => students
        end in
      Return (alter (λ files, files ++ [(name, content)]) student_name students).

Fixpoint visit_all (zf : ZipFile) (students : gmap string (list (string * bytes)))
    (infos : list ZipInfo) : result (gmap string (list (string * bytes))) :=
  match infos with
  | [] => Return students
  | file_info :: rest =>
      students ← visit zf students file_info;
      visit_all zf students rest
  end.

Section Extract.

(** [zipfile.ZipFile(io.BytesIO(zip_content), "r")]: the container
    parser of the standard library, which raises [BadZipFile] on bytes
    that are not an archive. *)
Variable open_zip : bytes → result ZipFile.

Definition extract_student_submissions (zip_content : bytes)
    : result (gmap string (list (string * bytes))) :=
  zf ← open_zip zip_content;
  visit_all zf ∅ (infolist zf).

End Extract.

End Names.

(** *** [parse_document] *)

Definition get_supported_extensions : gset string :=
  {[ ".pdf"; ".docx"; ".xlsx"; ".xls"; ".txt"; ".md"; ".html"; ".htm" ]}.

Section ParseDocument.

(** The format parsers of the sibling modules, whose imports at the
    head of the function are taken to succeed.  Each hands the bytes to
    a third-party library and may raise on a malformed document. *)
Variables parse_pdf parse_docx parse_excel parse_html : bytes → result string.

(** [content.decode("utf-8", errors="replace")]: with this error
    handler the codec substitutes U+FFFD and never raises. *)
Variable decode_utf8_replace : bytes → string.

Definition parse_document (filename : string) (content : bytes)
    : result (option string) :=
  let ext := Str.lower (PurePosixPath.suffix filename) in
  if decide (ext = ".pdf") then Some <$> parse_pdf content
  else if decide (ext = ".docx") then Some <$> parse_docx content
  else if decide (ext ∈ [".xlsx"; ".xls"]) then Some <$> parse_excel content
  else if decide (ext ∈ [".html"; ".htm"]) then Some <$> parse_html content
  else if decide (ext ∈ [".txt"; ".md"])
       then Return (Some (decode_utf8_replace content))
  else Return None.

End ParseDocument.

(** *** Vocabulary of the statements below *)

(** The entries the loop passes over: directories, anything under the
    metadata folder, hidden files, and files with fewer than two path
    components. *)
Definition skipped (file_info : ZipInfo) : bool :=
  is_dir file_info
  || Str.contains "__MACOSX" (filename file_info)
  || Str.startswith "." (PurePosixPath.name (filename file_info))
  || (length (PurePosixPath.parts (filename file_info)) <? 2)%nat.

(** A member name that does not start at the root, and its segments:
    what stands between the slashes, empty segments and "." left out. *)
Definition relative (file_info : ZipInfo) : Prop :=
  Str.startswith "/" (filename file_info) = false.

Definition segments (name : string) : list string :=
  filter (λ x, x ≠ "" ∧ x ≠ ".") (Str.split "/" name).

Definition entry_file (content : string → bytes) (file_info : ZipInfo)
    : string * bytes :=
  (PurePosixPath.name (filename file_info), content (filename file_info)).

(** What [zf.read] returns for a member that can be read. *)
Definition content_of (zf : ZipFile) (name : string) : bytes :=
  match read zf name with
  | Return c => c
  | Raise _ => []
  end.

Definition readable (zf : ZipFile) (file_info : ZipInfo) : Prop :=
  ∃ c, read zf (filename file_info) = Return c.

Section Vocabulary.

Variable decimal_beyond_ascii : N → bool.

(** The student a kept entry is filed under. *)
Definition entry_student (file_info : ZipInfo) : string :=
  student_name_of decimal_beyond_ascii
    (PurePosixPath.parts (filename file_info)).

(** The files of [student] among [infos], in archive order. *)
Definition submitted (content : string → bytes) (student : string)
    (infos : list ZipInfo) : list (string * bytes) :=
  entry_file content <$>
    filter (λ e, skipped e = false ∧ entry_student e = student) infos.

(** [folder] reads [<name>_<digits>_assignsubmission_<rest>], with a
    name that is not empty and holds no line feed, and at least one
    digit. *)
Definition moodle_shape (folder name digits rest : string) : Prop :=
  folder = name +:+ "_" +:+ digits +:+ "_assignsubmission_" +:+ rest ∧
  name ≠ "" ∧ string_forall (λ c, negb (Ascii.eqb c "010")) name = true ∧
  digits ≠ "" ∧ Utf8.run (Str.isdecimal decimal_beyond_ascii) digits.

(** The name the pattern captures: the shortest one the folder can be
    read with. *)
Definition captures (folder name : string) : Prop :=
  (∃ digits rest, moodle_shape folder name digits rest) ∧
  ∀ name' digits' rest', moodle_shape folder name' digits' rest' →
    String.length name ≤ String.length name'.

(** A folder that names a student: the captured name, without the white
    space around it, which is not empty. *)
Definition names (folder student : string) : Prop :=
  ∃ name, captures folder name ∧ Str.trims name student ∧ student ≠ "".

(** A folder that names nobody: the pattern does not match, or the
    name it captures is white space only. *)
Definition names_nobody (folder : string) : Prop :=
  ∀ name, captures folder name → Str.blank name.

(** The student that the segments of a member name lead to: the
    folders, that is the segments without the leaf, are walked from the
    top and the first that names a student gives the student; when none
    does, the student is the first segment. *)
Definition derived (parts : list string) (student : string) : Prop :=
  let folders := removelast parts in
  (∃ i folder,
      folders !! i = Some folder ∧ names folder student ∧
      ∀ j folder', j < i → folders !! j = Some folder' → names_nobody folder')
  ∨ ((∀ folder, folder ∈ folders → names_nobody folder) ∧
     parts !! 0 = Some student).

End Vocabulary.

(** The last member of a name, which is the one [zf.read] finds. *)
Definition last_named (name : string) (members : list (string * bytes))
    : option bytes :=
  snd <$> (snd <$> list_find (λ m, m.1 = name) (reverse members)).

(** *** Sample archives *)

(** An archive given by its members; as in [zipfile], reading by name
    finds the last member of that name. *)
Definition archive (members : list (string * bytes)) : ZipFile :=
  {| infolist := (λ m, {| filename := m.1 |}) <$> members;
     read := λ name,
       match list_find (λ m, m.1 = name) (reverse members) with
       | Some (_, m) => Return m.2
       | None => Raise (Exc "KeyError" name)
       end |}.

(** A container parser for the samples: the empty byte string is not an
    archive, any other opens as [zf]. *)
Definition opens_as (zf : ZipFile) (zip_content : bytes) : result ZipFile :=
  match zip_content with
  | [] => Raise (Exc "BadZipFile" "File is not a zip file")
  | _ => Return zf
  end.

Definition simple_archive : ZipFile :=
  archive [("Alice/report.pdf", [x01]); ("Bob/report.pdf", [x02]);
           ("__MACOSX/._essay.docx", [x03]); ("readme.txt", [x04]);
           ("Alice/notes/", []); ("Alice/.DS_Store", [x05]);
           ("Alice/annex.txt", [x06])].

Definition moodle_archive : ZipFile :=
  archive [("Assignment1/Jane Doe_998877_assignsubmission_file/essay.docx", [x01]);
           ("Assignment1/Jane Doe_998877_assignsubmission_onlinetext/text.html", [x02]);
           ("Assignment1/John Roe_998878_assignsubmission_file/essay.docx", [x03])].

Definition blank_name_archive : ZipFile :=
  archive [(" _1_assignsubmission_file/Bob_2_assignsubmission_file/f.txt", [x01])].

(** A file at the root of the archive, under a name that starts with a
    slash. *)
Definition rooted_archive : ZipFile :=
  archive [("/readme.txt", [x04]); ("Alice/report.pdf", [x01])].

(** Two members of the same name. *)
Definition repeated_archive : ZipFile :=
  archive [("Alice/report.pdf", [x01]); ("Alice/report.pdf", [x02])].

(** A table for the samples: the Arabic-Indic digits U+0660-U+0669. *)
Definition arabic_indic (c : N) : bool := ((1632 <=? c) && (c <=? 1641))%N.

(** U+00A0, the no-break space. *)
Definition nbsp : string :=
  String (ascii_of_N 194) (String (ascii_of_N 160) EmptyString).

(** A folder whose name ends with a no-break space and whose number is
    written ٣٤. *)
Definition unicode_archive : ZipFile :=
  archive [("Top/Jane" +:+ nbsp +:+ "_٣٤_assignsubmission_file/f.txt", [x01])].

End ZipHandler.

(** ** [src/evaluation/llm_evaluator.py] *)

Module LlmEvaluator.

Module CriterionEvaluation.
Record t : Type := {
  nom : string;
  note : Z;
  note_max : Z;
  commentaire : string
}.
End CriterionEvaluation.

Module EvaluationResult.
Record t : Type := {
  student_name : string;
  feedback_general : string;
  criteres : list CriterionEvaluation.t;
  note_finale : Q;
  note_max : Q
}.
End EvaluationResult.

(** *** Prompt composition *)

(** The line feed. *)
Definition nl : string := String "010" EmptyString.

Definition build_evaluation_prompt
    (student_work evaluation_grid knowledge_base custom_instructions : string)
    : string :=
  let prompt_parts := [] in
  let prompt_parts := prompt_parts ++ ["## Grille d'évaluation" +:+ nl] in
  let prompt_parts := prompt_parts ++ [evaluation_grid] in
  let prompt_parts :=
    if Str.truthy knowledge_base then
      let prompt_parts := prompt_parts ++
        [nl +:+ nl +:+ "## Base de connaissances / Documents de référence" +:+ nl] in
      prompt_parts ++ [knowledge_base]
    else prompt_parts in
  let prompt_parts :=
    if Str.truthy custom_instructions then
      let prompt_parts := prompt_parts ++
        [nl +:+ nl +:+ "## Instructions supplémentaires du professeur" +:+ nl] in
      prompt_parts ++ [custom_instructions]
    else prompt_parts in
  let prompt_parts := prompt_parts ++
    [nl +:+ nl +:+ "## Travail de l'étudiant à évaluer" +:+ nl] in
  let prompt_parts := prompt_parts ++ [student_work] in
  Str.join nl prompt_parts.

(** The user prompt that [evaluate_student_work_free_format] and its
    async twin assemble in line. *)
Definition free_format_prompt
    (student_name student_work evaluation_grid knowledge_base
     output_format_instructions custom_instructions : string) : string :=
  let prompt_parts := [] in
  let prompt_parts :=
    if Str.truthy evaluation_grid then
      let prompt_parts := prompt_parts ++ ["## Grille d'évaluation" +:+ nl] in
      prompt_parts ++ [evaluation_grid]
    else prompt_parts in
  let prompt_parts :=
    if Str.truthy knowledge_base then
      let prompt_parts := prompt_parts ++
        [nl +:+ nl +:+ "## Base de connaissances / Documents de référence" +:+ nl] in
      prompt_parts ++ [knowledge_base]
    else prompt_parts in
  let prompt_parts :=
    if Str.truthy custom_instructions then
      let prompt_parts := prompt_parts ++
        [nl +:+ nl +:+ "## Instructions supplémentaires du professeur" +:+ nl] in
      prompt_parts ++ [custom_instructions]
    else prompt_parts in
  let prompt_parts := prompt_parts ++
    [nl +:+ nl +:+ "## Format de sortie attendu" +:+ nl] in
  let prompt_parts := prompt_parts ++ [output_format_instructions] in
  let prompt_parts := prompt_parts ++
    [nl +:+ nl +:+ "## Travail de l'étudiant (" +:+ student_name
     +:+ ") à évaluer" +:+ nl] in
  let prompt_parts := prompt_parts ++ [student_work] in
  Str.join nl prompt_parts.

(** *** One evaluation call *)

(** The arguments of [client.chat.completions.create]. *)
Record ChatRequest : Type := {
  model : string;
  system_content : string;
  user_content : string;
  response_format : bool   (* [EVALUATION_JSON_SCHEMA] requested *)
}.

(** The parameters every call of a run shares. *)
Record Context : Type := {
  evaluation_grid : string;
  knowledge_base : string;
  system_prompt : string;
  output_format_instructions : string;
  custom_instructions : string;
  model_name : string
}.

(** [evaluate_student_work_async] up to its [await]: the request sent. *)
Definition evaluate_student_work_async_request
    (ctx : Context) (student_name student_work : string) : ChatRequest :=
  let user_prompt :=
    build_evaluation_prompt student_work (evaluation_grid ctx)
      (knowledge_base ctx) (custom_instructions ctx) in
  {| model := model_name ctx;
     system_content := system_prompt ctx;
     user_content := user_prompt;
     response_format := true |}.

(** [evaluate_student_work_free_format_async] up to its [await]. *)
Definition evaluate_student_work_free_format_async_request
    (ctx : Context) (student_name student_work : string) : ChatRequest :=
  let user_prompt :=
    free_format_prompt student_name student_work (evaluation_grid ctx)
      (knowledge_base ctx) (output_format_instructions ctx)
      (custom_instructions ctx) in
  {| model := model_name ctx;
     system_content := system_prompt ctx;
     user_content := user_prompt;
     response_format := false |}.

(** The fields read from the decoded response. *)
Record Graded : Type := {
  json_feedback_general : string;
  json_criteres : list CriterionEvaluation.t;
  json_note_finale : Q;
  json_note_max : Q
}.

(** [evaluate_student_work_async] from its [await] on.  [response] is
    what the awaited API call yields: the message content, or the
    exception it raises.  [json_decode] stands for [json.loads] and the
    key lookups that follow, which raise on malformed JSON or a missing
    key. *)
Definition evaluate_student_work_async_resume
    (json_decode : string → result Graded)
    (student_name : string) (response : result string)
    : result EvaluationResult.t :=
  content ← response;
  result_json ← json_decode content;
  Return {| EvaluationResult.student_name := student_name;
            EvaluationResult.feedback_general := json_feedback_general result_json;
            EvaluationResult.criteres := json_criteres result_json;
            EvaluationResult.note_finale := json_note_finale result_json;
            EvaluationResult.note_max := json_note_max result_json |}.

(** [evaluate_student_work_free_format_async] from its [await] on. *)
Definition evaluate_student_work_free_format_async_resume
    (student_name : string) (response : result string) : result string :=
  content ← response;
  Return content.

(** *** The orchestrator *)

(** A progress callback, called with [(completed, total, student_name)]:
    [None] when the call returns, [Some e] when it raises [e]. *)
Definition Callback : Type := nat → nat → string → option Exception.

(** The shared counter [completed] and the calls made to the callback so
    far, oldest first. *)
Record Progress : Type := {
  completed : nat;
  calls : list (nat * nat * string)
}.

(** A task of [asyncio.gather].  A coroutine runs uninterrupted between
    two suspension points, and [evaluate_with_semaphore] has two: entering
    [async with semaphore], and the [await] of the API call.  Leaving the
    [async with] block releases the permit without suspending, also when
    an exception leaves it. *)
Inductive Task (Out : Type) : Type :=
  | Waiting                           (* has not entered [async with semaphore] *)
  | Calling (request : ChatRequest)   (* holds a permit, awaits the API call *)
  | Returned (outcome : Out)          (* the coroutine returned [outcome] *)
  | Escaped (e : Exception).          (* an exception left the coroutine *)
Arguments Waiting {Out}.
Arguments Calling {Out} request.
Arguments Returned {Out} outcome.
Arguments Escaped {Out} e.

Record State (Out : Type) : Type := {
  semaphore : nat;          (* permits left in [asyncio.Semaphore] *)
  progress : Progress;
  tasks : list (Task Out);  (* in the order of [student_submissions.items()] *)
  failure : option Exception
    (* the first exception that escaped a task: [gather] has raised it
       to its caller; the other tasks are not cancelled and run on *)
}.
Arguments semaphore {Out} s.
Arguments progress {Out} s.
Arguments tasks {Out} s.
Arguments failure {Out} s.

(** What the event loop can do next: let task [i] enter the semaphore
    block and send its request, or deliver to task [i] the answer of its
    API call. *)
Inductive Event : Type :=
  | Enter (i : nat)
  | Resume (i : nat).

Definition is_calling {Out} (t : Task Out) : bool :=
  match t with Calling _ => true | _ => false end.

Definition is_escaped {Out} (t : Task Out) : bool :=
  match t with Escaped _ => true | _ => false end.

Definition is_finished {Out} (t : Task Out) : bool :=
  match t with Returned _ | Escaped _ => true | _ => false end.

Section Orchestrator.

Context {Res Out : Type}.

(** The evaluation coroutine of the mode, split at its [await]. *)
Variable request_of : string → string → ChatRequest.
Variable resume : string → result string → result Res.

(** What [evaluate_with_semaphore] returns on success and on failure. *)
Variable on_success : string → Res → Out.
Variable on_failure : string → Exception → Out.

(** [student_submissions.items()]. *)
Variable student_submissions : list (string * string).
Variable max_concurrent : nat.
Variable progress_callback : option Callback.

(** What the API call of the [i]-th task yields when it completes. *)
Variable api : nat → result string.

Definition total : nat := length student_submissions.

(** [completed += 1], then the callback if there is one. *)
Definition count_and_notify (student_name : string) (p : Progress)
    : result () * Progress :=
  let completed := S (completed p) in
  match progress_callback with
  | None => (Return (), {| completed := completed; calls := calls p |})
  | Some callback =>
      let p := {| completed := completed;
                  calls := calls p ++ [(completed, total, student_name)] |} in
      match callback completed total student_name with
      | None => (Return (), p)
      | Some e => (Raise e, p)
      end
  end.

(** The [try ... except Exception as e] of [evaluate_with_semaphore],
    from the point where the awaited evaluation yields [answer]. *)
Definition evaluate_with_semaphore (student_name : string)
    (answer : result Res) (p : Progress) : result Out * Progress :=
  let except (e : Exception) (p : Progress) :=
    match count_and_notify student_name p with
    | (Return _, p) => (Return (on_failure student_name e), p)
    | (Raise e', p) => (Raise e', p)
    end in
  match answer with
  | Return result =>
      match count_and_notify student_name p with
      | (Return _, p) => (Return (on_success student_name result), p)
      | (Raise e, p) => except e p
      end
  | Raise e => except e p
  end.

(** [semaphore = asyncio.Semaphore(max_concurrent)], [completed = 0],
    one task per student. *)
Definition initial : State Out :=
  {| semaphore := max_concurrent;
     progress := {| completed := 0; calls := [] |};
     tasks := (λ _, Waiting) <$> student_submissions;
     failure := None |}.

(** One move of the event loop, [None] when the move is not possible.
    The semaphore wakes waiters in arrival order; any waiting task may
    enter here, which covers that order. *)
Definition step (ev : Event) (st : State Out) : option (State Out) :=
  match ev with
  | Enter i =>
      match tasks st !! i, student_submissions !! i, semaphore st with
      | Some Waiting, Some (student_name, student_work), S permits =>
          Some {| semaphore := permits;
                  progress := progress st;
                  tasks := <[i := Calling (request_of student_name student_work)]>
                             (tasks st);
                  failure := failure st |}
      | _, _, _ => None
      end
  | Resume i =>
      match tasks st !! i, student_submissions !! i with
      | Some (Calling _), Some (student_name, _) =>
          let '(r, p) :=
            evaluate_with_semaphore student_name
              (resume student_name (api i)) (progress st) in
          Some {| semaphore := S (semaphore st);
                  progress := p;
                  tasks := <[i := match r with
                                  | Return outcome => Returned outcome
                                  | Raise e => Escaped e
                                  end]> (tasks st);
                  failure := match failure st, r with
                             | None, Raise e => Some e
                             | first, _ => first
                             end |}
      | _, _ => None
      end
  end.

End Orchestrator.

(** An orchestrator coroutine: where it starts and how it moves. *)
Record Orchestrator (Out : Type) : Type := {
  start : State Out;
  next : Event → State Out → option (State Out)
}.
Arguments start {Out} o.
Arguments next {Out} o ev st.

(** The state after a sequence of moves, if each was possible. *)
Definition run {Out} (o : Orchestrator Out) (events : list Event)
    : option (State Out) :=
  foldl (λ st ev, st ≫= next o ev) (Some (start o)) events.

(** [await asyncio.gather( *tasks )]: the first exception that escaped a
    task, as soon as there is one; else nothing while a task is
    unfinished, and the outcomes in task order once all have returned. *)
Definition gather {Out} (st : State Out) : option (result (list Out)) :=
  match failure st with
  | Some e => Some (Raise e)
  | None =>
      Return <$> mapM (λ t, match t with
                            | Returned outcome => Some outcome
                            | _ => None
                            end) (tasks st)
  end.

Definition evaluate_all_students_async
    (json_decode : string → result Graded) (api : nat → result string)
    (student_submissions : list (string * string)) (ctx : Context)
    (max_concurrent : nat) (progress_callback : option Callback)
    : Orchestrator (EvaluationResult.t + Exception) :=
  let request_of := evaluate_student_work_async_request ctx in
  let resume := evaluate_student_work_async_resume json_decode in
  let on_success := λ _ result, inl result in
  let on_failure := λ _ e, inr e in
  {| start := initial student_submissions max_concurrent;
     next := step request_of resume on_success on_failure
               student_submissions progress_callback api |}.

Definition evaluate_all_students_free_format_async
    (api : nat → result string)
    (student_submissions : list (string * string)) (ctx : Context)
    (max_concurrent : nat) (progress_callback : option Callback)
    : Orchestrator (string * (string + Exception)) :=
  let request_of := evaluate_student_work_free_format_async_request ctx in
  let resume := evaluate_student_work_free_format_async_resume in
  let on_success := λ student_name result, (student_name, inl result) in
  let on_failure := λ student_name e, (student_name, inr e) in
  {| start := initial student_submissions max_concurrent;
     next := step request_of resume on_success on_failure
               student_submissions progress_callback api |}.

(** *** Vocabulary of the statements below *)

(** The number of tasks that hold a permit. *)
Definition in_flight {Out} (st : State Out) : nat :=
  length (filter (λ t, is_calling t) (tasks st)).

(** The moves a task still has to make: two while it waits, one while it
    holds a permit. *)
Definition moves_left {Out} (t : Task Out) : nat :=
  match t with
  | Waiting => 2
  | Calling _ => 1
  | Returned _ | Escaped _ => 0
  end.

Definition remaining {Out} (st : State Out) : nat :=
  sum_list (moves_left <$> tasks st).

(** The tasks that were delivered their answer, in completion order. *)
Definition resumed (events : list Event) : list nat :=
  omap (λ ev, match ev with Resume i => Some i | Enter _ => None end) events.

(** A callback that returns from every call. *)
Definition returns_normally (progress_callback : option Callback) : Prop :=
  ∀ callback, progress_callback = Some callback →
    ∀ completed total student_name, callback completed total student_name = None.

(** The outcome of a student whose evaluation yields [answer]. *)
Definition capture {Res Out} (on_success : string → Res → Out)
    (on_failure : string → Exception → Out) (student_name : string)
    (answer : result Res) : Out :=
  match answer with
  | Return result => on_success student_name result
  | Raise e => on_failure student_name e
  end.

Definition structured_outcomes (json_decode : string → result Graded)
    (api : nat → result string) (student_submissions : list (string * string))
    : list (EvaluationResult.t + Exception) :=
  imap (λ i item,
          capture (λ _ result, inl result) (λ _ e, inr e) item.1
            (evaluate_student_work_async_resume json_decode item.1 (api i)))
       student_submissions.

Definition free_format_outcomes
    (api : nat → result string) (student_submissions : list (string * string))
    : list (string * (string + Exception)) :=
  imap (λ i item,
          capture (λ student_name result, (student_name, inl result))
                  (λ student_name e, (student_name, inr e)) item.1
            (evaluate_student_work_free_format_async_resume item.1 (api i)))
       student_submissions.

(** The name of the [i]-th student. *)
Definition name_of (student_submissions : list (string * string)) (i : nat)
    : string :=
  default "" (fst <$> student_submissions !! i).

(** Every run of [o] over [n] tasks ends, and ends by returning
    [expected]: some run does; no run is longer than [2 * n] moves; a run
    that has not produced the result of [gather] can move on; and
    whenever [gather] has a result, it is [expected]. *)
Definition always_returns {Out} (o : Orchestrator Out) (n : nat)
    (expected : list Out) : Prop :=
  (∃ events st, run o events = Some st ∧ gather st = Some (Return expected)) ∧
  ∀ events st, run o events = Some st →
    length events ≤ 2 * n ∧
    (gather st = None → ∃ ev st', next o ev st = Some st') ∧
    (∀ r, gather st = Some r → r = Return expected).

(** The calls the callback has received after [events]: one per
    completed task, in completion order, counted from 1. *)
Definition progress_report (student_submissions : list (string * string))
    (events : list Event) : list (nat * nat * string) :=
  imap (λ k i, (S k, length student_submissions, name_of student_submissions i))
       (resumed events).

(** What the callback has been told after [events], in state [st]: one
    call per completed task, in completion order, numbered from 1; and
    once [gather] has its result, every task has completed exactly once,
    the numbers are 1 to the total and the names are those of the
    students. *)
Definition reported {Out} (student_submissions : list (string * string))
    (events : list Event) (st : State Out) : Prop :=
  calls (progress st) = progress_report student_submissions events ∧
  completed (progress st) = length (resumed events) ∧
  NoDup (resumed events) ∧
  (λ c, c.1.1) <$> calls (progress st) = seq 1 (length (resumed events)) ∧
  (gather st ≠ None →
     resumed events ≡ₚ seq 0 (length student_submissions) ∧
     (λ c, c.1.1) <$> calls (progress st) = seq 1 (length student_submissions) ∧
     (λ c, c.2) <$> calls (progress st) ≡ₚ student_submissions.*1).

(** The permits bound the tasks in flight, and a task cannot enter when
    none is left. *)
Definition bounded {Out} (o : Orchestrator Out) (max_concurrent : nat) : Prop :=
  ∀ events st, run o events = Some st →
    in_flight st ≤ max_concurrent ∧
    semaphore st + in_flight st = max_concurrent ∧
    (in_flight st = max_concurrent → ∀ i, next o (Enter i) st = None).

(** The sections of a prompt: a heading and a body, and a section that
    is left out when its body is empty. *)
Definition section (heading body : string) : list string := [heading; body].

Definition optional_section (heading body : string) : list string :=
  if Str.truthy body then [heading; body] else [].

Definition rubric_heading : string := "## Grille d'évaluation" +:+ nl.

Definition knowledge_heading : string :=
  nl +:+ nl +:+ "## Base de connaissances / Documents de référence" +:+ nl.

Definition instructions_heading : string :=
  nl +:+ nl +:+ "## Instructions supplémentaires du professeur" +:+ nl.

Definition format_heading : string :=
  nl +:+ nl +:+ "## Format de sortie attendu" +:+ nl.

Definition submission_heading : string :=
  nl +:+ nl +:+ "## Travail de l'étudiant à évaluer" +:+ nl.

Definition submission_heading_of (student_name : string) : string :=
  nl +:+ nl +:+ "## Travail de l'étudiant (" +:+ student_name
  +:+ ") à évaluer" +:+ nl.

(** *** Sample runs *)

Definition sample_context : Context :=
  {| evaluation_grid := "Clarté: 10 points";
     knowledge_base := "";
     system_prompt := "Tu es un correcteur.";
     output_format_instructions := "Un paragraphe.";
     custom_instructions := "";
     model_name := "gpt-4o" |}.

Definition sample_students : list (string * string) :=
  [("Alice", "Travail A"); ("Bob", "Travail B"); ("Chloé", "Travail C")].

(** Bob's call times out; the other two are answered. *)
Definition sample_api (i : nat) : result string :=
  match i with
  | 1 => Raise (Exc "APITimeoutError" "Request timed out.")
  | _ => Return "Bon travail."
  end.

(** A decoder for the samples: any content decodes to the same grade. *)
Definition sample_decode (content : string) : result Graded :=
  Return {| json_feedback_general := content;
            json_criteres := [];
            json_note_finale := 15%Q;
            json_note_max := 20%Q |}.

Definition quiet_callback : Callback := λ _ _ _, None.

Definition failing_callback : Callback :=
  λ _ _ _, Some (Exc "RuntimeError" "progress bar is gone").

(** Raises on the first call only. *)
Definition flaky_callback : Callback :=
  λ completed _ _,
    if (completed =? 1)%nat then Some (Exc "RuntimeError" "progress bar is gone")
    else None.

(** Bob and Chloé enter first; Chloé completes before Bob, then Alice
    runs. *)
Definition sample_events : list Event :=
  [Enter 1; Enter 2; Resume 2; Enter 0; Resume 1; Resume 0].

End LlmEvaluator.

(** ** [main.py]: from the upload to the first check *)

Module Main.
Import ZipHandler.

(** How the script stands after the extraction step. *)
Inductive Outcome : Type :=
  | Uncaught (e : Exception)
      (* an exception left the script: the run is over *)
  | Stopped (message : string)
      (* [st.error(message)] then [st.stop()] *)
  | Proceeds (student_submissions : gmap string (list (string * bytes))).
      (* the script goes on to parse the files and, after that, to call
         the orchestrator *)

Section Driver.

Variable decimal_beyond_ascii : N → bool.
Variable open_zip : bytes → result ZipFile.

(** [student_submissions = extract_student_submissions(zip_content)]
    followed by [if not student_submissions: st.error(...); st.stop()].
    Nothing catches what the extraction raises. *)
Definition extraction_step (zip_content : bytes) : Outcome :=
  match extract_student_submissions decimal_beyond_ascii open_zip
          zip_content with
  | Raise e => Uncaught e
  | Return student_submissions =>
      if decide (student_submissions = ∅)
      then Stopped "❌ Aucun travail d'étudiant trouvé dans le ZIP."
      else Proceeds student_submissions
  end.

End Driver.

(** An archive with nothing but ignored entries. *)
Definition ignored_only_archive : ZipFile :=
  archive [("__MACOSX/._essay.docx", [x03]); ("readme.txt", [x04]);
           ("Alice/", [])].

End Main.

(** ** Further vocabulary for the extractor *)

Module ZipHandlerMore.
Import ZipHandler.

(** The number of files a dictionary of submissions holds. *)
Definition file_count (students : gmap string (list (string * bytes))) : nat :=
  sum_list ((λ kv, length kv.2) <$> map_to_list students).

(** No character of [s] is [c]. *)
Definition free_of (c : ascii) (s : string) : bool :=
  string_forall (λ a, negb (Ascii.eqb a c)) s.

End ZipHandlerMore.

(** ** Further vocabulary for the orchestrator *)

Module OrchestratorMore.
Import LlmEvaluator.

(** A callback that returns whenever it is told a count between 1 and
    the total. *)
Definition returns_in_range (progress_callback : option Callback) : Prop :=
  ∀ callback, progress_callback = Some callback →
    ∀ completed total student_name,
      1 ≤ completed ≤ total → callback completed total student_name = None.

(** The same callback, made to return from every call. *)
Definition quieted (progress_callback : option Callback) : option Callback :=
  (λ _, quiet_callback) <$> progress_callback.

(** [update_progress] of [main.py]:
    [progress_bar.progress(completed / total)], then
    [status_text.text(...)].  The division raises [ZeroDivisionError] for
    a total of 0, and the progress bar refuses a value outside
    [[0.0, 1.0]], which [completed / total] is exactly when [completed]
    exceeds [total]. *)
Definition update_progress : Callback :=
  λ completed total _,
    if (total =? 0)%nat
    then Some (Exc "ZeroDivisionError" "division by zero")
    else if (total <? completed)%nat
    then Some (Exc "StreamlitAPIException" "Progress Value has invalid value")
    else None.

(** The calls heard so far carry the counts 1, 2, 3 ... up to the
    counter, each with the number of students as the total. *)
Definition counts_in_step (n : nat) (p : Progress) : Prop :=
  (λ c, c.1.1) <$> calls p = seq 1 (completed p) ∧
  Forall (λ c, c.1.2 = n) (calls p).

End OrchestratorMore.

(** ** [main.py]: reading files and sorting results *)

Module MainScript.
Import ZipHandler LlmEvaluator.

(** [d[key] = value] on a dictionary kept as its items in insertion
    order: the value of a present key is replaced in place, a new key
    goes to the end. *)
Fixpoint dict_set {V} (key : string) (value : V) (d : list (string * V))
    : list (string * V) :=
  match d with
  | [] => [(key, value)]
  | (k, v) :: rest =>
      if decide (k = key) then (k, value) :: rest
      else (k, v) :: dict_set key value rest
  end.

(** [bool(parsed)] for the [str | None] that [parse_document] returns. *)
Definition truthy_text (parsed : option string) : bool :=
  match parsed with
  | Some text => Str.truthy text
  | None => false
  end.

(** The block [f"=== {name} ===\n{parsed}"]. *)
Definition block (name parsed : string) : string :=
  "=== " +:+ name +:+ " ===" +:+ nl +:+ parsed.

Section Reading.

Variables parse_pdf parse_docx parse_excel parse_html : bytes → result string.
Variable decode_utf8_replace : bytes → string.

Local Abbreviation parse_document :=
  (parse_document parse_pdf parse_docx parse_excel parse_html
                  decode_utf8_replace).

(** The loop that [parse_uploaded_files] and the per-student loop of
    the script share: each file is parsed, and a block is appended for
    each file that gave text. *)
Fixpoint parse_files (files : list (string * bytes)) (contents : list string)
    : result (list string) :=
  match files with
  | [] => Return contents
  | (name, content) :: rest =>
      parsed ← parse_document name content;
      let contents :=
        match parsed with
        | Some text =>
            if Str.truthy text then contents ++ [block name text] else contents
        | None => contents
        end in
      parse_files rest contents
  end.

(** [parse_uploaded_files]; an uploaded file is its name and what
    [file.read()] returns. *)
Definition parse_uploaded_files (files : list (string * bytes)) : result string :=
  match files with
  | [] => Return ""
  | _ =>
      contents ← parse_files files [];
      Return (Str.join (nl +:+ nl) contents)
  end.

(** The reading of the evaluation grid: the uploaded files, then the
    text typed in, and the script stops when neither gives anything. *)
Inductive Grid : Type :=
  | GridUncaught (e : Exception)
  | GridStopped (message : string)
  | GridRead (eval_grid_content : string).

Definition typed_block (text : string) : string :=
  "=== Texte saisi ===" +:+ nl +:+ Str.strip text.

Definition read_evaluation_grid (eval_grid_files : list (string * bytes))
    (eval_grid_text : string) : Grid :=
  let from_files :=
    match eval_grid_files with
    | [] => Return []
    | _ =>
        files_content ← parse_uploaded_files eval_grid_files;
        Return (if Str.truthy files_content then [files_content] else [])
    end in
  match from_files with
  | Raise e => GridUncaught e
  | Return eval_grid_parts =>
      let eval_grid_parts :=
        if Str.truthy (Str.strip eval_grid_text)
        then eval_grid_parts ++ [typed_block eval_grid_text]
        else eval_grid_parts in
      let eval_grid_content := Str.join (nl +:+ nl) eval_grid_parts in
      if Str.truthy eval_grid_content then GridRead eval_grid_content
      else GridStopped "❌ Impossible de lire la grille d'évaluation."
  end.

(** The choices of the radio button. *)
Inductive OutputFormat : Type := excel | word_structured | word_free.

(** The handler of the evaluation button, up to the check of the grid:
    the three validations, then the reading of the grid.
    [student_zip] is the uploaded archive, if any. *)
Definition launch (output_format : OutputFormat)
    (eval_grid_files : list (string * bytes)) (eval_grid_text : string)
    (output_format_instructions : string) (student_zip : option bytes)
    : Grid :=
  let has_eval_grid :=
    match eval_grid_files with
    | [] => Str.truthy (Str.strip eval_grid_text)
    | _ => true
    end in
  if match output_format with
     | excel | word_structured => negb has_eval_grid
     | word_free => false
     end
  then GridStopped "❌ Veuillez fournir une grille d'évaluation (fichier ou texte)."
  else if match output_format with
          | word_free => negb (Str.truthy (Str.strip output_format_instructions))
          | _ => false
          end
  then GridStopped "❌ Veuillez fournir des instructions pour le format de sortie."
  else match student_zip with
       | None =>
           GridStopped "❌ Veuillez uploader le fichier ZIP des travaux étudiants."
       | Some _ => read_evaluation_grid eval_grid_files eval_grid_text
       end.

(** The loop over [student_submissions.items()]: the dictionary
    [parsed_submissions] and the warnings shown, oldest first. *)
Fixpoint parse_students (items : list (string * list (string * bytes)))
    (parsed_submissions : list (string * string)) (warnings : list string)
    : result (list (string * string) * list string) :=
  match items with
  | [] => Return (parsed_submissions, warnings)
  | (student_name, files) :: rest =>
      student_work_parts ← parse_files files [];
      match student_work_parts with
      | [] =>
          parse_students rest parsed_submissions
            (warnings ++ ["⚠️ Aucun fichier lisible pour " +:+ student_name])
      | _ =>
          parse_students rest
            (dict_set student_name (Str.join (nl +:+ nl) student_work_parts)
                      parsed_submissions)
            warnings
      end
  end.

(** How the script stands after the parsing of the students' files. *)
Inductive Parsed : Type :=
  | ParseUncaught (e : Exception)
  | ParseStopped (message : string) (warnings : list string)
  | Evaluates (parsed_submissions : list (string * string))
              (warnings : list string).

Definition parsing_step (items : list (string * list (string * bytes)))
    : Parsed :=
  match parse_students items [] [] with
  | Raise e => ParseUncaught e
  | Return (parsed_submissions, warnings) =>
      match parsed_submissions with
      | [] => ParseStopped "❌ Aucun travail lisible trouvé." warnings
      | _ => Evaluates parsed_submissions warnings
      end
  end.

(** A file that gives text. *)
Definition readable (file : string * bytes) : bool :=
  match parse_document file.1 file.2 with
  | Return parsed => truthy_text parsed
  | Raise _ => false
  end.

(** A file on which the parser raises. *)
Definition raises (file : string * bytes) : bool :=
  match parse_document file.1 file.2 with
  | Return _ => false
  | Raise _ => true
  end.

(** The block of a file that gives text. *)
Definition block_of (file : string * bytes) : option string :=
  match parse_document file.1 file.2 with
  | Return (Some text) =>
      if Str.truthy text then Some (block file.1 text) else None
  | _ => None
  end.

Definition blocks (files : list (string * bytes)) : list string :=
  omap block_of files.

(** A student with a file that gives text, and the text kept for that
    student. *)
Definition has_readable (item : string * list (string * bytes)) : bool :=
  existsb readable item.2.

Definition work_of (item : string * list (string * bytes)) : string * string :=
  (item.1, Str.join (nl +:+ nl) (blocks item.2)).

(** The typed text, when there is any. *)
Definition typed (text : string) : list string :=
  if Str.truthy (Str.strip text) then [typed_block text] else [].

(** What the typed text adds to the grid: nothing when it is blank,
    else one block with the text trimmed. *)
Definition typed_part (text : string) (part : list string) : Prop :=
  (Str.blank text ∧ part = []) ∨
  (¬ Str.blank text ∧
   ∃ t, Str.trims text t ∧ t ≠ "" ∧
        part = ["=== Texte saisi ===" +:+ nl +:+ t]).

(** The three validations of the handler pass: a grid is given, as
    a file or as text that is not blank, when the format is a
    structured one; the instructions are not blank when the format is
    the free one; and an archive is uploaded. *)
Definition validated (output_format : OutputFormat)
    (eval_grid_files : list (string * bytes)) (eval_grid_text : string)
    (output_format_instructions : string) (student_zip : option bytes)
    : Prop :=
  (output_format ≠ word_free →
   eval_grid_files ≠ [] ∨ ¬ Str.blank eval_grid_text) ∧
  (output_format = word_free → ¬ Str.blank output_format_instructions) ∧
  student_zip ≠ None.

Definition warning_of (item : string * list (string * bytes)) : string :=
  "⚠️ Aucun fichier lisible pour " +:+ item.1.

End Reading.

(** *** After the evaluation *)

(** [str(e)] for an exception built from a message. *)
Definition str_exception (e : Exception) : string :=
  match e with Exc _ message => message end.

(** The loop over the results of the free-form orchestrator: the list
    [free_evaluations] and the errors shown. *)
Fixpoint sort_free_results (results : list (string * (string + Exception)))
    (free_evaluations : list (string * string)) (errors : list string)
    : list (string * string) * list string :=
  match results with
  | [] => (free_evaluations, errors)
  | (student_name, inr e) :: rest =>
      sort_free_results rest free_evaluations
        (errors ++ ["❌ Erreur pour " +:+ student_name +:+ ": " +:+ str_exception e])
  | (student_name, inl result) :: rest =>
      sort_free_results rest (free_evaluations ++ [(student_name, result)]) errors
  end.

(** The loop over the results of the structured orchestrator. *)
Fixpoint sort_results (results : list (EvaluationResult.t + Exception))
    (evaluations : list EvaluationResult.t) (errors : list string)
    : list EvaluationResult.t * list string :=
  match results with
  | [] => (evaluations, errors)
  | inr e :: rest =>
      sort_results rest evaluations (errors ++ ["❌ Erreur: " +:+ str_exception e])
  | inl result :: rest =>
      sort_results rest (evaluations ++ [result]) errors
  end.

(** What the script offers once the results are sorted: a download, or
    the message that nothing could be evaluated. *)
Inductive Offer (A : Type) : Type :=
  | Download (evaluations : list A)
  | NothingEvaluated (message : string).
Arguments Download {A} evaluations.
Arguments NothingEvaluated {A} message.

Definition offer {A} (evaluations : list A) : Offer A :=
  match evaluations with
  | [] => NothingEvaluated "❌ Aucune évaluation n'a pu être effectuée."
  | _ => Download evaluations
  end.

(** The message shown for a student whose evaluation raised [e]. *)
Definition error_of (student_name : string) (e : Exception) : string :=
  "❌ Erreur pour " +:+ student_name +:+ ": " +:+ str_exception e.

(** The students whose call was answered, with the answer, and the
    messages for the others, both in input order. *)
Definition answered (api : nat → result string)
    (student_submissions : list (string * string)) : list (string * string) :=
  omap id (imap (λ i item, match api i with
                           | Return content => Some (item.1, content)
                           | Raise _ => None
                           end) student_submissions).

Definition failed (api : nat → result string)
    (student_submissions : list (string * string)) : list string :=
  omap id (imap (λ i item, match api i with
                           | Return _ => None
                           | Raise e => Some (error_of item.1 e)
                           end) student_submissions).

(** The same for the structured evaluation: the results of the students
    whose call was answered and decoded, and the messages for the
    others. *)
Definition evaluated (json_decode : string → result Graded)
    (api : nat → result string) (student_submissions : list (string * string))
    : list EvaluationResult.t :=
  omap id (imap (λ i item,
                   match evaluate_student_work_async_resume json_decode
                           item.1 (api i) with
                   | Return result => Some result
                   | Raise _ => None
                   end) student_submissions).

Definition unevaluated (json_decode : string → result Graded)
    (api : nat → result string) (student_submissions : list (string * string))
    : list string :=
  omap id (imap (λ i item,
                   match evaluate_student_work_async_resume json_decode
                           item.1 (api i) with
                   | Return _ => None
                   | Raise e => Some ("❌ Erreur: " +:+ str_exception e)
                   end) student_submissions).

(** *** Samples *)

Definition sample_parse_pdf (content : bytes) : result string :=
  match content with
  | [] => Raise (Exc "FileDataError" "Failed to open stream")
  | _ => Return "Texte du PDF"
  end.

Definition sample_parse_other (content : bytes) : result string := Return "".

Definition sample_decode_text (content : bytes) : string :=
  match content with
  | [] => ""
  | _ => "Texte"
  end.

Definition sample_items : list (string * list (string * bytes)) :=
  [("Alice", [("report.pdf", [x01]); ("annex.txt", [x06])]);
   ("Bob", [("notes.odt", [x02]); ("empty.txt", [])]);
   ("Chloé", [("essay.md", [x03])])].

End MainScript.

(** ** [src/export]: names of files and sheets, free-form Word documents *)

Module Exports.

(** The sanitizers look at a name character by character, so a name is
    here the list of its code points. *)
Abbreviation text := (list N).

(** An ASCII literal as code points. *)
Definition of_ascii (s : string) : text :=
  (λ a, N_of_ascii a) <$> list_ascii_of_string s.

Section Filenames.

(** [str.isalnum] from code point 128 on, as the Unicode tables of the
    interpreter have it. *)
Variable isalnum_beyond_ascii : N → bool.

(** [c.isalnum()] *)
Definition isalnum (c : N) : bool :=
  if (c <? 128)%N
  then ((48 <=? c) && (c <=? 57) || (65 <=? c) && (c <=? 90)
        || (97 <=? c) && (c <=? 122))%N
  else isalnum_beyond_ascii c.

(** [c.isalnum() or c in (" ", "-", "_")] *)
Definition keeps (c : N) : bool :=
  isalnum c || bool_decide (c ∈ [32; 45; 95]%N).

(** [sanitize_filename], and the same expression inlined in
    [create_word_documents_zip] and [create_free_format_documents_zip]. *)
Definition sanitize_filename (name : text) : text :=
  (λ c, if keeps c then c else 95%N) <$> name.

(** What is written under a name of the archive: the builder that was
    called and its argument. *)
Inductive Payload (E : Type) : Type :=
  | ExcelReport (evaluations : list E)
  | WordDocument (evaluation : E)
  | MarkdownText (evaluation : E).
Arguments ExcelReport {E} evaluations.
Arguments WordDocument {E} evaluation.
Arguments MarkdownText {E} evaluation.

Section Archives.

(** An evaluation: an [EvaluationResult], or a pair of a name and a
    text. *)
Context {E : Type}.
Variable student_name : E → text.

Definition markdown_entry (evaluation : E) : text * Payload E :=
  (of_ascii "markdown/" ++ sanitize_filename (student_name evaluation)
   ++ of_ascii ".txt", MarkdownText evaluation).

Definition word_entry (evaluation : E) : text * Payload E :=
  (of_ascii "word/" ++ sanitize_filename (student_name evaluation)
   ++ of_ascii ".docx", WordDocument evaluation).

(** The calls of [zf.writestr], in order. *)
Definition create_combined_export_excel (evaluations : list E)
    : list (text * Payload E) :=
  (of_ascii "evaluations_etudiants.xlsx", ExcelReport evaluations)
  :: (markdown_entry <$> evaluations).

Definition create_combined_export_word (evaluations : list E)
    : list (text * Payload E) :=
  evaluations ≫= λ evaluation, [word_entry evaluation; markdown_entry evaluation].

Definition create_combined_export_free_format (evaluations : list E)
    : list (text * Payload E) :=
  evaluations ≫= λ evaluation, [word_entry evaluation; markdown_entry evaluation].

End Archives.

End Filenames.

(** [s.replace(old, "_")] for a one-character [old]. *)
Definition replace (old new : N) (s : text) : text :=
  (λ c, if (c =? old)%N then new else c) <$> s.

(** [ [ ] : * ? / \ ] *)
Definition invalid_chars : list N := [91; 93; 58; 42; 63; 47; 92]%N.

(** [sanitize_sheet_name] *)
Definition sanitize_sheet_name (name : text) : text :=
  let sanitized := foldl (λ sanitized char, replace char 95 sanitized) name
                         invalid_chars in
  take 31 sanitized.

(** *** Free-form Word documents *)

(** What [python-docx] is asked to add to the document. *)
Inductive Block : Type :=
  | Heading (text : string) (level : nat)
  | Paragraph (text : string).

Definition first_of (w : string) (l : list string) (a : ascii) : list string :=
  match l with
  | w :: ws => String a w :: ws
  | [] => [String a w]
  end.

(** [content.split("\n\n")] *)
Fixpoint split_blank_lines (s : string) : list string :=
  match s with
  | EmptyString => [EmptyString]
  | String a s' =>
      match s' with
      | String b rest =>
          if Ascii.eqb a "010" && Ascii.eqb b "010"
          then EmptyString :: split_blank_lines rest
          else first_of EmptyString (split_blank_lines s') a
      | EmptyString => first_of EmptyString (split_blank_lines s') a
      end
  end.

(** The block that the body of the loop asks for, if any. *)
Definition requested (para_text : string) : option Block :=
  if Str.truthy (Str.strip para_text) then
    let stripped := Str.strip para_text in
    if Str.startswith "# " stripped then Some (Heading (Str.drop 2 stripped) 1)
    else if Str.startswith "## " stripped then Some (Heading (Str.drop 3 stripped) 2)
    else if Str.startswith "### " stripped then Some (Heading (Str.drop 4 stripped) 3)
    else Some (Paragraph stripped)
  else None.

Section Document.

(** [doc.add_heading] and [doc.add_paragraph] of python-docx, which
    refuse some texts (a [ValueError] for a control character):
    [None] when the call returns. *)
Variable add_heading : string → nat → option Exception.
Variable add_paragraph : string → option Exception.

Definition call (b : Block) : option Exception :=
  match b with
  | Heading text level => add_heading text level
  | Paragraph text => add_paragraph text
  end.

(** One call on the document: the block is added, or the exception
    leaves the function. *)
Definition add (doc : list Block) (b : Block) : result (list Block) :=
  match call b with
  | None => Return (doc ++ [b])
  | Some e => Raise e
  end.

(** The loop over the paragraphs. *)
Fixpoint add_paragraphs (doc : list Block) (paragraphs : list string)
    : result (list Block) :=
  match paragraphs with
  | [] => Return doc
  | para_text :: rest =>
      doc ← match requested para_text with
            | Some b => add doc b
            | None => Return doc
            end;
      add_paragraphs doc rest
  end.

(** [create_free_format_word_document], up to the saving of the
    document: the blocks added, in order. *)
Definition create_free_format_word_document (student_name content : string)
    : result (list Block) :=
  doc ← add [] (Heading ("Évaluation - " +:+ student_name) 0);
  add_paragraphs doc (split_blank_lines content).

(** The calls for [blocks], made in order: the document holds them
    all when the library accepts them all, and the first that it
    refuses ends the function with its exception. *)
Definition made (blocks : list Block) (r : result (list Block)) : Prop :=
  match r with
  | Return doc => doc = blocks ∧ ∀ b, b ∈ blocks → call b = None
  | Raise e =>
      ∃ before b after, blocks = before ++ b :: after ∧
        (∀ b', b' ∈ before → call b' = None) ∧ call b = Some e
  end.

End Document.

(** The paragraphs of a content. *)
Definition paragraphs (content : string) : list string :=
  split_blank_lines content.

(** The mark of a heading: [#], [##] or [###], and a space. *)
Fixpoint mark (level : nat) : string :=
  match level with
  | 0 => " "
  | S level => String "#" (mark level)
  end.

(** The paragraph a block was made from, stripped. *)
Definition source_of (b : Block) : string :=
  match b with
  | Heading text level => mark level +:+ text
  | Paragraph text => text
  end.

(** A block of the body: a heading of level 1 to 3 whose text is not
    empty and does not end with white space, or a paragraph that is not
    empty, has white space at neither end and does not start with the
    mark of a heading. *)
Definition well_formed (b : Block) : Prop :=
  match b with
  | Heading text level =>
      1 ≤ level ≤ 3 ∧ text ≠ "" ∧ ¬ Utf8.ends Str.isspace text
  | Paragraph text =>
      text ≠ "" ∧ Str.trimmed text ∧
      ∀ level, 1 ≤ level ≤ 3 → Str.startswith (mark level) text = false
  end.

(** The blocks that a list of paragraphs gives: nothing for a blank
    paragraph, and for any other the one well-formed block made from the
    paragraph without the white space around it. *)
Inductive renders : list string → list Block → Prop :=
  | renders_nil : renders [] []
  | renders_blank para_text rest blocks :
      Str.blank para_text → renders rest blocks →
      renders (para_text :: rest) blocks
  | renders_block para_text rest b blocks :
      ¬ Str.blank para_text → Str.trims para_text (source_of b) →
      well_formed b → renders rest blocks →
      renders (para_text :: rest) (b :: blocks).

(** A library for the samples: it refuses the texts that hold the
    character U+0001. *)
Definition sample_refuses (text : string) : option Exception :=
  if Str.contains (String (ascii_of_N 1) EmptyString) text
  then Some (Exc "ValueError" "All strings must be XML compatible")
  else None.

Definition sample_content : string :=
  "# Bilan" +:+ LlmEvaluator.nl +:+ LlmEvaluator.nl
  +:+ ZipHandler.nbsp +:+ "Bon travail. " +:+ LlmEvaluator.nl
  +:+ LlmEvaluator.nl +:+ LlmEvaluator.nl +:+ " " +:+ LlmEvaluator.nl
  +:+ LlmEvaluator.nl +:+ "## Détail".

(** The characters of a sheet name that [sanitize_sheet_name] leaves
    alone. *)
Definition valid_char (c : N) : Prop := c ∉ invalid_chars.

End Exports.

(** * Properties *)

(** ** Strings *)

Module StrFacts.

Lemma append_cons c s t : String c s +:+ t = String c (s +:+ t).
Proof. reflexivity. Qed.

Lemma append_nil t : "" +:+ t = t.
Proof. reflexivity. Qed.

Lemma length_append a : ∀ b,
  String.length (a +:+ b) = String.length a + String.length b.
Proof.
  induction a as [|x a IH]; intros b; [done|].
  rewrite append_cons. cbn [String.length]. by rewrite IH.
Qed.

(** Two ways of cutting the same text. *)
Lemma append_eq_append a : ∀ b c d,
  a +:+ b = c +:+ d →
  (∃ a', a = c +:+ a' ∧ d = a' +:+ b) ∨
  (∃ c', c' ≠ "" ∧ c = a +:+ c' ∧ b = c' +:+ d).
Proof.
  induction a as [|x a IH]; intros b c d H.
  - destruct c as [|y c].
    + left. exists "". by rewrite !append_nil in *.
    + right. exists (String y c). by rewrite append_nil in H.
  - destruct c as [|y c].
    + left. exists (String x a). by rewrite append_nil in *.
    + rewrite !append_cons in H. injection H as <- H.
      destruct (IH _ _ _ H) as [(a' & -> & ->)|(c' & Hne & -> & ->)].
      * left. by exists a'.
      * right. by exists c'.
Qed.

Lemma append_assoc a : ∀ b c, (a +:+ b) +:+ c = a +:+ b +:+ c.
Proof.
  induction a as [|x a IH]; intros b c; [done|].
  change (String x a +:+ b) with (String x (a +:+ b)).
  change (String x (a +:+ b) +:+ c) with (String x ((a +:+ b) +:+ c)).
  by rewrite IH.
Qed.

Lemma append_empty_r a : a +:+ "" = a.
Proof.
  induction a as [|x a IH]; [done|].
  change (String x a +:+ "") with (String x (a +:+ "")). by rewrite IH.
Qed.

Lemma append_eq_empty a b : a +:+ b = "" → a = "" ∧ b = "".
Proof. destruct a; [done|]. intros H. discriminate H. Qed.

(** The last part of a join ends the text. *)
Lemma join_snoc sep l x : ∃ before, Str.join sep (l ++ [x]) = before +:+ x.
Proof.
  induction l as [|a l [before IH]]; [by exists ""|].
  exists (a +:+ sep +:+ before).
  change ((a :: l) ++ [x]) with (a :: (l ++ [x])).
  destruct (l ++ [x]) as [|b k] eqn:Hk; [by destruct l|].
  cbn [Str.join]. cbn [Str.join] in IH. rewrite IH.
  by rewrite !append_assoc.
Qed.

(** A join of non-empty parts is empty only when there is no part. *)
Lemma join_empty sep l :
  (∀ x, x ∈ l → x ≠ "") → Str.join sep l = "" → l = [].
Proof.
  destruct l as [|a l]; [done|]. intros Hne H. exfalso.
  apply (Hne a); [by left|].
  destruct l; simpl in H; [done|]. by apply append_eq_empty in H as [-> _].
Qed.

(** Joining a join with one more part is joining all the parts. *)
Lemma join_join sep l x :
  l ≠ [] → Str.join sep [Str.join sep l; x] = Str.join sep (l ++ [x]).
Proof.
  induction l as [|a l IH]; [done|]. intros _.
  destruct l as [|b l]; [done|].
  change ((a :: b :: l) ++ [x]) with (a :: (b :: l) ++ [x]).
  change (Str.join sep (a :: (b :: l) ++ [x]))
    with (a +:+ sep +:+ Str.join sep ((b :: l) ++ [x])).
  rewrite <- IH by done.
  change (Str.join sep (a :: b :: l)) with (a +:+ sep +:+ Str.join sep (b :: l)).
  cbn [Str.join]. by rewrite !append_assoc.
Qed.

End StrFacts.

(** ** UTF-8 and classes of characters *)

Module Utf8Facts.
Import Utf8.
Export StrFacts.

Lemma char1_lead a c : char1 a = Some c → (code a < 128)%N ∧ c = code a.
Proof.
  unfold char1. destruct (N.ltb_spec (code a) 128); [|done]. by intros [= <-].
Qed.

Lemma char2_lead a b c :
  char2 a b = Some c → (194 ≤ code a ≤ 223)%N ∧ continuation b = true.
Proof.
  unfold char2.
  destruct (N.leb_spec 194 (code a)); [|done].
  destruct (N.leb_spec (code a) 223); [|done].
  destruct (continuation b); [|done]. intros _. split; [lia|done].
Qed.

Lemma char3_lead a b c x :
  char3 a b c = Some x →
  (224 ≤ code a ≤ 239)%N ∧ continuation b = true ∧ continuation c = true.
Proof.
  unfold char3.
  destruct (N.leb_spec 224 (code a)); [|done].
  destruct (N.leb_spec (code a) 239); [|done].
  destruct (continuation b); [|done].
  destruct (continuation c); [|done]. intros _. split; [lia|done].
Qed.

Lemma char4_lead a b c d x :
  char4 a b c d = Some x →
  (240 ≤ code a ≤ 244)%N ∧
  continuation b = true ∧ continuation c = true ∧ continuation d = true.
Proof.
  unfold char4.
  destruct (N.leb_spec 240 (code a)); [|done].
  destruct (N.leb_spec (code a) 244); [|done].
  destruct (continuation b); [|done].
  destruct (continuation c); [|done].
  destruct (continuation d); [|done]. intros _. split; [lia|done].
Qed.

Section Class.

Variable member : N → bool.

Local Abbreviation among := (among member).
Local Abbreviation char := (char member).
Local Abbreviation skip := (skip member).
Local Abbreviation run := (run member).
Local Abbreviation starts := (starts member).
Local Abbreviation ends := (ends member).

Lemma among_Some o : among o = true → ∃ c, o = Some c ∧ member c = true.
Proof. destruct o as [c|]; [|done]. intros H. by exists c. Qed.

(** The first byte tells how long a character is. *)
Lemma lead1 a b : among (char1 a) = true → char2 a b = None.
Proof.
  intros (c & [H _]%char1_lead & _)%among_Some.
  destruct (char2 a b) as [x|] eqn:Hx; [|done].
  apply char2_lead in Hx as [? _]. lia.
Qed.

Lemma lead2 a b : among (char2 a b) = true → char1 a = None.
Proof.
  intros (c & [H _]%char2_lead & _)%among_Some.
  destruct (char1 a) as [x|] eqn:Hx; [|done].
  apply char1_lead in Hx as [? _]. lia.
Qed.

Lemma lead3 a b c :
  among (char3 a b c) = true → char1 a = None ∧ ∀ b', char2 a b' = None.
Proof.
  intros (x & [H _]%char3_lead & _)%among_Some. split.
  - destruct (char1 a) as [y|] eqn:Hy; [|done].
    apply char1_lead in Hy as [? _]. lia.
  - intros b'. destruct (char2 a b') as [y|] eqn:Hy; [|done].
    apply char2_lead in Hy as [? _]. lia.
Qed.

Lemma lead4 a b c d :
  among (char4 a b c d) = true →
  char1 a = None ∧ (∀ b', char2 a b' = None) ∧ ∀ b' c', char3 a b' c' = None.
Proof.
  intros (x & [H _]%char4_lead & _)%among_Some. split; [|split].
  - destruct (char1 a) as [y|] eqn:Hy; [|done].
    apply char1_lead in Hy as [? _]. lia.
  - intros b'. destruct (char2 a b') as [y|] eqn:Hy; [|done].
    apply char2_lead in Hy as [? _]. lia.
  - intros b' c'. destruct (char3 a b' c') as [y|] eqn:Hy; [|done].
    apply char3_lead in Hy as [? _]. lia.
Qed.

(** A character is one to four bytes. *)
Lemma char_inv w :
  char w = true →
  (∃ a, w = String a "" ∧ among (char1 a) = true) ∨
  (∃ a b, w = String a (String b "") ∧ among (char2 a b) = true) ∨
  (∃ a b c, w = String a (String b (String c "")) ∧
            among (char3 a b c) = true) ∨
  (∃ a b c d, w = String a (String b (String c (String d ""))) ∧
              among (char4 a b c d) = true).
Proof.
  destruct w as [|a [|b [|c [|d [|e w]]]]]; cbn; try done; intros H.
  - left. by exists a.
  - right. left. by exists a, b.
  - right. right. left. by exists a, b, c.
  - right. right. right. by exists a, b, c, d.
Qed.

Lemma char_nonempty w : char w = true → w ≠ "".
Proof. by destruct w. Qed.

(** Skipping goes over a leading character of the class. *)
Lemma skip_char w r : char w = true → skip (w +:+ r) = skip r.
Proof.
  intros [(a & -> & H)|[(a & b & -> & H)|[(a & b & c & -> & H)
         |(a & b & c & d & -> & H)]]]%char_inv;
    rewrite ?append_cons, append_nil; cbn [Utf8.skip].
  - by rewrite H.
  - by rewrite (lead2 _ _ H), H.
  - destruct (lead3 _ _ _ H) as [-> H2]. by rewrite H2, H.
  - destruct (lead4 _ _ _ _ H) as (-> & H2 & H3). by rewrite H2, H3, H.
Qed.

Lemma run_app a b : run a → run b → run (a +:+ b).
Proof.
  induction 1 as [|w s Hw _ IH]; intros Hb; [done|].
  rewrite append_assoc. constructor; [done|by apply IH].
Qed.

Lemma run_char w : char w = true → run w.
Proof.
  intros H. rewrite <- (append_empty_r w). constructor; [done|constructor].
Qed.

Lemma skip_run ds r : run ds → skip (ds +:+ r) = skip r.
Proof.
  induction 1 as [|w s Hw _ IH]; [done|].
  by rewrite append_assoc, skip_char.
Qed.

Lemma skip_all ds : run ds → skip ds = "".
Proof. intros H. rewrite <- (append_empty_r ds). by rewrite skip_run. Qed.

(** One step of the skipping: it stops where no character of the
    class stands, and goes over one otherwise. *)
Lemma skip_step s :
  (skip s = s ∧ ¬ starts s) ∨
  (∃ w r, char w = true ∧ s = w +:+ r ∧ skip s = skip r).
Proof.
  assert (Hgo : ∀ w r, char w = true → s = w +:+ r →
            (skip s = s ∧ ¬ starts s) ∨
            (∃ w r, char w = true ∧ s = w +:+ r ∧ skip s = skip r)).
  { intros w r Hw ->. right. exists w, r. by rewrite skip_char. }
  destruct s as [|a s1]; [left; split; [done|]|].
  { intros (w & r & Hw & H). symmetry in H.
    apply append_eq_empty in H as [-> _]. by apply char_nonempty in Hw. }
  destruct (among (char1 a)) eqn:H1.
  { apply (Hgo (String a "") s1); [done|done]. }
  destruct s1 as [|b s2].
  { left. split; [by cbn; rewrite H1|].
    intros (w & r & Hw & H).
    apply char_inv in Hw as [(a' & -> & Hw)|[(a' & b' & -> & Hw)
         |[(a' & b' & c' & -> & Hw)|(a' & b' & c' & d' & -> & Hw)]]];
      rewrite ?append_cons, ?append_nil in H; try discriminate H.
    injection H as -> _. congruence. }
  destruct (among (char2 a b)) eqn:H2.
  { apply (Hgo (String a (String b "")) s2); [done|done]. }
  destruct s2 as [|c s3].
  { left. split; [by cbn; rewrite H1, H2|].
    intros (w & r & Hw & H).
    apply char_inv in Hw as [(a' & -> & Hw)|[(a' & b' & -> & Hw)
         |[(a' & b' & c' & -> & Hw)|(a' & b' & c' & d' & -> & Hw)]]];
      rewrite ?append_cons, ?append_nil in H; try discriminate H.
    - injection H as -> _. congruence.
    - injection H as -> -> _. congruence. }
  destruct (among (char3 a b c)) eqn:H3.
  { apply (Hgo (String a (String b (String c ""))) s3); [done|done]. }
  destruct s3 as [|d s4].
  { left. split; [by cbn; rewrite H1, H2, H3|].
    intros (w & r & Hw & H).
    apply char_inv in Hw as [(a' & -> & Hw)|[(a' & b' & -> & Hw)
         |[(a' & b' & c' & -> & Hw)|(a' & b' & c' & d' & -> & Hw)]]];
      rewrite ?append_cons, ?append_nil in H; try discriminate H.
    - injection H as -> _. congruence.
    - injection H as -> -> _. congruence.
    - injection H as -> -> -> _. congruence. }
  destruct (among (char4 a b c d)) eqn:H4.
  { apply (Hgo (String a (String b (String c (String d "")))) s4); [done|done]. }
  left. split; [by cbn; rewrite H1, H2, H3, H4|].
  intros (w & r & Hw & H).
  apply char_inv in Hw as [(a' & -> & Hw)|[(a' & b' & -> & Hw)
       |[(a' & b' & c' & -> & Hw)|(a' & b' & c' & d' & -> & Hw)]]];
    rewrite ?append_cons, ?append_nil in H.
  - injection H as -> _. congruence.
  - injection H as -> -> _. congruence.
  - injection H as -> -> -> _. congruence.
  - injection H as -> -> -> -> _. congruence.
Qed.

Lemma skip_stop s : ¬ starts s → skip s = s.
Proof.
  intros Hs. destruct (skip_step s) as [[H _]|(w & r & Hw & -> & _)]; [done|].
  exfalso. apply Hs. by exists w, r.
Qed.

(** What is skipped is a run of the class, and what is left does not
    start with a character of the class. *)
Lemma skip_spec : ∀ n s, String.length s ≤ n →
  (∃ ds, s = ds +:+ skip s ∧ run ds) ∧ ¬ starts (skip s).
Proof.
  induction n as [|n IH]; intros s Hn.
  - destruct s; [|cbn in Hn; lia]. split; [exists ""; split; [done|constructor]|].
    intros (w & r & Hw & H). symmetry in H.
    apply append_eq_empty in H as [-> _]. by apply char_nonempty in Hw.
  - destruct (skip_step s) as [[H Hs]|(w & r & Hw & -> & H)].
    + rewrite H. split; [|done]. exists "". split; [done|constructor].
    + rewrite H. destruct (IH r) as [(ds & Hr & Hds) Hstop].
      { rewrite length_append in Hn.
        pose proof (char_nonempty w Hw). destruct w; [done|]. cbn in Hn. lia. }
      split; [|done]. exists (w +:+ ds). split.
      * rewrite append_assoc. by rewrite <- Hr.
      * by constructor.
Qed.

Lemma skip_split s : ∃ ds, s = ds +:+ skip s ∧ run ds.
Proof. by destruct (skip_spec (String.length s) s). Qed.

Lemma skip_not_starts s : ¬ starts (skip s).
Proof. by destruct (skip_spec (String.length s) s). Qed.

Lemma skip_empty s : skip s = "" ↔ run s.
Proof.
  split; [|apply skip_all]. intros H.
  destruct (skip_split s) as (ds & Hs & Hds).
  rewrite H, append_empty_r in Hs. by rewrite Hs.
Qed.

(** A character of one byte that is not of the class stops the
    skipping. *)
Lemma starts_ascii a s :
  (code a < 128)%N → starts (String a s) → member (code a) = true.
Proof.
  intros Ha (w & r & Hw & H).
  apply char_inv in Hw as [(a' & -> & Hw)|[(a' & b' & -> & Hw)
       |[(a' & b' & c' & -> & Hw)|(a' & b' & c' & d' & -> & Hw)]]];
    rewrite ?append_cons, ?append_nil in H; injection H as <- _.
  - apply among_Some in Hw as (c & [_ ->]%char1_lead & Hc). done.
  - apply among_Some in Hw as (c & [? _]%char2_lead & _). lia.
  - apply among_Some in Hw as (c & [? _]%char3_lead & _). lia.
  - apply among_Some in Hw as (c & [? _]%char4_lead & _). lia.
Qed.

Lemma run_nonempty_starts s : run s → s ≠ "" → starts s.
Proof.
  induction 1 as [|w s Hw _ _]; [done|]. intros _. by exists w, s.
Qed.

End Class.

End Utf8Facts.

(** ** Trimming *)

Module StripFacts.
Import Utf8 Utf8Facts.

Lemma rstrip_cons c s :
  Str.rstrip (String c s)
  = match Str.lstrip (String c s) with
    | EmptyString => EmptyString
    | _ => String c (Str.rstrip s)
    end.
Proof. reflexivity. Qed.

Lemma lstrip_split s : ∃ l, s = l +:+ Str.lstrip s ∧ Str.blank l.
Proof. apply skip_split. Qed.

Lemma lstrip_not_starts s : ¬ starts Str.isspace (Str.lstrip s).
Proof. apply skip_not_starts. Qed.

Lemma lstrip_blank s : Str.lstrip s = "" ↔ Str.blank s.
Proof. apply skip_empty. Qed.

(** What [rstrip] removes is white space. *)
Lemma rstrip_split s : ∃ r, s = Str.rstrip s +:+ r ∧ Str.blank r.
Proof.
  induction s as [|c s (r & Hr & Hb)]; [exists ""; split; [done|constructor]|].
  rewrite rstrip_cons. destruct (Str.lstrip (String c s)) eqn:Hl.
  - exists (String c s). split; [done|]. by apply lstrip_blank.
  - exists r. split; [|done]. rewrite append_cons. by rewrite <- Hr.
Qed.

(** What [rstrip] leaves does not end with white space. *)
Lemma rstrip_not_ends s : ¬ ends Str.isspace (Str.rstrip s).
Proof.
  induction s as [|c s IH]; intros (x & w & Hw & H).
  - symmetry in H. apply append_eq_empty in H as [_ ->].
    by apply char_nonempty in Hw.
  - rewrite rstrip_cons in H. destruct (Str.lstrip (String c s)) eqn:Hl.
    + symmetry in H. apply append_eq_empty in H as [_ ->].
      by apply char_nonempty in Hw.
    + destruct x as [|y x].
      * rewrite append_nil in H.
        destruct (rstrip_split s) as (r & Hr & Hb).
        assert (Hs : Str.lstrip (String c s) = "").
        { apply lstrip_blank. rewrite Hr, <- append_cons, H.
          apply run_app; [by apply run_char|done]. }
        by rewrite Hs in Hl.
      * rewrite append_cons in H. injection H as _ H.
        apply IH. by exists x, w.
Qed.

Lemma rstrip_starts s :
  starts Str.isspace (Str.rstrip s) → starts Str.isspace s.
Proof.
  intros (w & x & Hw & H). destruct (rstrip_split s) as (r & Hr & _).
  exists w, (x +:+ r). split; [done|]. by rewrite Hr, H, append_assoc.
Qed.

(** [strip] removes white space at both ends, and nothing else. *)
Lemma strip_trims s : Str.trims s (Str.strip s).
Proof.
  destruct (lstrip_split s) as (l & Hl & Hbl).
  destruct (rstrip_split (Str.lstrip s)) as (r & Hr & Hbr).
  exists l, r. unfold Str.strip. split; [by rewrite <- Hr|].
  split; [done|]. split; [done|]. split.
  - intros H. apply rstrip_starts in H. by apply lstrip_not_starts in H.
  - apply rstrip_not_ends.
Qed.

Lemma strip_blank s : Str.strip s = "" ↔ Str.blank s.
Proof.
  split.
  - intros H. destruct (strip_trims s) as (l & r & Hs & Hl & Hr & _).
    rewrite H, append_nil in Hs. rewrite Hs. by apply run_app.
  - intros H. unfold Str.strip.
    by rewrite (proj2 (lstrip_blank s) H).
Qed.

Lemma truthy_strip s : Str.truthy (Str.strip s) = false ↔ Str.blank s.
Proof.
  rewrite <- strip_blank. by destruct (Str.strip s).
Qed.

(** *** There is one way to trim *)

(** After its first byte, a character is made of continuation bytes,
    and its first byte is not one. *)
Lemma char_bytes w a w' :
  char Str.isspace w = true → w = String a w' →
  continuation a = false ∧
  ∀ x b y, w' = x +:+ String b y → continuation b = true.
Proof.
  intros Hw ->. unfold continuation at 1.
  apply char_inv in Hw as [(a' & [= -> ->] & Hw)|[(a' & b' & [= -> ->] & Hw)
       |[(a' & b' & c' & [= -> ->] & Hw)|(a' & b' & c' & d' & [= -> ->] & Hw)]]];
    apply among_Some in Hw as (cp & Hcp & _).
  - apply char1_lead in Hcp as [H _]. split.
    + destruct (N.leb_spec 128 (code a')); [lia|done].
    + intros [|? ?] b y; discriminate.
  - apply char2_lead in Hcp as [H Hb]. split.
    + destruct (N.leb_spec 128 (code a')); [|done].
      destruct (N.leb_spec (code a') 191); [lia|done].
    + intros [|? [|? ?]] b y; try discriminate. by intros [= <- _].
  - apply char3_lead in Hcp as (H & Hb & Hc). split.
    + destruct (N.leb_spec 128 (code a')); [|done].
      destruct (N.leb_spec (code a') 191); [lia|done].
    + intros [|? [|? [|? ?]]] b y; try discriminate.
      * by intros [= <- _].
      * by intros [= _ <- _].
  - apply char4_lead in Hcp as (H & Hb & Hc & Hd). split.
    + destruct (N.leb_spec 128 (code a')); [|done].
      destruct (N.leb_spec (code a') 191); [lia|done].
    + intros [|? [|? [|? [|? ?]]]] b y; try discriminate.
      * by intros [= <- _].
      * by intros [= _ <- _].
      * by intros [= _ _ <- _].
Qed.

(** A character cannot straddle the start of a run. *)
Lemma no_straddle x r' w s' r :
  char Str.isspace w = true → x ≠ "" → r' ≠ "" →
  w = x +:+ r' → r = r' +:+ s' → ¬ Str.blank r.
Proof.
  intros Hw Hx Hr' Hwx -> Hrun.
  destruct x as [|a x]; [done|]. destruct r' as [|b r']; [done|].
  rewrite append_cons in Hwx.
  destruct (char_bytes w a (x +:+ String b r') Hw Hwx) as [_ Hcont].
  specialize (Hcont x b r' eq_refl).
  apply run_nonempty_starts in Hrun as (w' & t & Hw' & Ht); [|done].
  destruct w' as [|b' w']; [by apply char_nonempty in Hw'|].
  rewrite !append_cons in Ht. injection Ht as -> _.
  destruct (char_bytes (String b' w') b' w' Hw' eq_refl) as [Hlead _].
  congruence.
Qed.

(** White space before white space: what comes first is white space
    too. *)
Lemma blank_before x r : Str.blank (x +:+ r) → Str.blank r → Str.blank x.
Proof.
  intros H. remember (x +:+ r) as s eqn:Hs. revert x Hs.
  induction H as [|w s' Hw Hrun IH]; intros x Hs Hr.
  - symmetry in Hs. apply append_eq_empty in Hs as [-> _]. constructor.
  - symmetry in Hs.
    apply append_eq_append in Hs as [(x' & -> & ->)|(r' & Hne & -> & ->)].
    + constructor; [done|]. by apply IH.
    + destruct x as [|a x]; [constructor|]. exfalso.
      by apply (no_straddle (String a x) r' _ s' (r' +:+ s') Hw).
Qed.

Lemma blank_nonempty_ends s : Str.blank s → s ≠ "" → ends Str.isspace s.
Proof.
  induction 1 as [|w s Hw Hrun IH]; [done|]. intros _.
  destruct s as [|a s].
  - exists "", w. by rewrite append_empty_r.
  - destruct IH as (x & w' & Hw' & Hx); [done|].
    exists (w +:+ x), w'. split; [done|]. by rewrite Hx, append_assoc.
Qed.

Lemma ends_suffix x y : ends Str.isspace y → ends Str.isspace (x +:+ y).
Proof.
  intros (r & w & Hw & ->). exists (x +:+ r), w. by rewrite append_assoc.
Qed.

(** Trimmed text followed by white space: [rstrip] gives the text. *)
Lemma rstrip_trimmed t : ∀ r,
  ¬ ends Str.isspace t → Str.blank r → Str.rstrip (t +:+ r) = t.
Proof.
  induction t as [|c t IH]; intros r Ht Hr.
  - rewrite append_nil. destruct r as [|a r]; [done|].
    rewrite rstrip_cons. by rewrite (proj2 (lstrip_blank _) Hr).
  - rewrite append_cons, rstrip_cons, <- append_cons.
    destruct (Str.lstrip (String c t +:+ r)) eqn:Hl.
    + exfalso. apply lstrip_blank in Hl.
      apply Ht. apply blank_nonempty_ends; [|done].
      by apply (blank_before _ r).
    + rewrite IH; [done| |done].
      intros H. apply Ht. by apply (ends_suffix (String c "")).
Qed.

Lemma trims_unique s t : Str.trims s t → t = Str.strip s.
Proof.
  intros (l & r & -> & Hl & Hr & Hstart & Hend). unfold Str.strip, Str.lstrip.
  rewrite skip_run by done. fold (Str.lstrip (t +:+ r)).
  destruct t as [|a t].
  - rewrite append_nil. by rewrite (proj2 (lstrip_blank _) Hr).
  - unfold Str.lstrip. rewrite skip_stop; [by rewrite rstrip_trimmed|].
    intros (w & y & Hw & H).
    apply append_eq_append in H as [(x' & Ht & _)|(r' & Hne & Hwt & Hrr)].
    + apply Hstart. by exists w, x'.
    + by apply (no_straddle (String a t) r' w y r Hw).
Qed.

End StripFacts.
(** ** The archive extractor *)

Module ZipHandlerFacts.
Import ZipHandler.
Export StrFacts Utf8Facts StripFacts.

Section Names.

Variable decimal_beyond_ascii : N → bool.

Local Abbreviation digit := (Str.isdecimal decimal_beyond_ascii).
Local Abbreviation digits := (Utf8.run (Str.isdecimal decimal_beyond_ascii)).
Local Abbreviation skip_digits := (skip_digits decimal_beyond_ascii).
Local Abbreviation match_marker := (match_marker decimal_beyond_ascii).
Local Abbreviation re_match_group1 := (re_match_group1 decimal_beyond_ascii).
Local Abbreviation extract_student_name_from_moodle_folder :=
  (extract_student_name_from_moodle_folder decimal_beyond_ascii).
Local Abbreviation moodle_student_name :=
  (moodle_student_name decimal_beyond_ascii).
Local Abbreviation student_name_of := (student_name_of decimal_beyond_ascii).
Local Abbreviation visit := (visit decimal_beyond_ascii).
Local Abbreviation visit_all := (visit_all decimal_beyond_ascii).
Local Abbreviation entry_student := (entry_student decimal_beyond_ascii).
Local Abbreviation submitted := (submitted decimal_beyond_ascii).
Local Abbreviation moodle_shape := (moodle_shape decimal_beyond_ascii).
Local Abbreviation captures := (captures decimal_beyond_ascii).
Local Abbreviation names := (names decimal_beyond_ascii).
Local Abbreviation names_nobody := (names_nobody decimal_beyond_ascii).

(** *** The folder pattern *)

Lemma prefix_app p : ∀ s, String.prefix p s = true → ∃ r, s = p +:+ r.
Proof.
  induction p as [|a p IH]; intros s H.
  - exists s. done.
  - destruct s as [|b s]; simpl in H; [done|].
    destruct (ascii_dec a b) as [->|]; [|done].
    destruct (IH s H) as [r ->]. by exists r.
Qed.

Lemma app_prefix p : ∀ r, String.prefix p (p +:+ r) = true.
Proof.
  induction p as [|a p IH]; intros r; simpl.
  - by destruct r.
  - destruct (ascii_dec a a); [apply IH | done].
Qed.

(** The underscore is no digit. *)
Lemma underscore_stops r : ¬ Utf8.starts digit (String "_" r).
Proof.
  intros H. apply starts_ascii in H; [|by vm_compute]. by vm_compute in H.
Qed.

Lemma skip_digits_app ds r :
  digits ds → skip_digits (ds +:+ String "_" r) = String "_" r.
Proof.
  intros Hds. unfold ZipHandler.skip_digits. rewrite skip_run by done.
  apply skip_stop, underscore_stops.
Qed.

Lemma match_marker_sound s :
  match_marker s = true →
  ∃ ds rest,
    s = "_" +:+ ds +:+ "_assignsubmission_" +:+ rest ∧
    ds ≠ "" ∧ digits ds.
Proof.
  destruct s as [|u s]; [done|]. cbn [ZipHandler.match_marker].
  destruct u as [[] [] [] [] [] [] [] []]; try done.
  intros [Hne Hp]%andb_prop.
  destruct (skip_split digit s) as (ds & Hs & Hds).
  destruct (prefix_app _ _ Hp) as [rest Hrest].
  exists ds, rest. split; [|split; [|done]].
  - rewrite append_cons, append_nil. f_equal.
    rewrite Hs at 1. f_equal. exact Hrest.
  - intros ->. rewrite append_nil in Hs.
    apply negb_true_iff, String.eqb_neq in Hne. by apply Hne.
Qed.

Lemma match_marker_complete ds rest :
  ds ≠ "" → digits ds →
  match_marker ("_" +:+ ds +:+ "_assignsubmission_" +:+ rest) = true.
Proof.
  intros Hne Hds. rewrite append_cons, append_nil.
  cbn [ZipHandler.match_marker].
  change ("_assignsubmission_" +:+ rest)
    with (String "_" ("assignsubmission_" +:+ rest)).
  rewrite skip_digits_app by done. apply andb_true_intro. split.
  - apply negb_true_iff, String.eqb_neq. intros H.
    apply (f_equal String.length) in H. rewrite length_append in H.
    destruct ds; [done|]. cbn in H. lia.
  - apply (app_prefix "_assignsubmission_" rest).
Qed.

(** A match has the shape [<name>_<digits>_assignsubmission_...], with a
    non-empty name that holds no line feed. *)
Lemma re_match_group1_sound : ∀ s g,
  re_match_group1 s = Some g →
  ∃ ds rest, moodle_shape s g ds rest.
Proof.
  unfold ZipHandler.moodle_shape.
  induction s as [|c s IH]; intros g; simpl; [done|].
  destruct (Ascii.eqb c "010") eqn:Hc; [done|].
  destruct (match_marker s) eqn:Hm.
  - intros [= <-]. apply match_marker_sound in Hm as (ds & rest & -> & ? & ?).
    exists ds, rest. simpl. by rewrite Hc.
  - destruct (re_match_group1 s) as [g'|]; simpl; [|done].
    intros [= <-]. destruct (IH g' eq_refl) as (ds & rest & -> & ? & Hg & ? & ?).
    exists ds, rest. simpl. by rewrite Hc, Hg.
Qed.

(** Every string of that shape matches, and the lazy quantifier captures
    a prefix of any name that fits. *)
Lemma re_match_group1_complete : ∀ g ds rest,
  g ≠ "" → string_forall (λ c, negb (Ascii.eqb c "010")) g = true →
  ds ≠ "" → digits ds →
  ∃ g', re_match_group1 (g +:+ "_" +:+ ds +:+ "_assignsubmission_" +:+ rest)
          = Some g'
        ∧ String.prefix g' g = true.
Proof.
  induction g as [|c g IH]; intros ds rest Hg Hlf Hds Hdig; [done|].
  simpl in Hlf. apply andb_prop in Hlf as [Hc Hlf].
  apply negb_true_iff in Hc.
  change (String c g +:+ ?t) with (String c (g +:+ t)).
  cbn [ZipHandler.re_match_group1]. rewrite Hc.
  destruct (match_marker _) eqn:Hm.
  - exists (String c ""). split; [done|]. simpl.
    destruct (ascii_dec c c); [by destruct g | done].
  - destruct g as [|c' g].
    + rewrite append_nil in Hm.
      by rewrite (match_marker_complete ds rest) in Hm.
    + destruct (IH ds rest) as (g' & -> & Hp); [done..|].
      exists (String c g'). split; [done|]. simpl.
      by destruct (ascii_dec c c).
Qed.

(** The lazy quantifier stops at the first split that lets the rest of
    the pattern match: no shorter non-empty name is followed by the
    marker. *)
Lemma re_match_group1_shortest : ∀ s g,
  re_match_group1 s = Some g →
  ∀ g' t, s = g' +:+ t → g' ≠ "" → String.length g' < String.length g →
          match_marker t = false.
Proof.
  induction s as [|c s IH]; intros g; simpl; [done|].
  destruct (Ascii.eqb c "010"); [done|].
  destruct (match_marker s) eqn:Hm.
  - intros [= <-] [|c' g'] t _ Hne Hlen; [done|]. simpl in Hlen. lia.
  - destruct (re_match_group1 s) as [g0|] eqn:Hg0; simpl; [|done].
    intros [= <-] [|c' g'] t Hs Hne Hlen; [done|].
    rewrite append_cons in Hs. injection Hs as <- ->.
    destruct g' as [|c'' g'].
    + by rewrite append_nil in Hm.
    + apply (IH g0 eq_refl (String c'' g') t); [done..|].
      simpl in *. lia.
Qed.

(** The pattern captures the shortest name the folder can be read
    with; it fails when the folder cannot be read that way. *)
Lemma re_match_group1_captures s g :
  re_match_group1 s = Some g → captures s g.
Proof.
  intros Hg. split; [by apply re_match_group1_sound|].
  intros name' digits' rest' (-> & Hne & _ & Hd & Hds).
  destruct (Nat.le_gt_cases (String.length g) (String.length name'))
    as [|Hlt]; [done|]. exfalso.
  pose proof (re_match_group1_shortest _ g Hg name' _ eq_refl Hne Hlt) as Hm.
  by rewrite (match_marker_complete digits' rest') in Hm.
Qed.

Lemma re_match_group1_None s :
  re_match_group1 s = None → ∀ name, ¬ captures s name.
Proof.
  intros Hs name [(ds & rest & -> & Hne & Hlf & Hd & Hds) _].
  destruct (re_match_group1_complete name ds rest) as (g' & Hg' & _); [done..|].
  by rewrite Hs in Hg'.
Qed.

Lemma prefix_same_length a : ∀ b x y,
  a +:+ x = b +:+ y → String.length a = String.length b → a = b.
Proof.
  induction a as [|c a IH]; intros [|d b] x y H Hlen; try done.
  rewrite !append_cons in H. injection H as <- H.
  f_equal. apply (IH b x y); [done|]. cbn in Hlen. lia.
Qed.

Lemma captures_unique s a b : captures s a → captures s b → a = b.
Proof.
  intros [(da & ra & Ha) Hmin_a] [(db & rb & Hb) Hmin_b].
  pose proof (Hmin_a b db rb Hb). pose proof (Hmin_b a da ra Ha).
  destruct Ha as (Ha & _). destruct Hb as (Hb & _).
  eapply prefix_same_length; [by rewrite <- Ha, <- Hb|lia].
Qed.

(** A folder names at most one student, and a folder that names nobody
    names no student. *)
Lemma names_unique folder a b : names folder a → names folder b → a = b.
Proof.
  intros (na & Hca & Hta & _) (nb & Hcb & Htb & _).
  rewrite (captures_unique folder na nb Hca Hcb) in Hta.
  by rewrite (trims_unique _ _ Hta), (trims_unique _ _ Htb).
Qed.

Lemma names_somebody folder student :
  names folder student → ¬ names_nobody folder.
Proof.
  intros (name & Hc & Ht & Hne) Hno. apply Hne.
  rewrite (trims_unique _ _ Ht). apply strip_blank. by apply Hno.
Qed.

(** What [extract_student_name_from_moodle_folder] returns. *)
Lemma extract_student_name_spec folder :
  match extract_student_name_from_moodle_folder folder with
  | Some student =>
      ∃ name, captures folder name ∧ Str.trims name student ∧
              (student = "" → names_nobody folder)
  | None => ∀ name, ¬ captures folder name
  end.
Proof.
  unfold ZipHandler.extract_student_name_from_moodle_folder.
  destruct (re_match_group1 folder) as [g|] eqn:Hg.
  - exists g. split; [by apply re_match_group1_captures|].
    split; [apply strip_trims|]. intros Hs name Hc.
    rewrite (captures_unique folder name g Hc (re_match_group1_captures _ _ Hg)).
    by apply strip_blank.
  - by apply re_match_group1_None.
Qed.

(** *** The extraction loop *)

Lemma visit_skipped zf students e :
  skipped e = true → visit zf students e = Return students.
Proof.
  unfold skipped, ZipHandler.visit. intros H.
  destruct (is_dir e || Str.contains "__MACOSX" (filename e)); [done|].
  destruct (Str.startswith "." _); [done|].
  destruct (_ <? 2)%nat; [done|]. discriminate.
Qed.

Lemma setdefault_append {V} (m : gmap string (list V)) k x :
  alter (λ l, l ++ [x]) k
    match m !! k with None => <[k := []]> m | Some _ => m end
  = <[k := default [] (m !! k) ++ [x]]> m.
Proof.
  apply map_eq; intros j. destruct (decide (k = j)) as [<-|Hne].
  - rewrite lookup_insert_eq. destruct (m !! k) eqn:Hk.
    + by rewrite lookup_alter_eq, Hk.
    + by rewrite lookup_alter_eq, lookup_insert_eq.
  - rewrite lookup_insert_ne by done. rewrite lookup_alter_ne by done.
    destruct (m !! k); [done|]. by rewrite lookup_insert_ne.
Qed.

Lemma visit_kept zf students e :
  skipped e = false →
  visit zf students e =
    (content ← read zf (filename e);
     Return (<[entry_student e :=
                default [] (students !! entry_student e)
                ++ [(PurePosixPath.name (filename e), content)]]> students)).
Proof.
  unfold skipped, ZipHandler.visit, ZipHandler.entry_student. intros H.
  destruct (is_dir e || Str.contains "__MACOSX" (filename e)); [done|].
  destruct (Str.startswith "." _); [done|].
  destruct (_ <? 2)%nat; [done|].
  destruct (read zf (filename e)) as [c|ex]; simpl; [|done].
  by rewrite setdefault_append.
Qed.

(** Skipped entries contribute nothing to the loop. *)
Lemma visit_all_filter zf infos : ∀ students,
  visit_all zf students infos
  = visit_all zf students (filter (λ e, skipped e = false) infos).
Proof.
  induction infos as [|e infos IH]; intros students; [done|].
  rewrite filter_cons. destruct (decide (skipped e = false)) as [Hk|Hs].
  - simpl. destruct (visit zf students e); simpl; [apply IH | done].
  - apply not_false_is_true in Hs. simpl.
    rewrite visit_skipped by done. apply IH.
Qed.

(** When the members the loop keeps can be read, the loop succeeds and
    appends, for each student, that student's files in archive order. *)
Lemma visit_all_lookup zf content infos : ∀ students,
  (∀ e, e ∈ infos → skipped e = false →
        read zf (filename e) = Return (content (filename e))) →
  ∃ students',
    visit_all zf students infos = Return students' ∧
    ∀ student,
      students' !! student =
        match submitted content student infos with
        | [] => students !! student
        | files => Some (default [] (students !! student) ++ files)
        end.
Proof.
  induction infos as [|e infos IH]; intros students Hread.
  { exists students. split; [done|]. intros student. done. }
  assert (Hread' : ∀ e', e' ∈ infos → skipped e' = false →
            read zf (filename e') = Return (content (filename e'))).
  { intros e' He'. apply Hread. by right. }
  destruct (skipped e) eqn:Hs.
  - destruct (IH students Hread') as (students' & Hrun & Hlook).
    exists students'. split.
    + simpl. by rewrite visit_skipped.
    + intros student. rewrite Hlook. unfold ZipHandler.submitted.
      rewrite filter_cons_False; [done|]. intros [? _]; congruence.
  - specialize (Hread e (list_elem_of_here _ _) Hs) as Hc.
    set (students1 := <[entry_student e :=
           default [] (students !! entry_student e)
           ++ [entry_file content e]]> students).
    destruct (IH students1 Hread') as (students' & Hrun & Hlook).
    exists students'. split.
    + simpl. rewrite visit_kept by done. rewrite Hc. simpl. exact Hrun.
    + intros student. rewrite Hlook. unfold ZipHandler.submitted, students1.
      destruct (decide (entry_student e = student)) as [<-|Hne].
      * rewrite filter_cons_True by done. rewrite fmap_cons.
        rewrite lookup_insert_eq. simpl.
        destruct (entry_file content <$> filter _ infos); simpl.
        -- done.
        -- by rewrite <- app_assoc.
      * rewrite filter_cons_False by (intros [_ ?]; done).
        by rewrite lookup_insert_ne.
Qed.

(** A loop that returns has read every member it kept. *)
Lemma visit_all_readable zf infos : ∀ students students',
  visit_all zf students infos = Return students' →
  ∀ e, e ∈ infos → skipped e = false →
    read zf (filename e) = Return (content_of zf (filename e)).
Proof.
  induction infos as [|e0 infos IH]; intros students students' Hrun e He Hk.
  { by apply elem_of_nil in He. }
  simpl in Hrun. destruct (visit zf students e0) as [students1|] eqn:Hv; [|done].
  simpl in Hrun. apply elem_of_cons in He as [->|He]; [|by eapply IH].
  rewrite visit_kept in Hv by done. unfold content_of.
  by destruct (read zf (filename e0)).
Qed.

Lemma visit_all_returns zf infos students :
  (∀ e, e ∈ infos → skipped e = false → readable zf e) →
  ∃ students', visit_all zf students infos = Return students'.
Proof.
  intros Hread.
  destruct (visit_all_lookup zf (content_of zf) infos students)
    as (students' & Hrun & _); [|by exists students'].
  intros e He Hk. destruct (Hread e He Hk) as [c Hc].
  unfold content_of. by rewrite Hc.
Qed.

Lemma visit_all_submitted zf students :
  visit_all zf ∅ (infolist zf) = Return students →
  ∀ student,
    students !! student =
      match submitted (content_of zf) student (infolist zf) with
      | [] => None
      | files => Some files
      end.
Proof.
  intros Hrun student.
  destruct (visit_all_lookup zf (content_of zf) (infolist zf) ∅)
    as (students' & Hrun' & Hlook).
  { by eapply visit_all_readable. }
  rewrite Hrun in Hrun'. injection Hrun' as <-.
  rewrite Hlook, lookup_empty. by destruct (submitted _ _ _).
Qed.

(** *** The derived student name *)

Lemma truthy_false s : Str.truthy s = false ↔ s = "".
Proof. by destruct s. Qed.

Lemma moodle_student_name_spec folders :
  (∃ i folder student,
      folders !! i = Some folder ∧ names folder student ∧
      (∀ j folder', j < i → folders !! j = Some folder' → names_nobody folder') ∧
      moodle_student_name folders = Some student)
  ∨ ((∀ folder, folder ∈ folders → names_nobody folder) ∧
     moodle_student_name folders = None).
Proof.
  induction folders as [|part rest IH]; cbn [ZipHandler.moodle_student_name].
  { right. split; [|done]. intros folder H. by apply elem_of_nil in H. }
  assert (Hskip : names_nobody part →
    (∃ i folder student,
        (part :: rest) !! i = Some folder ∧ names folder student ∧
        (∀ j folder', j < i → (part :: rest) !! j = Some folder' →
                      names_nobody folder') ∧
        moodle_student_name rest = Some student)
    ∨ ((∀ folder, folder ∈ part :: rest → names_nobody folder) ∧
       moodle_student_name rest = None)).
  { intros Hpart.
    destruct IH as [(i & folder & student & Hi & Hn & Hbefore & Hres)|[Hall Hres]].
    - left. exists (S i), folder, student.
      split; [done|]. split; [done|]. split; [|done].
      intros [|j] folder' Hj Hlook; simpl in Hlook.
      + by injection Hlook as <-.
      + eapply Hbefore; [|done]. lia.
    - right. split; [|done].
      intros folder [->|H]%elem_of_cons; [done|by apply Hall]. }
  pose proof (extract_student_name_spec part) as Hspec.
  destruct (extract_student_name_from_moodle_folder part) as [student|].
  - destruct Hspec as (name & Hc & Ht & Hblank).
    destruct (Str.truthy student) eqn:Htr.
    + left. exists 0, part, student. split; [done|]. split; [|split; [|done]].
      * exists name. split; [done|]. split; [done|]. by intros ->.
      * intros j folder' Hj. lia.
    + apply truthy_false in Htr. by apply Hskip, Hblank.
  - apply Hskip. intros name Hc. by apply Hspec in Hc.
Qed.

Lemma kept_two_parts e :
  skipped e = false → 2 ≤ length (PurePosixPath.parts (filename e)).
Proof.
  unfold skipped. intros H.
  repeat (apply orb_false_elim in H as [H ?]).
  by apply Nat.ltb_ge.
Qed.

End Names.
(** *** Student name derivation *)

(** The components of a name that does not start with a slash are its
    segments. *)
Lemma relative_parts e :
  relative e → PurePosixPath.parts (filename e) = segments (filename e).
Proof.
  unfold relative, PurePosixPath.parts, PurePosixPath.tail, segments.
  destruct (filename e) as [|c s]; [done|].
  intros Hc.
  assert (Hroot : PurePosixPath.splitroot (String c s) = ("", String c s)).
  { destruct c as [[] [] [] [] [] [] [] []]; try done.
    by destruct s. }
  by rewrite Hroot.
Qed.

Lemma derived_unique decimal_beyond_ascii parts a b :
  derived decimal_beyond_ascii parts a → derived decimal_beyond_ascii parts b →
  a = b.
Proof.
  intros [(i & fa & Hi & Hna & Hbefore_a)|[Hall_a Ha]]
         [(j & fb & Hj & Hnb & Hbefore_b)|[Hall_b Hb]].
  - destruct (Nat.lt_trichotomy i j) as [Hlt|[->|Hlt]].
    + exfalso. by apply (names_somebody _ _ _ Hna), (Hbefore_b i).
    + rewrite Hi in Hj. injection Hj as <-. by eapply names_unique.
    + exfalso. by apply (names_somebody _ _ _ Hnb), (Hbefore_a j).
  - exfalso. apply (names_somebody _ _ _ Hna), Hall_b.
    by eapply list_elem_of_lookup_2.
  - exfalso. apply (names_somebody _ _ _ Hnb), Hall_a.
    by eapply list_elem_of_lookup_2.
  - rewrite Ha in Hb. by injection Hb.
Qed.

Lemma student_name_of_derived decimal_beyond_ascii parts :
  parts ≠ [] →
  derived decimal_beyond_ascii parts (student_name_of decimal_beyond_ascii parts).
Proof.
  intros Hne. unfold derived, student_name_of.
  destruct (moodle_student_name_spec decimal_beyond_ascii (removelast parts))
    as [(i & folder & student & Hi & Hn & Hbefore & ->)|[Hall ->]].
  - left. by exists i, folder.
  - right. split; [done|]. by destruct parts.
Qed.

(** The pattern on samples: a number is asked for, letters are no
    digits, and the digits beyond ASCII are those of the table. *)
Lemma folder_pattern_samples :
  extract_student_name_from_moodle_folder arabic_indic
    "Jane Doe_998877_assignsubmission_file" = Some "Jane Doe" ∧
  extract_student_name_from_moodle_folder arabic_indic
    "Jane Doe__assignsubmission_file" = None ∧
  extract_student_name_from_moodle_folder arabic_indic
    "Jane Doe_12a_assignsubmission_file" = None ∧
  extract_student_name_from_moodle_folder arabic_indic
    "Jane Doe_٣٤_assignsubmission_file" = Some "Jane Doe" ∧
  extract_student_name_from_moodle_folder (λ _, false)
    "Jane Doe_٣٤_assignsubmission_file" = None ∧
  extract_student_name_from_moodle_folder arabic_indic
    "a_1_b_22_assignsubmission_file" = Some "a_1_b" ∧
  extract_student_name_from_moodle_folder arabic_indic
    ("Jane" +:+ nbsp +:+ "_1_assignsubmission_file") = Some "Jane".
Proof. repeat split; by vm_compute. Qed.




(** *** Ignored entries *)

Lemma split_no_separator c s :
  string_forall (λ a, negb (Ascii.eqb a c)) s = true → Str.split c s = [s].
Proof.
  induction s as [|a s IH]; [done|]. cbn [string_forall Str.split].
  intros [Ha Hs]%andb_prop. apply negb_true_iff in Ha.
  by rewrite Ha, (IH Hs).
Qed.

Lemma endswith_char_none c s :
  string_forall (λ a, negb (Ascii.eqb a c)) s = true →
  Str.endswith_char c s = false.
Proof.
  induction s as [|a s IH]; [done|]. cbn [string_forall].
  intros [Ha Hs]%andb_prop. apply negb_true_iff in Ha.
  destruct s as [|b s]; [done|]. by apply IH.
Qed.

(** C6.  A file at the root of the archive is not ignored when its name
    starts with a slash: the root counts as a first path component, so
    that the entry has two components, passes the test on their number
    and is filed under a student named "/". *)
Theorem root_level_file_is_filed decimal_beyond_ascii zf students leaf content :
  leaf ≠ "" → leaf ≠ "." →
  string_forall (λ a, negb (Ascii.eqb a "/")) leaf = true →
  Str.startswith "." leaf = false →
  Str.contains "__MACOSX" leaf = false →
  read zf ("/" +:+ leaf) = Return content →
  let file_info := {| filename := "/" +:+ leaf |} in
  segments (filename file_info) = [leaf] ∧
  skipped file_info = false ∧
  visit decimal_beyond_ascii zf students file_info
  = Return (<["/" := default [] (students !! "/") ++ [(leaf, content)]]> students).
Proof.
  intros Hne Hdot Hfree Hhidden Hmac Hread file_info.
  assert (Hsplit : Str.split "/" leaf = [leaf]) by by apply split_no_separator.
  assert (Hfilter : filter (λ x : string, x ≠ "" ∧ x ≠ ".") [leaf] = [leaf]).
  { by rewrite filter_cons_True, filter_nil. }
  assert (Hroot : PurePosixPath.splitroot ("/" +:+ leaf) = ("/", leaf)).
  { rewrite append_cons, append_nil. destruct leaf as [|a leaf]; [done|].
    cbn [string_forall] in Hfree. apply andb_prop in Hfree as [Ha _].
    cbn [PurePosixPath.splitroot].
    destruct a as [[] [] [] [] [] [] [] []]; try done. }
  assert (Htail : PurePosixPath.tail ("/" +:+ leaf) = [leaf]).
  { unfold PurePosixPath.tail. rewrite Hroot. cbn [snd]. by rewrite Hsplit. }
  assert (Hparts : PurePosixPath.parts ("/" +:+ leaf) = ["/"; leaf]).
  { unfold PurePosixPath.parts. by rewrite Hroot, Htail. }
  assert (Hname : PurePosixPath.name ("/" +:+ leaf) = leaf).
  { unfold PurePosixPath.name. by rewrite Htail. }
  assert (Hkept : skipped file_info = false).
  { unfold skipped, is_dir, file_info. cbn [filename].
    rewrite Hname, Hparts, Hhidden.
    rewrite append_cons, append_nil.
    assert (Hend : Str.endswith_char "/" (String "/" leaf) = false).
    { destruct leaf as [|a leaf]; [done|].
      by apply (endswith_char_none "/" (String a leaf)). }
    rewrite Hend. cbn [Str.contains String.prefix]. by rewrite Hmac. }
  split; [|split; [done|]].
  - unfold segments, file_info. cbn [filename].
    rewrite append_cons, append_nil.
    change (Str.split "/" (String "/" leaf)) with ("" :: Str.split "/" leaf).
    rewrite Hsplit. by rewrite filter_cons_False, Hfilter by (intros [? _]; done).
  - rewrite visit_kept by done. unfold entry_student. subst file_info.
    cbn [filename]. rewrite Hread. cbn [mbind result_bind].
    by rewrite Hparts, Hname.
Qed.

(** Witness for C6: the archive holds [/readme.txt] and
    [Alice/report.pdf], and extraction returns two students, the first
    of them named "/". *)
Lemma root_level_file_is_filed_witness :
  visit arabic_indic rooted_archive ∅ {| filename := "/readme.txt" |}
  = Return {[ "/" := [("readme.txt", [x04])] ]} ∧
  extract_student_submissions arabic_indic (opens_as rooted_archive) [x50; x4b]
  = Return {[ "/" := [("readme.txt", [x04])];
              "Alice" := [("report.pdf", [x01])] ]}.
Proof.
  destruct (root_level_file_is_filed arabic_indic rooted_archive ∅
              "readme.txt" [x04]) as (_ & _ & Hvisit);
    [done|done|reflexivity|reflexivity|reflexivity|reflexivity|].
  split; [|by vm_compute].
  refine (eq_trans Hvisit _). by vm_compute.
Defined.

(** Directory entries, entries whose path contains [__MACOSX], entries
    whose leaf name starts with a dot and entries with fewer than two
    path components never reach a file list: extraction gives the same
    result as on the archive without them, and every file of a returned
    list comes from an entry that is none of these. *)
Lemma skipped_entries_not_filed decimal_beyond_ascii :
  (∀ open_zip zip_content,
     extract_student_submissions decimal_beyond_ascii open_zip zip_content
     = (zf ← open_zip zip_content;
        visit_all decimal_beyond_ascii zf ∅
          (filter (λ e, skipped e = false) (infolist zf)))) ∧
  (∀ open_zip zip_content zf students student files f,
     open_zip zip_content = Return zf →
     extract_student_submissions decimal_beyond_ascii open_zip zip_content
     = Return students →
     students !! student = Some files → f ∈ files →
     ∃ e, e ∈ infolist zf ∧ skipped e = false ∧
          entry_student decimal_beyond_ascii e = student ∧
          f = entry_file (content_of zf) e).
Proof.
  split.
  - intros open_zip zip_content. unfold extract_student_submissions.
    destruct (open_zip zip_content) as [zf|]; simpl; [|done].
    apply visit_all_filter.
  - intros open_zip zip_content zf students student files f Hopen Hext Hlook Hf.
    unfold extract_student_submissions in Hext. rewrite Hopen in Hext.
    simpl in Hext.
    rewrite (visit_all_submitted decimal_beyond_ascii zf students Hext) in Hlook.
    assert (Hin : f ∈ submitted decimal_beyond_ascii (content_of zf) student
                        (infolist zf)).
    { destruct (submitted _ _ _ _); [done|]. by injection Hlook as ->. }
    unfold submitted in Hin. apply list_elem_of_fmap in Hin as (e & -> & He).
    apply list_elem_of_filter in He as [[Hk Hs] He]. by exists e.
Qed.

(** *** Accumulation *)

(** C9.  Extraction of an archive whose kept members can be read
    returns, and in any returned dictionary the list under a student
    holds exactly the files of the kept entries that derive to that
    name, in archive order, whatever folders they come from; a student
    with no such entry is absent.  Each kept entry appends its file at
    the end of the list already under its student, so nothing stored
    earlier is replaced. *)
Theorem files_accumulate decimal_beyond_ascii open_zip zip_content zf :
  open_zip zip_content = Return zf →
  ((∀ e, e ∈ infolist zf → skipped e = false → readable zf e) →
   ∃ students,
     extract_student_submissions decimal_beyond_ascii open_zip zip_content
     = Return students) ∧
  (∀ students,
     extract_student_submissions decimal_beyond_ascii open_zip zip_content
     = Return students →
     ∀ student,
       students !! student =
         match submitted decimal_beyond_ascii (content_of zf) student
                 (infolist zf) with
         | [] => None
         | files => Some files
         end) ∧
  (∀ students e content,
     skipped e = false → read zf (filename e) = Return content →
     visit decimal_beyond_ascii zf students e =
       Return (<[entry_student decimal_beyond_ascii e :=
                  default [] (students !! entry_student decimal_beyond_ascii e)
                  ++ [(PurePosixPath.name (filename e), content)]]> students)).
Proof.
  intros Hopen. unfold extract_student_submissions. rewrite Hopen. simpl.
  split; [|split].
  - apply visit_all_returns.
  - apply visit_all_submitted.
  - intros students e content Hk Hread. rewrite visit_kept by done.
    by rewrite Hread.
Qed.

(** Witness for C9: two raw folders of the same student are merged, the
    files in archive order. *)
Lemma files_accumulate_witness :
  ∃ students,
    extract_student_submissions arabic_indic (opens_as moodle_archive)
      [x50; x4b] = Return students ∧
    students !! "Jane Doe"
      = Some [("essay.docx", [x01]); ("text.html", [x02])] ∧
    students !! "Assignment1" = None.
Proof.
  destruct (files_accumulate arabic_indic (opens_as moodle_archive) [x50; x4b]
              moodle_archive eq_refl) as (Hret & Hlook & _).
  destruct Hret as [students Hext].
  { intros e He _. unfold readable.
    repeat (apply elem_of_cons in He as [->|He]); [..|by apply elem_of_nil in He];
      eexists; by vm_compute. }
  exists students. split; [done|].
  rewrite !(Hlook students Hext). by vm_compute.
Defined.

(** *** Document dispatch *)

Section ParseDocumentFacts.

Variables parse_pdf parse_docx parse_excel parse_html : bytes → result string.
Variable decode_utf8_replace : bytes → string.

Local Abbreviation parse_document :=
  (parse_document parse_pdf parse_docx parse_excel parse_html
                  decode_utf8_replace).

(** C10.  [parse_document] gives an answer for every file name.  It
    looks at the lower-cased extension only, so REPORT.PDF goes to the
    PDF parser and essay.TXT is decoded; an extension outside the
    supported set gives [None] without raising; for txt and md the
    answer is the lossy UTF-8 decoding of the bytes, which cannot
    fail; and when the function raises, the exception comes from one
    of the four format parsers. *)
Theorem parse_document_total filename content :
  let ext := Str.lower (PurePosixPath.suffix filename) in
  (ext ∉ get_supported_extensions →
     parse_document filename content = Return None) ∧
  (ext ∈ [".txt"; ".md"] →
     parse_document filename content
     = Return (Some (decode_utf8_replace content))) ∧
  (∀ e, parse_document filename content = Raise e →
     ext ∈ [".pdf"; ".docx"; ".xlsx"; ".xls"; ".html"; ".htm"]) ∧
  (∀ other, Str.lower (PurePosixPath.suffix other) = ext →
     parse_document other content = parse_document filename content) ∧
  parse_document "REPORT.PDF" content = Some <$> parse_pdf content ∧
  parse_document "essay.TXT" content
  = Return (Some (decode_utf8_replace content)).
Proof.
  intros ext. unfold ZipHandler.parse_document. fold ext.
  split; [|split; [|split; [|split; [|split]]]].
  - unfold get_supported_extensions. intros Hext.
    repeat case_decide; try done; exfalso; apply Hext;
      repeat match goal with
             | H : _ ∈ _ :: _ |- _ => apply elem_of_cons in H as [H|H]
             | H : _ ∈ [] |- _ => by apply elem_of_nil in H
             end;
      match goal with H : ext = _ |- _ => rewrite H end;
      rewrite !elem_of_union, !elem_of_singleton; tauto.
  - intros Hext.
    apply elem_of_cons in Hext as [Hext|Hext];
      [|apply elem_of_cons in Hext as [Hext|Hext];
        [|by apply elem_of_nil in Hext]];
      rewrite Hext; done.
  - intros e. repeat case_decide; try done; intros _;
      repeat match goal with
             | H : _ ∈ _ :: _ |- _ => apply elem_of_cons in H as [H|H]
             | H : _ ∈ [] |- _ => by apply elem_of_nil in H
             end;
      match goal with H : ext = _ |- _ => rewrite H end;
      repeat first [apply list_elem_of_here | apply list_elem_of_further].
  - by intros other ->.
  - done.
  - done.
Qed.

End ParseDocumentFacts.

(** Witness for C10: an unsupported extension, an upper-case supported
    one, and a text file, with format parsers that all raise. *)
Lemma parse_document_total_witness :
  let broken := λ _ : bytes, Raise (Exc "ValueError" "malformed") in
  let decode := λ _ : bytes, "text" in
  parse_document broken broken broken broken decode "work/essay.odt" [x00]
    = Return None ∧
  parse_document broken broken broken broken decode "work/NOTES.MD" [x00]
    = Return (Some "text") ∧
  Str.lower (PurePosixPath.suffix "work/REPORT.PDF")
    ∈ [".pdf"; ".docx"; ".xlsx"; ".xls"; ".html"; ".htm"] ∧
  parse_document broken broken broken broken decode "work/notes.md" [x00]
    = parse_document broken broken broken broken decode "work/NOTES.MD" [x00].
Proof.
  intros broken decode.
  destruct (parse_document_total broken broken broken broken decode
              "work/essay.odt" [x00]) as (Hnone & _).
  destruct (parse_document_total broken broken broken broken decode
              "work/NOTES.MD" [x00]) as (_ & Htext & _ & Hsame & _).
  destruct (parse_document_total broken broken broken broken decode
              "work/REPORT.PDF" [x00]) as (_ & _ & Hraise & _).
  split; [|split; [|split]].
  - apply Hnone. by vm_compute.
  - apply Htext. vm_compute. apply list_elem_of_further, list_elem_of_here.
  - apply (Hraise (Exc "ValueError" "malformed")). reflexivity.
  - apply Hsame. reflexivity.
Defined.

End ZipHandlerFacts.

(** ** The orchestrator *)

Module OrchestratorFacts.
Import LlmEvaluator.

(** *** Lists updated in place *)

Lemma sum_list_insert {A} (f : A → nat) (l : list A) : ∀ i x y,
  l !! i = Some x →
  sum_list (f <$> <[i := y]> l) + f x = sum_list (f <$> l) + f y.
Proof.
  induction l as [|a l IH]; intros [|i] x y Hi; csimpl in *; try done.
  - injection Hi as ->. lia.
  - specialize (IH i x y Hi). lia.
Qed.

Lemma length_filter_sum {A} (p : A → bool) (l : list A) :
  length (filter (λ t, p t) l)
  = sum_list ((λ t, if p t then 1 else 0) <$> l).
Proof.
  induction l as [|a l IH]; [done|].
  rewrite filter_cons. csimpl. destruct (p a); simpl; by rewrite IH.
Qed.

Lemma in_flight_insert {Out} (l : list (Task Out)) i x y :
  l !! i = Some x →
  length (filter (λ t, is_calling t) (<[i := y]> l))
    + (if is_calling x then 1 else 0)
  = length (filter (λ t, is_calling t) l) + (if is_calling y then 1 else 0).
Proof.
  intros Hi. rewrite !length_filter_sum.
  by apply (sum_list_insert (λ t, if is_calling t then 1 else 0)).
Qed.

Lemma in_flight_zero {Out} (l : list (Task Out)) i req :
  length (filter (λ t, is_calling t) l) = 0 → l !! i = Some (Calling req) → False.
Proof.
  intros Hz Hi. apply length_zero_iff_nil in Hz.
  assert (Hin : Calling req ∈ filter (λ t, is_calling t) l).
  { apply list_elem_of_filter. split; [done|]. by eapply list_elem_of_lookup_2. }
  rewrite Hz in Hin. by apply elem_of_nil in Hin.
Qed.

Lemma run_snoc {Out} (o : Orchestrator Out) events ev :
  run o (events ++ [ev]) = run o events ≫= next o ev.
Proof. unfold run. by rewrite foldl_app. Qed.

Lemma resumed_snoc_enter events i :
  resumed (events ++ [Enter i]) = resumed events.
Proof. unfold resumed. rewrite omap_app. simpl. by rewrite app_nil_r. Qed.

Lemma resumed_snoc_resume events i :
  resumed (events ++ [Resume i]) = resumed events ++ [i].
Proof. unfold resumed. by rewrite omap_app. Qed.

(** *** The result of [gather] *)

Lemma gather_not_failed {Out} (st : State Out) :
  failure st = None →
  gather st = Return <$> mapM (λ t, match t with
                                    | Returned outcome => Some outcome
                                    | _ => None
                                    end) (tasks st).
Proof. unfold gather. by intros ->. Qed.

(** [gather] has no result only while nothing has escaped and some task
    has not returned. *)
Lemma gather_None {Out} (st : State Out) :
  gather st = None →
  failure st = None ∧
  ∃ i t, tasks st !! i = Some t ∧ ∀ outcome, t ≠ Returned outcome.
Proof.
  unfold gather. destruct (failure st); [done|]. intros Hg. split; [done|].
  destruct (mapM _ (tasks st)) as [l|] eqn:Hm; [done|].
  apply mapM_None in Hm. apply Exists_exists in Hm as (t & Hin & Ht).
  apply list_elem_of_lookup in Hin as [i Hi]. exists i, t. split; [done|].
  intros outcome ->. done.
Qed.

(** *** Invariants of a run *)

Lemma initial_counts {Out} (items : list (string * string)) :
  length (filter (λ t : Task Out, is_calling t) ((λ _, Waiting) <$> items)) = 0 ∧
  sum_list (moves_left <$> ((λ _, Waiting : Task Out) <$> items))
  = 2 * length items.
Proof.
  induction items as [|item items [IH1 IH2]]; [done|].
  csimpl. rewrite filter_cons_False by (simpl; tauto).
  split; [done|]. lia.
Qed.

Section Machine.

Context {Res Out : Type}.
Variable request_of : string → string → ChatRequest.
Variable resume : string → result string → result Res.
Variable on_success : string → Res → Out.
Variable on_failure : string → Exception → Out.
Variable student_submissions : list (string * string).
Variable max_concurrent : nat.
Variable progress_callback : option Callback.
Variable api : nat → result string.

Local Abbreviation machine :=
  {| start := initial student_submissions max_concurrent;
     next := step request_of resume on_success on_failure
               student_submissions progress_callback api |}.

Local Abbreviation step' :=
  (step request_of resume on_success on_failure
        student_submissions progress_callback api).

Local Abbreviation N := (length student_submissions).

Local Abbreviation expected :=
  (imap (λ i item, capture on_success on_failure item.1 (resume item.1 (api i)))
        student_submissions).

(** The two shapes of a move. *)
Lemma step_inv ev (st st' : State Out) :
  step' ev st = Some st' →
  ((∃ i student_name student_work permits,
      ev = Enter i ∧ tasks st !! i = Some Waiting ∧
      student_submissions !! i = Some (student_name, student_work) ∧
      semaphore st = S permits ∧
      st' = {| semaphore := permits;
               progress := progress st;
               tasks := <[i := Calling (request_of student_name student_work)]>
                          (tasks st);
               failure := failure st |})
   ∨ (∃ i request student_name student_work r p,
      ev = Resume i ∧ tasks st !! i = Some (Calling request) ∧
      student_submissions !! i = Some (student_name, student_work) ∧
      evaluate_with_semaphore on_success on_failure student_submissions
        progress_callback student_name (resume student_name (api i))
        (progress st) = (r, p) ∧
      st' = {| semaphore := S (semaphore st);
               progress := p;
               tasks := <[i := match r with
                               | Return outcome => Returned outcome
                               | Raise e => Escaped e
                               end]> (tasks st);
               failure := match failure st, r with
                          | None, Raise e => Some e
                          | first, _ => first
                          end |})).
Proof.
  unfold step. intros H.
  destruct ev as [i|i].
  - left. destruct (tasks st !! i) as [[| | |]|] eqn:Ht; try done.
    destruct (student_submissions !! i) as [[student_name student_work]|] eqn:Hs;
      [|done].
    destruct (semaphore st) as [|permits] eqn:Hp; [done|].
    injection H as <-. by exists i, student_name, student_work, permits.
  - right. destruct (tasks st !! i) as [[|request| |]|] eqn:Ht; try done.
    destruct (student_submissions !! i) as [[student_name student_work]|] eqn:Hs;
      [|done].
    destruct (evaluate_with_semaphore _ _ _ _ _ _ _) as [r p] eqn:He.
    injection H as <-. by exists i, request, student_name, student_work, r, p.
Qed.

(** While [gather] has raised nothing, no exception has escaped a
    task. *)
Lemma run_no_escape events (st : State Out) :
  run machine events = Some st → failure st = None →
  ∀ i t, tasks st !! i = Some t → is_escaped t = false.
Proof.
  revert st. induction events as [|ev events IH] using rev_ind; intros st.
  - intros [= <-] _ i t. unfold initial. simpl.
    rewrite list_lookup_fmap.
    destruct (student_submissions !! i); simpl; [|done]. by intros [= <-].
  - rewrite run_snoc. destruct (run machine events) as [st0|]; [|done].
    simpl. intros Hstep. specialize (IH st0 eq_refl).
    apply step_inv in Hstep as
      [(i & name & work & permits & -> & Ht & Hs & Hp & ->)
      |(i & request & name & work & r & p & -> & Ht & Hs & He & ->)]; simpl.
    + intros Hf j t Hj.
      apply list_lookup_insert_Some in Hj as [(-> & <- & _)|[_ Hj]]; [done|].
      by eapply IH.
    + intros Hf j t Hj. destruct (failure st0) eqn:Hf0; [done|].
      destruct r; [|done].
      apply list_lookup_insert_Some in Hj as [(-> & <- & _)|[_ Hj]]; [done|].
      by eapply IH.
Qed.

(** Whatever the callback and the API do: one task per student, the
    permits out plus the permits left make [max_concurrent], and every
    move uses up one of the two moves of some task. *)
Lemma run_invariant events (st : State Out) :
  run machine events = Some st →
  length (tasks st) = N ∧
  semaphore st + in_flight st = max_concurrent ∧
  length events + remaining st = 2 * N.
Proof.
  revert st. induction events as [|ev events IH] using rev_ind; intros st.
  - intros [= <-]. unfold in_flight, remaining, initial. simpl.
    rewrite length_fmap. split; [done|].
    destruct (initial_counts (Out := Out) student_submissions) as [-> ->]. lia.
  - rewrite run_snoc. destruct (run machine events) as [st0|]; [|done].
    simpl. intros Hstep.
    destruct (IH st0 eq_refl) as (Hlen & Hsem & Hmoves).
    apply step_inv in Hstep. rewrite length_app. simpl.
    unfold in_flight, remaining in *.
    destruct Hstep as
      [(i & name & work & permits & -> & Ht & Hs & Hp & ->)
      |(i & request & name & work & r & p & -> & Ht & Hs & He & ->)]; simpl.
    + rewrite length_insert. split; [done|].
      pose proof (in_flight_insert (tasks st0) i _
                    (Calling (request_of name work)) Ht) as Hin.
      pose proof (sum_list_insert moves_left (tasks st0) i _
                    (Calling (request_of name work)) Ht) as Hmv.
      simpl in Hin, Hmv. lia.
    + rewrite length_insert. split; [done|].
      pose proof (in_flight_insert (tasks st0) i _
                    (match r with
                     | Return outcome => Returned outcome
                     | Raise e => Escaped e
                     end) Ht) as Hin.
      pose proof (sum_list_insert moves_left (tasks st0) i _
                    (match r with
                     | Return outcome => Returned outcome
                     | Raise e => Escaped e
                     end) Ht) as Hmv.
      destruct r; simpl in Hin, Hmv; lia.
Qed.

(** With a positive limit a run never gets stuck before [gather] has
    its result. *)
Lemma run_progress events (st : State Out) :
  0 < max_concurrent →
  run machine events = Some st → gather st = None →
  ∃ ev st', step' ev st = Some st'.
Proof.
  intros Hmax Hrun Hg.
  destruct (run_invariant events st Hrun) as (Hlen & Hsem & _).
  apply gather_None in Hg as (Hf & i & t & Ht & Hnot).
  pose proof (run_no_escape events st Hrun Hf i t Ht) as Hesc.
  assert (Hitem : ∀ j t', tasks st !! j = Some t' →
            ∃ name work, student_submissions !! j = Some (name, work)).
  { intros j t' Hj. apply lookup_lt_Some in Hj. rewrite Hlen in Hj.
    destruct (lookup_lt_is_Some_2 student_submissions j Hj) as [[name work] H].
    by exists name, work. }
  destruct (decide (in_flight st = 0)) as [Hz|Hnz].
  - destruct t as [|request|outcome|]; try done.
    + destruct (Hitem i _ Ht) as (name & work & Hs).
      exists (Enter i). unfold step. rewrite Ht, Hs.
      destruct (semaphore st) as [|permits]; [lia|]. eauto.
    + exfalso. by eapply in_flight_zero.
    + by destruct (Hnot outcome).
  - unfold in_flight in Hnz.
    destruct (filter (λ t, is_calling t) (tasks st)) as [|t' l] eqn:Hfl; [done|].
    assert (Hin : t' ∈ filter (λ t, is_calling t) (tasks st))
      by (rewrite Hfl; by left).
    apply list_elem_of_filter in Hin as [Hc Hin].
    apply list_elem_of_lookup in Hin as [j Hj].
    destruct t' as [|request| |]; try done.
    destruct (Hitem j _ Hj) as (name & work & Hs).
    exists (Resume j). unfold step. rewrite Hj, Hs.
    destruct (evaluate_with_semaphore _ _ _ _ _ _ _). eauto.
Qed.

(** Every run can be carried on until [gather] has its result. *)
Lemma run_completes : ∀ n events (st : State Out),
  0 < max_concurrent →
  run machine events = Some st → remaining st ≤ n →
  ∃ events' st', run machine (events ++ events') = Some st' ∧
                 gather st' ≠ None.
Proof.
  induction n as [|n IH]; intros events st Hmax Hrun Hn.
  - destruct (gather st) eqn:Hg.
    + exists [], st. rewrite app_nil_r. split; [done|]. by rewrite Hg.
    + destruct (run_progress events st Hmax Hrun Hg) as (ev & st' & Hstep).
      assert (Hrun' : run machine (events ++ [ev]) = Some st')
        by (rewrite run_snoc, Hrun; done).
      pose proof (run_invariant _ _ Hrun) as (_ & _ & H1).
      pose proof (run_invariant _ _ Hrun') as (_ & _ & H2).
      rewrite length_app in H2. simpl in H2. lia.
  - destruct (gather st) eqn:Hg.
    + exists [], st. rewrite app_nil_r. split; [done|]. by rewrite Hg.
    + destruct (run_progress events st Hmax Hrun Hg) as (ev & st' & Hstep).
      assert (Hrun' : run machine (events ++ [ev]) = Some st')
        by (rewrite run_snoc, Hrun; done).
      pose proof (run_invariant _ _ Hrun) as (_ & _ & H1).
      pose proof (run_invariant _ _ Hrun') as (_ & _ & H2).
      rewrite length_app in H2. simpl in H2.
      destruct (IH (events ++ [ev]) st' Hmax Hrun') as (events' & st'' & Hr & Hg'');
        [lia|].
      exists (ev :: events'), st''. split; [|done].
      by rewrite <- app_assoc in Hr.
Qed.

(** *** Runs whose callback returns *)

Lemma evaluate_with_semaphore_returns student_name answer p :
  returns_normally progress_callback →
  evaluate_with_semaphore on_success on_failure student_submissions
    progress_callback student_name answer p
  = (Return (capture on_success on_failure student_name answer),
     {| completed := S (completed p);
        calls := calls p ++ match progress_callback with
                            | Some _ => [(S (completed p), N, student_name)]
                            | None => []
                            end |}).
Proof.
  intros Hcb. unfold evaluate_with_semaphore, count_and_notify, total.
  destruct progress_callback as [callback|].
  - rewrite (Hcb callback eq_refl). by destruct answer.
  - rewrite app_nil_r. by destruct answer.
Qed.

Lemma run_well_behaved events (st : State Out) :
  returns_normally progress_callback →
  run machine events = Some st →
  failure st = None ∧
  completed (progress st) = length (resumed events) ∧
  calls (progress st)
  = match progress_callback with
    | Some _ => progress_report student_submissions events
    | None => []
    end ∧
  NoDup (resumed events) ∧
  (∀ i, i ∈ resumed events ↔ ∃ t, tasks st !! i = Some t ∧ is_finished t = true) ∧
  (∀ i o, tasks st !! i = Some (Returned o) → expected !! i = Some o).
Proof.
  intros Hcb. revert st.
  induction events as [|ev events IH] using rev_ind; intros st.
  - intros [= <-]. unfold initial. simpl.
    split; [done|split; [done|split; [by destruct progress_callback|split;
             [constructor|split]]]].
    + intros i. split; [by intros H%elem_of_nil|].
      intros (t & Hi & Hfin). rewrite list_lookup_fmap in Hi.
      destruct (student_submissions !! i); simpl in Hi; [|done].
      injection Hi as <-. done.
    + intros i o Hi. rewrite list_lookup_fmap in Hi.
      destruct (student_submissions !! i); simpl in Hi; done.
  - rewrite run_snoc. destruct (run machine events) as [st0|] eqn:Hrun0; [|done].
    simpl. intros Hstep.
    destruct (IH st0 eq_refl) as (Hr & Hcount & Hcalls & Hnd & Hfin & Hret).
    apply step_inv in Hstep.
    destruct Hstep as
      [(i & name & work & permits & -> & Ht & Hs & Hp & ->)
      |(i & request & name & work & r & p & -> & Ht & Hs & He & ->)]; simpl.
    + rewrite resumed_snoc_enter. unfold progress_report.
      rewrite resumed_snoc_enter. fold (progress_report student_submissions events).
      split; [done|split; [done|split; [done|split; [done|split]]]].
      * intros j. rewrite Hfin. split; intros (t & Hj & Hf).
        -- exists t. split; [|done]. rewrite list_lookup_insert_ne; [done|].
           intros ->. rewrite Ht in Hj. by injection Hj as <-.
        -- apply list_lookup_insert_Some in Hj as [(-> & <- & _)|[_ Hj]]; [done|].
           by exists t.
      * intros j o Hj.
        apply list_lookup_insert_Some in Hj as [(-> & ? & _)|[_ Hj]]; [done|].
        by apply Hret.
    + rewrite evaluate_with_semaphore_returns in He by done.
      injection He as <- <-. simpl.
      rewrite resumed_snoc_resume, length_app. simpl.
      assert (Hi : i < length (tasks st0)) by by eapply lookup_lt_Some.
      assert (Hnew : i ∉ resumed events).
      { rewrite Hfin. intros (t & Hj & Hf). rewrite Ht in Hj.
        by injection Hj as <-. }
      assert (Hname : name_of student_submissions i = name).
      { unfold name_of. by rewrite Hs. }
      split; [by rewrite Hr|split; [lia|split; [|split; [|split]]]].
      * rewrite Hcalls, Hcount. destruct progress_callback; [|done].
        unfold progress_report. rewrite resumed_snoc_resume, imap_app. simpl.
        by rewrite Nat.add_0_r, Hname.
      * apply NoDup_app. split; [done|]. split; [|apply NoDup_singleton].
        intros j Hj ->%list_elem_of_singleton. done.
      * intros j. rewrite elem_of_app, list_elem_of_singleton, Hfin.
        split.
        -- intros [(t & Hj & Hf)| ->].
           ++ exists t. split; [|done]. rewrite list_lookup_insert_ne; [done|].
              intros ->. rewrite Ht in Hj. by injection Hj as <-.
           ++ eexists. split; [by apply list_lookup_insert_eq|done].
        -- intros (t & Hj & Hf).
           apply list_lookup_insert_Some in Hj as [(-> & _ & _)|[_ Hj]];
             [by right|]. left. by exists t.
      * intros j o Hj.
        apply list_lookup_insert_Some in Hj as [(-> & Ho & _)|[_ Hj]];
          [|by apply Hret].
        injection Ho as <-. rewrite list_lookup_imap, Hs. done.
Qed.

(** Whenever [gather] has a result, it is the list of the captured
    outcomes, one per student in input order. *)
Lemma run_result events (st : State Out) r :
  returns_normally progress_callback →
  run machine events = Some st → gather st = Some r → r = Return expected.
Proof.
  intros Hcb Hrun Hg.
  destruct (run_well_behaved events st Hcb Hrun) as (Hr & _ & _ & _ & _ & Hret).
  destruct (run_invariant events st Hrun) as (Hlen & _ & _).
  rewrite gather_not_failed in Hg by done.
  destruct (mapM _ (tasks st)) as [l|] eqn:Hm; [|done].
  injection Hg as <-. f_equal.
  apply mapM_Some in Hm.
  pose proof (Forall2_length _ _ _ Hm) as Hll.
  apply list_eq. intros i.
  destruct (tasks st !! i) as [t|] eqn:Ht.
  - destruct (Forall2_lookup_l _ _ _ _ _ Hm Ht) as (o & Ho & Hto).
    destruct t; try done. injection Hto as ->.
    rewrite Ho. symmetry. by apply Hret.
  - apply lookup_ge_None in Ht.
    rewrite (lookup_ge_None_2 l) by lia.
    symmetry. apply lookup_ge_None. rewrite length_imap. lia.
Qed.

Lemma machine_always_returns :
  0 < max_concurrent → returns_normally progress_callback →
  always_returns machine N expected.
Proof.
  intros Hmax Hcb. split.
  - destruct (run_completes (2 * N) [] (initial student_submissions max_concurrent)
                Hmax eq_refl) as (events & st & Hrun & Hg).
    { pose proof (run_invariant [] _ eq_refl) as (_ & _ & H). simpl in H. lia. }
    exists events, st. simpl in Hrun. split; [done|].
    destruct (gather st) as [r|] eqn:Hgr; [|done].
    by rewrite (run_result events st r Hcb Hrun Hgr).
  - intros events st Hrun. split; [|split].
    + destruct (run_invariant events st Hrun) as (_ & _ & H). lia.
    + intros Hg. by eapply run_progress.
    + intros r Hg. by eapply run_result.
Qed.

(** When [gather] has its result, every task has been resumed once. *)
Lemma resumed_all events (st : State Out) :
  returns_normally progress_callback →
  run machine events = Some st → gather st ≠ None →
  resumed events ≡ₚ seq 0 N.
Proof.
  intros Hcb Hrun Hg.
  destruct (run_well_behaved events st Hcb Hrun) as (Hr & _ & _ & Hnd & Hfin & _).
  destruct (run_invariant events st Hrun) as (Hlen & _ & _).
  apply NoDup_Permutation; [done|apply NoDup_seq|].
  intros i. rewrite Hfin, elem_of_seq. split.
  - intros (t & Ht & _). apply lookup_lt_Some in Ht. lia.
  - intros [_ Hi]. simpl in Hi. rewrite <- Hlen in Hi.
    destruct (lookup_lt_is_Some_2 _ _ Hi) as [t Ht]. exists t. split; [done|].
    destruct (is_finished t) eqn:Hf; [done|]. exfalso. apply Hg.
    rewrite gather_not_failed by done.
    assert (Hm : mapM (λ t : Task Out, match t with
                                        | Returned outcome => Some outcome
                                        | _ => None
                                        end) (tasks st) = None); [|by rewrite Hm].
    apply mapM_None. apply Exists_exists. exists t.
    split; [by eapply list_elem_of_lookup_2|]. by destruct t.
Qed.

End Machine.

Lemma progress_report_counts items events :
  (λ c, c.1.1) <$> progress_report items events
  = seq 1 (length (resumed events)).
Proof.
  unfold progress_report. apply list_eq. intros k.
  rewrite list_lookup_fmap, list_lookup_imap.
  destruct (resumed events !! k) as [i|] eqn:Hk; simpl.
  - symmetry. apply lookup_seq. split; [lia|]. by eapply lookup_lt_Some.
  - symmetry. apply lookup_ge_None. rewrite length_seq.
    by apply lookup_ge_None.
Qed.

Lemma progress_report_names items events :
  (λ c, c.2) <$> progress_report items events
  = name_of items <$> resumed events.
Proof.
  unfold progress_report. apply list_eq. intros k.
  rewrite !list_lookup_fmap, list_lookup_imap.
  by destruct (resumed events !! k).
Qed.

Lemma names_of_seq items :
  name_of items <$> seq 0 (length items) = items.*1.
Proof.
  apply list_eq. intros i. rewrite !list_lookup_fmap. unfold name_of.
  destruct (items !! i) as [item|] eqn:Hi; simpl.
  - rewrite lookup_seq_lt by by eapply lookup_lt_Some. simpl. by rewrite Hi.
  - rewrite lookup_seq_ge; [done|]. by apply lookup_ge_None.
Qed.

Lemma machine_reported {Res Out} request_of (resume : string → result string → result Res)
    (on_success : string → Res → Out) on_failure items max_concurrent callback api
    events st :
  returns_normally (Some callback) →
  run {| start := initial items max_concurrent;
         next := step request_of resume on_success on_failure items
                   (Some callback) api |} events = Some st →
  reported items events st.
Proof.
  intros Hcb Hrun.
  destruct (run_well_behaved _ _ _ _ _ _ _ _ events st Hcb Hrun)
    as (_ & Hcount & Hcalls & Hnd & _).
  unfold reported. rewrite Hcalls, progress_report_counts.
  split; [done|]. split; [done|]. split; [done|]. split; [done|].
  intros Hg.
  pose proof (resumed_all _ _ _ _ _ _ _ _ events st Hcb Hrun Hg) as Hperm.
  split; [done|]. split.
  - by rewrite Hperm, length_seq.
  - by rewrite progress_report_names, Hperm, names_of_seq.
Qed.

Lemma machine_bounded {Res Out} request_of (resume : string → result string → result Res)
    (on_success : string → Res → Out) on_failure items max_concurrent
    progress_callback api :
  bounded {| start := initial items max_concurrent;
             next := step request_of resume on_success on_failure items
                       progress_callback api |} max_concurrent.
Proof.
  intros events st Hrun.
  destruct (run_invariant _ _ _ _ _ _ _ _ events st Hrun) as (_ & Hsem & _).
  split; [lia|]. split; [done|].
  intros Hfull i. simpl. unfold step.
  destruct (tasks st !! i) as [[| | |]|]; try done.
  destruct (items !! i) as [[name work]|]; [|done].
  destruct (semaphore st) eqn:Hp; [done|lia].
Qed.

(** *** Completeness and isolation *)




(** The positive limit is needed: with no permit the tasks wait for
    ever, so a run over at least one student has no move and no
    result. *)
Lemma zero_limit_never_returns api ctx progress_callback item items :
  let o := evaluate_all_students_free_format_async api (item :: items) ctx 0
             progress_callback in
  gather (start o) = None ∧ ∀ ev, next o ev (start o) = None.
Proof.
  split; [done|]. intros ev. simpl. unfold step.
  assert (Hwait : ∀ i t,
    tasks (initial (Out := string * (string + Exception)) (item :: items) 0) !! i
      = Some t → t = Waiting).
  { intros i t. unfold initial. cbn [tasks]. rewrite list_lookup_fmap.
    destruct ((item :: items) !! i); simpl; [|done]. by intros [= <-]. }
  destruct ev as [i|i].
  - destruct (tasks _ !! i) as [[| | |]|]; try done.
    by destruct ((item :: items) !! i) as [[name work]|].
  - destruct (tasks _ !! i) as [t|] eqn:Ht; [|done].
    by rewrite (Hwait i t Ht).
Qed.

(** *** Tagging of outcomes *)

(** C2 at its failing input.  In structured mode a failed evaluation is
    returned as the bare exception: the runs for a single student Alice
    and for a single student Bob whose call times out return the same
    list, so the outcome does not name its student, whereas the
    free-form orchestrator returns the pair of the name and the
    exception. *)
Theorem structured_failure_is_untagged :
  let timeout := Exc "APITimeoutError" "Request timed out." in
  let structured student_name :=
    evaluate_all_students_async sample_decode (λ _, Raise timeout)
      [(student_name, "Travail")] sample_context 5 None in
  let free_format student_name :=
    evaluate_all_students_free_format_async (λ _, Raise timeout)
      [(student_name, "Travail")] sample_context 5 None in
  gather <$> run (structured "Alice") [Enter 0; Resume 0]
    = Some (Some (Return [inr timeout])) ∧
  gather <$> run (structured "Bob") [Enter 0; Resume 0]
    = Some (Some (Return [inr timeout])) ∧
  gather <$> run (free_format "Alice") [Enter 0; Resume 0]
    = Some (Some (Return [("Alice", inr timeout)])).
Proof. by vm_compute. Qed.

(** What does hold of the tags: free-form outcomes carry the students'
    names in input order, and a structured success carries the name of
    its student. *)
Lemma outcome_tags json_decode api student_submissions :
  (free_format_outcomes api student_submissions).*1 = student_submissions.*1 ∧
  ∀ i result,
    structured_outcomes json_decode api student_submissions !! i
      = Some (inl result) →
    student_submissions.*1 !! i = Some (EvaluationResult.student_name result).
Proof.
  split.
  - unfold free_format_outcomes. apply list_eq. intros i.
    rewrite !list_lookup_fmap, list_lookup_imap.
    destruct (student_submissions !! i) as [[name work]|]; [|done]. simpl.
    by destruct (evaluate_student_work_free_format_async_resume _ _).
  - intros i result. unfold structured_outcomes.
    rewrite list_lookup_fmap, list_lookup_imap.
    destruct (student_submissions !! i) as [[name work]|]; [|done]. simpl.
    unfold evaluate_student_work_async_resume.
    destruct (api i) as [content|]; simpl; [|done].
    destruct (json_decode content); simpl; [|done].
    by intros [= <-].
Qed.

(** *** Progress reporting *)




(** *** The concurrency bound *)

(** C5.  At every point of every run of either orchestrator, whatever
    the limit, the callback, the answers of the API and the order in
    which tasks enter and complete, at most [max_concurrent] tasks are
    in flight: the permits left and the tasks in flight add up to
    [max_concurrent], and no task can enter while that many are in
    flight. *)
Theorem concurrency_bound json_decode api student_submissions ctx
    max_concurrent progress_callback :
  bounded (evaluate_all_students_async json_decode api student_submissions ctx
             max_concurrent progress_callback) max_concurrent ∧
  bounded (evaluate_all_students_free_format_async api student_submissions ctx
             max_concurrent progress_callback) max_concurrent.
Proof. split; apply machine_bounded. Qed.

(** Witness for C5: with one permit, once Bob is in flight nobody else
    can enter; with two, Bob and Chloé are in flight together and Alice
    has to wait; the bound at the limits 5 and 1000. *)
Lemma concurrency_bound_witness :
  (∃ st,
     run (evaluate_all_students_async sample_decode sample_api sample_students
            sample_context 1 None) [Enter 1] = Some st ∧
     in_flight st = 1 ∧
     ∀ i, next (evaluate_all_students_async sample_decode sample_api
                  sample_students sample_context 1 None) (Enter i) st = None) ∧
  (∃ st,
     run (evaluate_all_students_free_format_async sample_api sample_students
            sample_context 2 (Some failing_callback)) [Enter 1; Enter 2] = Some st ∧
     in_flight st ≤ 2 ∧
     ∀ i, next (evaluate_all_students_free_format_async sample_api
                  sample_students sample_context 2 (Some failing_callback))
               (Enter i) st = None) ∧
  bounded (evaluate_all_students_async sample_decode sample_api sample_students
             sample_context 5 (Some quiet_callback)) 5 ∧
  bounded (evaluate_all_students_async sample_decode sample_api sample_students
             sample_context 1000 (Some quiet_callback)) 1000.
Proof.
  destruct (concurrency_bound sample_decode sample_api sample_students
              sample_context 1 None) as [Hone _].
  destruct (concurrency_bound sample_decode sample_api sample_students
              sample_context 2 (Some failing_callback)) as [_ Htwo].
  destruct (concurrency_bound sample_decode sample_api sample_students
              sample_context 5 (Some quiet_callback)) as [Hfive _].
  destruct (concurrency_bound sample_decode sample_api sample_students
              sample_context 1000 (Some quiet_callback)) as [Hthousand _].
  split; [|split; [|by split]].
  - destruct (run _ [Enter 1]) as [st|] eqn:Hrun; [|by vm_compute in Hrun].
    exists st. split; [done|].
    destruct (Hone _ _ Hrun) as (_ & _ & Hfull).
    assert (Hone_in_flight : in_flight st = 1).
    { vm_compute in Hrun. injection Hrun as <-. by vm_compute. }
    split; [done|]. by apply Hfull.
  - destruct (run _ [Enter 1; Enter 2]) as [st|] eqn:Hrun;
      [|by vm_compute in Hrun].
    exists st. split; [done|].
    destruct (Htwo _ _ Hrun) as (Hle & _ & Hfull).
    split; [done|]. apply Hfull.
    vm_compute in Hrun. injection Hrun as <-. by vm_compute.
Defined.

End OrchestratorFacts.

(** ** Prompt composition *)

Module PromptFacts.
Import LlmEvaluator.

(** C7 (as amended).  The prompt handed to the model is the join, by
    line feeds, of labelled sections in this order.  Structured mode:
    the rubric (always present), the knowledge base (omitted if empty),
    the custom instructions (omitted if empty), the student submission;
    the prompt does not depend on the student's name.  Free-form mode:
    the rubric (omitted if empty), the knowledge base (omitted if
    empty), the custom instructions (omitted if empty), the output
    format instructions (always present), the student submission under
    a heading that carries the student's name. *)
Theorem prompt_sections ctx student_name student_work :
  user_content (evaluate_student_work_async_request ctx student_name student_work)
  = Str.join nl
      (section rubric_heading (evaluation_grid ctx)
       ++ optional_section knowledge_heading (knowledge_base ctx)
       ++ optional_section instructions_heading (custom_instructions ctx)
       ++ section submission_heading student_work) ∧
  user_content (evaluate_student_work_free_format_async_request ctx
                  student_name student_work)
  = Str.join nl
      (optional_section rubric_heading (evaluation_grid ctx)
       ++ optional_section knowledge_heading (knowledge_base ctx)
       ++ optional_section instructions_heading (custom_instructions ctx)
       ++ section format_heading (output_format_instructions ctx)
       ++ section (submission_heading_of student_name) student_work) ∧
  (∀ other_name,
     evaluate_student_work_async_request ctx other_name student_work
     = evaluate_student_work_async_request ctx student_name student_work).
Proof.
  split; [|split; [|done]].
  - unfold evaluate_student_work_async_request, build_evaluation_prompt,
      optional_section, section. simpl.
    by destruct (Str.truthy (knowledge_base ctx)),
                (Str.truthy (custom_instructions ctx)).
  - unfold evaluate_student_work_free_format_async_request, free_format_prompt,
      optional_section, section. simpl.
    by destruct (Str.truthy (evaluation_grid ctx)),
                (Str.truthy (knowledge_base ctx)),
                (Str.truthy (custom_instructions ctx)).
Qed.

(** C7 as stated fails on two counts.  The structured prompt carries no
    identity of the student: the prompts for Alice and for Bob are the
    same text, in which the name does not occur.  And in free-form mode
    an empty rubric leaves the rubric section out. *)
Lemma prompt_identity_counterexample :
  evaluate_student_work_async_request sample_context "Alice" "Travail A"
  = evaluate_student_work_async_request sample_context "Bob" "Travail A" ∧
  Str.contains "Alice"
    (user_content
       (evaluate_student_work_async_request sample_context "Alice" "Travail A"))
  = false ∧
  Str.contains "Alice"
    (user_content
       (evaluate_student_work_free_format_async_request sample_context
          "Alice" "Travail A"))
  = true ∧
  Str.contains "## Grille"
    (free_format_prompt "Alice" "Travail A" "" "" "Un paragraphe." "")
  = false ∧
  Str.contains "## Grille" (build_evaluation_prompt "Travail A" "" "" "")
  = true.
Proof. by vm_compute. Qed.

End PromptFacts.

(** ** The driver *)

Module MainFacts.
Import ZipHandler ZipHandlerFacts Main.

Lemma all_skipped_empty decimal_beyond_ascii zf : ∀ infos students,
  (∀ e, e ∈ infos → skipped e = true) →
  visit_all decimal_beyond_ascii zf students infos = Return students.
Proof.
  induction infos as [|e infos IH]; intros students Hall; [done|].
  simpl. rewrite visit_skipped by (apply Hall; by left). simpl.
  apply IH. intros e' He'. apply Hall. by right.
Qed.

(** C8.  When the bytes are not an archive, the exception of the
    container parser leaves [extract_student_submissions] and then the
    script: the run is over.  An archive in which every entry is ignored
    is no error for the extraction, which returns the empty dictionary;
    and whenever the extraction returns an empty dictionary the script
    reports that no student work was found and stops, where it would
    otherwise go on to parsing and evaluation. *)
Theorem extraction_errors decimal_beyond_ascii open_zip zip_content :
  let extract_student_submissions :=
    extract_student_submissions decimal_beyond_ascii in
  let extraction_step := extraction_step decimal_beyond_ascii in
  (∀ e, open_zip zip_content = Raise e →
     extract_student_submissions open_zip zip_content = Raise e ∧
     extraction_step open_zip zip_content = Uncaught e) ∧
  (∀ zf, open_zip zip_content = Return zf →
     (∀ e, e ∈ infolist zf → skipped e = true) →
     extract_student_submissions open_zip zip_content = Return ∅) ∧
  (extract_student_submissions open_zip zip_content = Return ∅ →
     extraction_step open_zip zip_content
     = Stopped "❌ Aucun travail d'étudiant trouvé dans le ZIP.") ∧
  (∀ students,
     extract_student_submissions open_zip zip_content = Return students →
     students ≠ ∅ →
     extraction_step open_zip zip_content = Proceeds students).
Proof.
  cbv zeta. unfold extraction_step, extract_student_submissions.
  split; [|split; [|split]].
  - intros e ->. done.
  - intros zf -> Hall. simpl. by apply all_skipped_empty.
  - intros ->. by rewrite decide_True.
  - intros students -> Hne. by rewrite decide_False.
Qed.

(** Witness for C8: bytes that are no archive, an archive of ignored
    entries only, and the sample archive. *)
Lemma extraction_errors_witness :
  let extract_student_submissions :=
    extract_student_submissions arabic_indic in
  let extraction_step := extraction_step arabic_indic in
  extraction_step (opens_as simple_archive) []
    = Uncaught (Exc "BadZipFile" "File is not a zip file") ∧
  extract_student_submissions (opens_as ignored_only_archive) [x50; x4b]
    = Return ∅ ∧
  extraction_step (opens_as ignored_only_archive) [x50; x4b]
    = Stopped "❌ Aucun travail d'étudiant trouvé dans le ZIP." ∧
  ∃ students, extraction_step (opens_as simple_archive) [x50; x4b]
              = Proceeds students.
Proof.
  intros extract_student_submissions extraction_step.
  destruct (extraction_errors arabic_indic (opens_as simple_archive) [])
    as (Hbad & _).
  destruct (extraction_errors arabic_indic (opens_as ignored_only_archive)
              [x50; x4b]) as (_ & Hempty & Hstop & _).
  destruct (extraction_errors arabic_indic (opens_as simple_archive)
              [x50; x4b]) as (_ & _ & _ & Hgo).
  assert (Hnone : extract_student_submissions (opens_as ignored_only_archive)
                    [x50; x4b] = Return ∅).
  { apply (Hempty ignored_only_archive eq_refl). intros e He.
    repeat (apply elem_of_cons in He as [->|He]);
      [..|by apply elem_of_nil in He]; by vm_compute. }
  split; [by apply Hbad|]. split; [done|]. split; [by apply Hstop|].
  destruct (extract_student_submissions (opens_as simple_archive) [x50; x4b])
    as [students|] eqn:Hext; [|by vm_compute in Hext].
  exists students. apply Hgo; [done|].
  intros ->. by vm_compute in Hext.
Defined.

End MainFacts.

(** ** More on the extractor *)

Module ZipHandlerMoreFacts.
Import ZipHandler ZipHandlerFacts ZipHandlerMore.

Section Names.

Variable decimal_beyond_ascii : N → bool.

Local Abbreviation digits := (Utf8.run (Str.isdecimal decimal_beyond_ascii)).
Local Abbreviation match_marker := (match_marker decimal_beyond_ascii).
Local Abbreviation re_match_group1 := (re_match_group1 decimal_beyond_ascii).
Local Abbreviation extract_student_name_from_moodle_folder :=
  (extract_student_name_from_moodle_folder decimal_beyond_ascii).
Local Abbreviation moodle_student_name :=
  (moodle_student_name decimal_beyond_ascii).
Local Abbreviation visit := (visit decimal_beyond_ascii).
Local Abbreviation visit_all := (visit_all decimal_beyond_ascii).
Local Abbreviation entry_student := (entry_student decimal_beyond_ascii).
Local Abbreviation submitted := (submitted decimal_beyond_ascii).
Local Abbreviation captures := (captures decimal_beyond_ascii).
Local Abbreviation extract_student_submissions :=
  (extract_student_submissions decimal_beyond_ascii).

(** *** Moodle folder names *)

Lemma match_marker_underscore c s :
  match_marker (String c s) = true → c = "_"%char.
Proof.
  unfold ZipHandler.match_marker.
  destruct c as [[] [] [] [] [] [] [] []]; done.
Qed.

Lemma re_match_group1_plain : ∀ name tail,
  name ≠ "" → free_of "_" name = true → free_of "010" name = true →
  match_marker tail = true →
  re_match_group1 (name +:+ tail) = Some name.
Proof.
  induction name as [|c name IH]; intros tail Hne Hu Hlf Hm; [done|].
  unfold free_of in *. simpl in Hu, Hlf.
  apply andb_prop in Hu as [Hcu Hu]. apply andb_prop in Hlf as [Hclf Hlf].
  apply negb_true_iff in Hclf.
  rewrite append_cons. cbn [ZipHandler.re_match_group1]. rewrite Hclf.
  destruct name as [|c' name].
  - rewrite append_nil, Hm. done.
  - destruct (match_marker (String c' name +:+ tail)) eqn:Hm'.
    + rewrite append_cons in Hm'. apply match_marker_underscore in Hm' as ->.
      simpl in Hu. done.
    + rewrite (IH tail); done.
Qed.

(** X1.  A folder named as Moodle names it,
    [<name>_<id>_assignsubmission_<type>], gives back the name without
    the white space around it, whenever the name is not empty and holds
    neither an underscore nor a line feed and the id is a non-empty run
    of decimal digits.  White space and digits are those of Unicode. *)
Theorem moodle_folder_round_trip name id type :
  name ≠ "" → free_of "_" name = true → free_of "010" name = true →
  id ≠ "" → digits id →
  ∃ student,
    extract_student_name_from_moodle_folder
      (name +:+ "_" +:+ id +:+ "_assignsubmission_" +:+ type)
    = Some student ∧
    Str.trims name student.
Proof.
  intros Hne Hu Hlf Hid Hdig. exists (Str.strip name).
  split; [|apply strip_trims].
  unfold ZipHandler.extract_student_name_from_moodle_folder.
  rewrite (re_match_group1_plain name); [done..|].
  by apply match_marker_complete.
Qed.

Lemma contains_here p s : String.prefix p s = true → Str.contains p s = true.
Proof. intros H. destruct s; cbn [Str.contains]; by rewrite H. Qed.

Lemma contains_app p : ∀ a b, Str.contains p b = true → Str.contains p (a +:+ b) = true.
Proof.
  induction a as [|c a IH]; intros b H; [done|].
  rewrite append_cons. cbn [Str.contains]. rewrite (IH b H). apply orb_true_r.
Qed.


(** X2.  A folder is recognised only when it reads
    [<name>_<digits>_assignsubmission_...], so that its name holds the
    marker [_assignsubmission_]; what comes back is the shortest such
    name without the white space around it, and has white space at
    neither end. *)
Theorem moodle_folder_recognition folder_name student :
  extract_student_name_from_moodle_folder folder_name = Some student →
  Str.contains "_assignsubmission_" folder_name = true ∧
  Str.trimmed student ∧
  ∃ name, captures folder_name name ∧ Str.trims name student.
Proof.
  intros Hs.
  pose proof (extract_student_name_spec decimal_beyond_ascii folder_name) as H.
  rewrite Hs in H. destruct H as (name & Hc & Ht & _).
  split; [|split; [|by exists name]].
  - destruct Hc as [(ds & rest & -> & _) _].
    apply contains_app. apply (contains_app _ "_"). apply contains_app.
    apply contains_here. apply (app_prefix "_assignsubmission_").
  - by destruct Ht as (l & r & _ & _ & _ & Ht).
Qed.

(** *** What a returned dictionary looks like *)

Lemma split_free c s : ∀ part, part ∈ Str.split c s → free_of c part = true.
Proof.
  induction s as [|a s IH]; intros part; simpl.
  - by intros ->%list_elem_of_singleton.
  - destruct (Ascii.eqb a c) eqn:Hac.
    + intros [->|H]%elem_of_cons; [done|by apply IH].
    + destruct (Str.split c s) as [|w ws] eqn:Hs.
      * intros ->%list_elem_of_singleton. unfold free_of. simpl. by rewrite Hac.
      * intros [->|H]%elem_of_cons.
        -- unfold free_of. simpl. rewrite Hac. simpl. apply IH. by left.
        -- apply IH. by right.
Qed.

Lemma tail_component p part :
  part ∈ PurePosixPath.tail p → part ≠ "" ∧ free_of "/" part = true.
Proof.
  unfold PurePosixPath.tail. intros [[Hne _] Hin]%list_elem_of_filter.
  split; [done|]. by eapply split_free.
Qed.

Lemma parts_nonempty p part : part ∈ PurePosixPath.parts p → part ≠ "".
Proof.
  unfold PurePosixPath.parts.
  destruct (Str.truthy (PurePosixPath.splitroot p).1) eqn:Hroot.
  - intros [->|H]%elem_of_cons; [|by apply tail_component in H as [? _]].
    intros E. by rewrite E in Hroot.
  - intros H. by apply tail_component in H as [? _].
Qed.

Lemma last_elem_of {A} (l : list A) d : l ≠ [] → List.last l d ∈ l.
Proof.
  induction l as [|a l IH]; [done|]. intros _. destruct l as [|b l].
  - by left.
  - right. by apply IH.
Qed.

Lemma kept_leaf e :
  skipped e = false →
  let name := PurePosixPath.name (filename e) in
  name ≠ "" ∧ free_of "/" name = true ∧ Str.startswith "." name = false.
Proof.
  intros Hk name. pose proof (kept_two_parts e Hk) as Hlen.
  unfold skipped in Hk. repeat (apply orb_false_elim in Hk as [Hk ?]).
  assert (Hin : name ∈ PurePosixPath.tail (filename e)).
  { apply last_elem_of. unfold PurePosixPath.parts in Hlen.
    destruct (PurePosixPath.tail (filename e)); [|done].
    destruct (Str.truthy _); simpl in Hlen; lia. }
  apply tail_component in Hin as [? ?]. done.
Qed.

Lemma moodle_student_name_nonempty folders student :
  moodle_student_name folders = Some student → student ≠ "".
Proof.
  induction folders as [|part rest IH]; simpl; [done|].
  destruct (extract_student_name_from_moodle_folder part) as [n|]; [|done].
  destruct (Str.truthy n) eqn:Hn; [|done].
  intros [= <-] E. by rewrite E in Hn.
Qed.

Lemma entry_student_nonempty e : skipped e = false → entry_student e ≠ "".
Proof.
  intros Hk. pose proof (kept_two_parts e Hk) as Hlen.
  unfold ZipHandler.entry_student, ZipHandler.student_name_of.
  destruct (moodle_student_name _) as [student|] eqn:Hm.
  - by eapply moodle_student_name_nonempty.
  - destruct (PurePosixPath.parts (filename e)) as [|part rest] eqn:Hp;
      [simpl in Hlen; lia|].
    simpl. apply (parts_nonempty (filename e)). rewrite Hp. by left.
Qed.

(** X4.  In every dictionary the extraction returns, no student has an
    empty name, no student has an empty list of files, and every stored
    file name is a non-empty leaf name: it holds no slash and does not
    start with a dot. *)
Theorem submissions_well_formed open_zip zip_content students student files :
  extract_student_submissions open_zip zip_content = Return students →
  students !! student = Some files →
  student ≠ "" ∧ files ≠ [] ∧
  ∀ name content, (name, content) ∈ files →
    name ≠ "" ∧ free_of "/" name = true ∧ Str.startswith "." name = false.
Proof.
  unfold ZipHandler.extract_student_submissions.
  destruct (open_zip zip_content) as [zf|]; simpl; [|done].
  intros Hext Hlook. rewrite (visit_all_submitted _ zf students Hext) in Hlook.
  destruct (submitted (content_of zf) student (infolist zf))
    as [|f fs] eqn:Hsub; [done|].
  injection Hlook as <-.
  assert (Hsrc : ∀ x, x ∈ f :: fs →
    ∃ e, skipped e = false ∧ entry_student e = student ∧
         x = entry_file (content_of zf) e).
  { intros x Hx. rewrite <- Hsub in Hx. unfold ZipHandler.submitted in Hx.
    apply list_elem_of_fmap in Hx as (e & -> & He).
    apply list_elem_of_filter in He as [[Hk Hs] _]. by exists e. }
  split; [|split; [done|]].
  - destruct (Hsrc f) as (e & Hk & <- & _); [by left|].
    by apply entry_student_nonempty.
  - intros name content Hin. destruct (Hsrc _ Hin) as (e & Hk & _ & Hf).
    injection Hf as -> _. by apply kept_leaf.
Qed.


(** *** One stored file for each kept entry *)

Lemma file_count_insert (students : gmap string (list (string * bytes))) k v :
  file_count (<[k := v]> students) + length (default [] (students !! k))
  = file_count students + length v.
Proof.
  unfold file_count. destruct (students !! k) as [old|] eqn:Hk; simpl.
  - rewrite <- (insert_delete_eq students k v).
    rewrite <- (insert_delete_id students k old Hk) at 2.
    rewrite !map_to_list_insert by apply lookup_delete_eq.
    csimpl. lia.
  - rewrite map_to_list_insert by done. csimpl. lia.
Qed.

Lemma visit_all_file_count zf infos : ∀ students students',
  visit_all zf students infos = Return students' →
  file_count students'
  = file_count students + length (filter (λ e, skipped e = false) infos).
Proof.
  induction infos as [|e infos IH]; intros students students'.
  - intros [= <-]. simpl. lia.
  - simpl. destruct (skipped e) eqn:Hs.
    + rewrite visit_skipped by done. simpl. intros H.
      rewrite (IH _ _ H). by rewrite filter_cons_False by congruence.
    + rewrite visit_kept by done.
      destruct (read zf (filename e)) as [content|]; simpl; [|done].
      intros H. rewrite (IH _ _ H). rewrite filter_cons_True by done. simpl.
      pose proof (file_count_insert students (entry_student e)
        (default [] (students !! entry_student e)
         ++ [(PurePosixPath.name (filename e), content)])) as Hc.
      rewrite length_app in Hc. simpl in Hc. lia.
Qed.


(** X5.  The lists of a returned dictionary hold, together, exactly as
    many files as the archive has entries that are not skipped, and
    there are at most that many students.  Every kept entry has its
    pair in the list of its student: its leaf name with the bytes that
    reading its member name returns; and every stored pair is the pair
    of a kept entry of that student. *)
Theorem one_file_per_kept_entry open_zip zip_content zf students :
  open_zip zip_content = Return zf →
  extract_student_submissions open_zip zip_content = Return students →
  let kept := filter (λ e, skipped e = false) (infolist zf) in
  file_count students = length kept ∧
  size students ≤ length kept ∧
  (∀ e, e ∈ kept →
     ∃ content files,
       read zf (filename e) = Return content ∧
       students !! entry_student e = Some files ∧
       (PurePosixPath.name (filename e), content) ∈ files) ∧
  (∀ student files name content,
     students !! student = Some files → (name, content) ∈ files →
     ∃ e, e ∈ kept ∧ entry_student e = student ∧
          name = PurePosixPath.name (filename e) ∧
          read zf (filename e) = Return content).
Proof.
  intros Hopen Hext kept.
  unfold ZipHandler.extract_student_submissions in Hext.
  rewrite Hopen in Hext. simpl in Hext.
  pose proof (visit_all_file_count zf _ _ _ Hext) as Hcount.
  unfold file_count in Hcount at 2. rewrite map_to_list_empty in Hcount.
  simpl in Hcount. fold kept in Hcount.
  pose proof (visit_all_submitted _ zf students Hext) as Hlook.
  pose proof (visit_all_readable _ zf _ _ _ Hext) as Hread.
  split; [done|]. split; [|split].
  - rewrite <- Hcount.
    assert (Hpos : ∀ kv, kv ∈ map_to_list students → 1 ≤ length kv.2).
    { intros [student files] Hin. apply elem_of_map_to_list in Hin. simpl.
      rewrite Hlook in Hin.
      destruct (ZipHandler.submitted _ _ _ _); [done|].
      injection Hin as <-. simpl. lia. }
    rewrite <- length_map_to_list. unfold file_count.
    induction (map_to_list students) as [|kv l IHl]; csimpl; [lia|].
    pose proof (Hpos kv (list_elem_of_here _ _)).
    assert (length l ≤ sum_list ((λ kv, length kv.2) <$> l)); [|lia].
    apply IHl. intros kv' Hin. apply Hpos. by right.
  - intros e [Hk He]%list_elem_of_filter.
    exists (content_of zf (filename e)).
    assert (Hin : entry_file (content_of zf) e
                  ∈ submitted (content_of zf) (entry_student e) (infolist zf)).
    { unfold ZipHandler.submitted. apply list_elem_of_fmap. exists e.
      split; [done|]. apply list_elem_of_filter. by split. }
    specialize (Hlook (entry_student e)).
    destruct (ZipHandler.submitted _ _ _ _) as [|f fs] eqn:Hsub.
    + by apply elem_of_nil in Hin.
    + exists (f :: fs). split; [by apply Hread|]. by split.
  - intros student files name content Hin Hf. rewrite Hlook in Hin.
    assert (Hsub : (name, content)
                   ∈ submitted (content_of zf) student (infolist zf)).
    { destruct (ZipHandler.submitted _ _ _ _); [done|].
      by injection Hin as ->. }
    unfold ZipHandler.submitted in Hsub.
    apply list_elem_of_fmap in Hsub as (e & Hpair & He).
    apply list_elem_of_filter in He as [[Hk Hs] He].
    injection Hpair as -> ->. exists e.
    split; [by apply list_elem_of_filter|]. split; [done|]. split; [done|].
    by apply Hread.
Qed.

End Names.

(** A name between a no-break space and a space, and an id written in
    Arabic-Indic digits. *)
Lemma moodle_folder_round_trip_witness :
  ∃ student,
    extract_student_name_from_moodle_folder arabic_indic
      (nbsp +:+ "Abdoul Karim Coulibaly _١٢٣٦٠٥٩_assignsubmission_onlinetext")
    = Some student ∧
    Str.trims (nbsp +:+ "Abdoul Karim Coulibaly ") student ∧
    student = "Abdoul Karim Coulibaly".
Proof.
  destruct (moodle_folder_round_trip arabic_indic
              (nbsp +:+ "Abdoul Karim Coulibaly ") "١٢٣٦٠٥٩" "onlinetext")
    as (student & Hs & Ht); [done|reflexivity|reflexivity|done| |].
  - apply skip_empty. by vm_compute.
  - exists student. split; [exact Hs|]. split; [exact Ht|].
    apply trims_unique in Ht. rewrite Ht. by vm_compute.
Defined.

Lemma moodle_folder_recognition_witness :
  Str.contains "_assignsubmission_"
    (" Jane Doe" +:+ nbsp +:+ "_٩٩_assignsubmission_file") = true ∧
  Str.trimmed "Jane Doe" ∧
  ∃ name, captures arabic_indic
            (" Jane Doe" +:+ nbsp +:+ "_٩٩_assignsubmission_file") name ∧
          Str.trims name "Jane Doe".
Proof.
  apply (moodle_folder_recognition arabic_indic
           (" Jane Doe" +:+ nbsp +:+ "_٩٩_assignsubmission_file") "Jane Doe").
  by vm_compute.
Defined.

Lemma submissions_well_formed_witness :
  ∃ students files,
    extract_student_submissions arabic_indic (opens_as simple_archive)
      [x50; x4b] = Return students ∧
    students !! "Alice" = Some files ∧
    "Alice" ≠ "" ∧ files ≠ [] ∧
    ∀ name content, (name, content) ∈ files →
      name ≠ "" ∧ free_of "/" name = true ∧ Str.startswith "." name = false.
Proof.
  exists {[ "Alice" := [("report.pdf", [x01]); ("annex.txt", [x06])];
            "Bob" := [("report.pdf", [x02])] ]},
         [("report.pdf", [x01]); ("annex.txt", [x06])].
  split; [by vm_compute|]. split; [by vm_compute|].
  apply (submissions_well_formed arabic_indic (opens_as simple_archive)
           [x50; x4b]
           {[ "Alice" := [("report.pdf", [x01]); ("annex.txt", [x06])];
              "Bob" := [("report.pdf", [x02])] ]}); by vm_compute.
Defined.

(** Two members of the same name: two files are stored, and both hold
    the bytes that reading the name returns, those of the later member. *)
Lemma one_file_per_kept_entry_witness :
  ∃ students,
    extract_student_submissions arabic_indic (opens_as repeated_archive)
      [x50; x4b] = Return students ∧
    file_count students = 2 ∧ size students ≤ 2 ∧
    students !! "Alice" = Some [("report.pdf", [x02]); ("report.pdf", [x02])] ∧
    last_named "Alice/report.pdf"
      [("Alice/report.pdf", [x01]); ("Alice/report.pdf", [x02])] = Some [x02].
Proof.
  assert (Hext : extract_student_submissions arabic_indic
                   (opens_as repeated_archive) [x50; x4b]
                 = Return {[ "Alice" := [("report.pdf", [x02]);
                                         ("report.pdf", [x02])] ]})
    by by vm_compute.
  eexists. split; [exact Hext|].
  destruct (one_file_per_kept_entry arabic_indic (opens_as repeated_archive)
              [x50; x4b] repeated_archive _ eq_refl Hext)
    as (Hcount & Hsize & _ & _).
  split; [exact Hcount|]. split; [exact Hsize|]. split; by vm_compute.
Defined.

(** *** Supported extensions *)

(** X3.  [parse_document] answers [None] exactly for the extensions that
    [get_supported_extensions] does not list: for a listed extension it
    hands back what the format parser or the decoder produced, or the
    parser's exception. *)
Theorem parse_document_none_iff_unsupported
    parse_pdf parse_docx parse_excel parse_html decode_utf8_replace
    filename content :
  parse_document parse_pdf parse_docx parse_excel parse_html
    decode_utf8_replace filename content = Return None
  ↔ Str.lower (PurePosixPath.suffix filename) ∉ get_supported_extensions.
Proof.
  unfold parse_document, get_supported_extensions.
  set (ext := Str.lower (PurePosixPath.suffix filename)).
  rewrite !not_elem_of_union, !not_elem_of_singleton.
  repeat case_decide;
    repeat match goal with
           | H : _ ∈ _ :: _ |- _ => apply elem_of_cons in H as [H|H]
           | H : _ ∈ [] |- _ => by apply elem_of_nil in H
           | H : ¬ _ ∈ _ :: _ |- _ => apply not_elem_of_cons in H as [? H]
           end.
  all: split; [|tauto || (intros _; reflexivity)].
  all: try (intros _; tauto).
  all: match goal with
       | |- Some <$> ?r = _ → _ => destruct r; simpl; intros [=]
       | |- Return (Some _) = _ → _ => intros [=]
       | _ => idtac
       end.
Qed.


End ZipHandlerMoreFacts.

(** ** More on the orchestrator *)

Module OrchestratorMoreFacts.
Import LlmEvaluator OrchestratorFacts OrchestratorMore.

Lemma bounded_NoDup (l : list nat) n :
  NoDup l → (∀ x, x ∈ l → x < n) → length l ≤ n.
Proof.
  intros Hnd Hlt.
  assert (Hsub : l ⊆+ seq 0 n).
  { apply NoDup_submseteq; [done|].
    intros x Hx. apply elem_of_seq. specialize (Hlt x Hx). lia. }
  apply submseteq_length in Hsub. by rewrite length_seq in Hsub.
Qed.

Lemma returns_normally_quieted progress_callback :
  returns_normally (quieted progress_callback).
Proof.
  intros callback H. destruct progress_callback; simpl in H; [|done].
  by injection H as <-.
Qed.

Section Machine.

Context {Res Out : Type}.
Variable request_of : string → string → ChatRequest.
Variable resume : string → result string → result Res.
Variable on_success : string → Res → Out.
Variable on_failure : string → Exception → Out.
Variable student_submissions : list (string * string).
Variable max_concurrent : nat.
Variable api : nat → result string.

Local Abbreviation machine progress_callback :=
  {| start := initial student_submissions max_concurrent;
     next := step request_of resume on_success on_failure
               student_submissions progress_callback api |}.

Local Abbreviation N := (length student_submissions).

(** *** A callback that copes with the counts 1 to N *)

Lemma evaluate_in_range progress_callback student_name answer p :
  returns_in_range progress_callback → S (completed p) ≤ N →
  evaluate_with_semaphore on_success on_failure student_submissions
    progress_callback student_name answer p
  = evaluate_with_semaphore on_success on_failure student_submissions
      (quieted progress_callback) student_name answer p.
Proof.
  intros Hcb Hle. unfold evaluate_with_semaphore, count_and_notify, total.
  destruct progress_callback as [callback|]; simpl; [|done].
  rewrite (Hcb callback eq_refl) by lia. done.
Qed.

(** Before a task completes, fewer than N tasks have. *)
Lemma completed_below events (st : State Out) i request progress_callback :
  returns_normally progress_callback →
  run (machine progress_callback) events = Some st →
  tasks st !! i = Some (Calling request) →
  S (completed (progress st)) ≤ N.
Proof.
  intros Hcb Hrun Hi.
  destruct (run_well_behaved _ _ _ _ _ _ _ _ events st Hcb Hrun)
    as (_ & -> & _ & Hnd & Hfin & _).
  destruct (run_invariant _ _ _ _ _ _ _ _ events st Hrun) as (Hlen & _ & _).
  change (S (length (resumed events))) with (length (i :: resumed events)).
  apply bounded_NoDup.
  - constructor; [|done]. rewrite Hfin. intros (t & Ht & Hf).
    rewrite Hi in Ht. by injection Ht as <-.
  - intros j [->|Hj]%elem_of_cons.
    + apply lookup_lt_Some in Hi. lia.
    + apply Hfin in Hj as (t & Ht & _). apply lookup_lt_Some in Ht. lia.
Qed.

Lemma step_quieted progress_callback events (st : State Out) ev :
  returns_in_range progress_callback →
  run (machine (quieted progress_callback)) events = Some st →
  step request_of resume on_success on_failure student_submissions
    progress_callback api ev st
  = step request_of resume on_success on_failure student_submissions
      (quieted progress_callback) api ev st.
Proof.
  intros Hcb Hrun. unfold step. destruct ev as [i|i]; [done|].
  destruct (tasks st !! i) as [[|request| |]|] eqn:Hi; try done.
  destruct (student_submissions !! i) as [[name work]|]; [|done].
  rewrite evaluate_in_range; [done..|].
  eapply completed_below; [apply returns_normally_quieted|done..].
Qed.

Lemma run_quieted progress_callback events :
  returns_in_range progress_callback →
  run (machine progress_callback) events
  = run (machine (quieted progress_callback)) events.
Proof.
  intros Hcb. induction events as [|ev events IH] using rev_ind; [done|].
  rewrite !run_snoc, IH.
  destruct (run (machine (quieted progress_callback)) events) as [st|] eqn:Hrun;
    [|done].
  simpl. by eapply step_quieted.
Qed.

Lemma machine_in_range progress_callback :
  0 < max_concurrent → returns_in_range progress_callback →
  always_returns (machine progress_callback) N
    (imap (λ i item, capture on_success on_failure item.1
                       (resume item.1 (api i))) student_submissions) ∧
  ∀ events st,
    run (machine progress_callback) events = Some st →
    ∀ completed total student_name,
      (completed, total, student_name) ∈ calls (progress st) →
      1 ≤ completed ≤ total ∧ total = N.
Proof.
  intros Hmax Hcb.
  destruct (machine_always_returns request_of resume on_success on_failure
              student_submissions max_concurrent (quieted progress_callback)
              api Hmax (returns_normally_quieted _)) as [Hex Hall].
  split; [split|].
  - destruct Hex as (events & st & Hrun & Hg). exists events, st.
    by rewrite run_quieted.
  - intros events st Hrun. rewrite run_quieted in Hrun by done.
    destruct (Hall events st Hrun) as (Hlen & Hprog & Hres).
    split; [done|]. split; [|done].
    intros Hg. destruct (Hprog Hg) as (ev & st' & Hstep).
    exists ev, st'. simpl. by rewrite (step_quieted _ events).
  - intros events st Hrun c t name Hin. rewrite run_quieted in Hrun by done.
    destruct (run_well_behaved _ _ _ _ _ _ _ _ events st
                (returns_normally_quieted _) Hrun)
      as (_ & _ & Hcalls & Hnd & Hfin & _).
    destruct (run_invariant _ _ _ _ _ _ _ _ events st Hrun) as (Hlen & _ & _).
    rewrite Hcalls in Hin.
    destruct progress_callback; simpl in Hin; [|by apply elem_of_nil in Hin].
    unfold progress_report in Hin.
    apply list_elem_of_lookup in Hin as [k Hk].
    rewrite list_lookup_imap in Hk.
    destruct (resumed events !! k) as [i|] eqn:Hi; simpl in Hk; [|done].
    injection Hk as <- <- _. split; [|done].
    apply lookup_lt_Some in Hi.
    assert (length (resumed events) ≤ N); [|lia].
    apply bounded_NoDup; [done|]. intros j Hj.
    apply Hfin in Hj as (t' & Ht & _). apply lookup_lt_Some in Ht. lia.
Qed.

End Machine.

Lemma update_progress_in_range : returns_in_range (Some update_progress).
Proof.
  intros callback [= <-] completed total name [H1 H2]. unfold update_progress.
  destruct (Nat.eqb_spec total 0); [lia|].
  destruct (Nat.ltb_spec total completed); [lia|done].
Qed.

(** X6.  A progress callback need only cope with counts from 1 to the
    total: for a positive limit and a callback that returns on those, as
    [update_progress] of [main.py] does, every run of either
    orchestrator returns the N captured outcomes, and every call the
    callback receives carries a count between 1 and the total, the total
    being the number of students, never 0. *)
Theorem callback_only_hears_counts_in_range json_decode api student_submissions
    ctx max_concurrent progress_callback :
  0 < max_concurrent →
  returns_in_range progress_callback →
  always_returns
    (evaluate_all_students_async json_decode api student_submissions ctx
       max_concurrent progress_callback)
    (length student_submissions)
    (structured_outcomes json_decode api student_submissions) ∧
  always_returns
    (evaluate_all_students_free_format_async api student_submissions ctx
       max_concurrent progress_callback)
    (length student_submissions)
    (free_format_outcomes api student_submissions) ∧
  (∀ events st completed total student_name,
     run (evaluate_all_students_async json_decode api student_submissions ctx
            max_concurrent progress_callback) events = Some st →
     (completed, total, student_name) ∈ calls (progress st) →
     1 ≤ completed ≤ total ∧ total = length student_submissions) ∧
  (∀ events st completed total student_name,
     run (evaluate_all_students_free_format_async api student_submissions ctx
            max_concurrent progress_callback) events = Some st →
     (completed, total, student_name) ∈ calls (progress st) →
     1 ≤ completed ≤ total ∧ total = length student_submissions).
Proof.
  intros Hmax Hcb.
  destruct (machine_in_range (evaluate_student_work_async_request ctx)
              (evaluate_student_work_async_resume json_decode)
              (λ _ result, inl result) (λ _ e, inr e)
              student_submissions max_concurrent api progress_callback Hmax Hcb)
    as [Hs Hsc].
  destruct (machine_in_range (evaluate_student_work_free_format_async_request ctx)
              evaluate_student_work_free_format_async_resume
              (λ student_name result, (student_name, inl result))
              (λ student_name e, (student_name, inr e))
              student_submissions max_concurrent api progress_callback Hmax Hcb)
    as [Hf Hfc].
  split; [exact Hs|]. split; [exact Hf|]. split.
  - intros events st c t name Hrun. by apply (Hsc events st Hrun).
  - intros events st c t name Hrun. by apply (Hfc events st Hrun).
Qed.

Lemma callback_only_hears_counts_in_range_witness :
  always_returns
    (evaluate_all_students_free_format_async sample_api sample_students
       sample_context 2 (Some update_progress))
    3
    [("Alice", inl "Bon travail.");
     ("Bob", inr (Exc "APITimeoutError" "Request timed out."));
     ("Chloé", inl "Bon travail.")].
Proof.
  apply (callback_only_hears_counts_in_range sample_decode sample_api
           sample_students sample_context 2 (Some update_progress)).
  - lia.
  - apply update_progress_in_range.
Defined.

(** *** Counter and calls, whatever the callback does *)

Lemma evaluate_with_semaphore_counts {Res Out}
    (on_success : string → Res → Out) on_failure items progress_callback
    student_name answer p :
  let p' := (evaluate_with_semaphore on_success on_failure items
               progress_callback student_name answer p).2 in
  match progress_callback with
  | None => completed p' = S (completed p) ∧ calls p' = calls p
  | Some _ =>
      (completed p' = S (completed p) ∧
       calls p' = calls p ++ [(S (completed p), length items, student_name)])
      ∨ (completed p' = S (S (completed p)) ∧
         calls p' = calls p ++ [(S (completed p), length items, student_name);
                                (S (S (completed p)), length items, student_name)])
  end.
Proof.
  unfold evaluate_with_semaphore, count_and_notify, total.
  destruct progress_callback as [callback|]; simpl.
  - destruct answer as [r|e]; simpl.
    + destruct (callback (S (completed p)) _ _); simpl; [|by left].
      right. destruct (callback (S (S (completed p))) _ _); simpl;
        by rewrite <- app_assoc.
    + left. by destruct (callback (S (completed p)) _ _).
  - by destruct answer.
Qed.

Lemma machine_counts {Res Out} request_of (resume : string → result string → result Res)
    (on_success : string → Res → Out) on_failure items max_concurrent
    progress_callback api events st :
  run {| start := initial items max_concurrent;
         next := step request_of resume on_success on_failure items
                   progress_callback api |} events = Some st →
  length (resumed events) ≤ completed (progress st) ≤ 2 * length (resumed events) ∧
  match progress_callback with
  | None => calls (progress st) = [] ∧
            completed (progress st) = length (resumed events)
  | Some _ => counts_in_step (length items) (progress st)
  end.
Proof.
  revert st. induction events as [|ev events IH] using rev_ind; intros st.
  - intros [= <-]. simpl. split; [lia|].
    destruct progress_callback; [|done]. split; [done|constructor].
  - rewrite run_snoc. destruct (run _ events) as [st0|]; [|done].
    simpl. intros Hstep. destruct (IH st0 eq_refl) as (Hbound & Hcalls).
    apply step_inv in Hstep as
      [(i & name & work & permits & -> & Ht & Hs & Hp & ->)
      |(i & request & name & work & r & p & -> & Ht & Hs & He & ->)]; simpl.
    + by rewrite resumed_snoc_enter.
    + rewrite resumed_snoc_resume, length_app. simpl.
      pose proof (evaluate_with_semaphore_counts on_success on_failure items
                    progress_callback name (resume name (api i)) (progress st0))
        as Hc.
      rewrite He in Hc. simpl in Hc. unfold counts_in_step in *.
      destruct progress_callback as [callback|].
      * destruct Hcalls as [Hseq Hall].
        destruct Hc as [[-> ->]|[-> ->]]; (split; [lia|]);
          rewrite fmap_app, Hseq, Forall_app, !seq_S, <- ?app_assoc.
        -- split; [done|]. split; [done|].
           repeat (apply List.Forall_cons; [reflexivity|]). apply List.Forall_nil.
        -- split; [reflexivity|]. split; [done|].
           repeat (apply List.Forall_cons; [reflexivity|]). apply List.Forall_nil.
      * destruct Hc as [-> ->]. destruct Hcalls as [-> ->].
        split; [lia|]. split; [done|lia].
Qed.

(** X7.  Counter and notification never get out of step, whatever the
    callback does: at every point of every run of either orchestrator
    the calls made so far carry the counts 1, 2, 3, ... up to the
    current value of [completed], without gap or repeat, each with the
    number of students as the total; the counter has advanced at least
    once and at most twice for each completed task; and without a
    callback no call is made and the counter is the number of completed
    tasks. *)
Theorem counter_and_calls_in_step json_decode api student_submissions ctx
    max_concurrent progress_callback events :
  (∀ st,
     run (evaluate_all_students_async json_decode api student_submissions ctx
            max_concurrent progress_callback) events = Some st →
     length (resumed events) ≤ completed (progress st)
       ≤ 2 * length (resumed events) ∧
     match progress_callback with
     | None => calls (progress st) = [] ∧
               completed (progress st) = length (resumed events)
     | Some _ => counts_in_step (length student_submissions) (progress st)
     end) ∧
  (∀ st,
     run (evaluate_all_students_free_format_async api student_submissions ctx
            max_concurrent progress_callback) events = Some st →
     length (resumed events) ≤ completed (progress st)
       ≤ 2 * length (resumed events) ∧
     match progress_callback with
     | None => calls (progress st) = [] ∧
               completed (progress st) = length (resumed events)
     | Some _ => counts_in_step (length student_submissions) (progress st)
     end).
Proof. split; intros st Hrun; by eapply machine_counts. Qed.

Lemma counter_and_calls_in_step_witness :
  ∃ st,
    run (evaluate_all_students_free_format_async sample_api sample_students
           sample_context 2 (Some flaky_callback)) sample_events = Some st ∧
    3 ≤ completed (progress st) ≤ 6 ∧
    counts_in_step 3 (progress st) ∧
    (λ c, c.1.1) <$> calls (progress st) = [1; 2; 3; 4].
Proof.
  destruct (run _ sample_events) as [st|] eqn:Hrun; [|by vm_compute in Hrun].
  exists st. split; [done|].
  destruct (counter_and_calls_in_step sample_decode sample_api sample_students
              sample_context 2 (Some flaky_callback) sample_events)
    as [_ Hfree].
  destruct (Hfree st Hrun) as [Hbound Hcounts].
  split; [exact Hbound|]. split; [exact Hcounts|].
  vm_compute in Hrun. injection Hrun as <-. reflexivity.
Defined.

(** *** Permits *)

Lemma finished_not_in_flight {Out} (st : State Out) :
  (∀ i t, tasks st !! i = Some t → is_finished t = true) → in_flight st = 0.
Proof.
  intros Hall. unfold in_flight.
  destruct (filter (λ t, is_calling t) (tasks st)) as [|t l] eqn:Hf; [done|].
  assert (Hin : t ∈ filter (λ t, is_calling t) (tasks st)) by (rewrite Hf; by left).
  apply list_elem_of_filter in Hin as [Hc Hin].
  apply list_elem_of_lookup in Hin as [i Hi]. apply Hall in Hi. by destruct t.
Qed.

(** X8.  No permit is leaked: in any state of any run of either
    orchestrator in which every task has finished, by returning or by
    letting an exception escape, the semaphore holds all
    [max_concurrent] permits again; and [gather] returning a list is
    such a state. *)
Theorem permits_all_returned json_decode api student_submissions ctx
    max_concurrent progress_callback events :
  (∀ st,
     run (evaluate_all_students_async json_decode api student_submissions ctx
            max_concurrent progress_callback) events = Some st →
     ((∀ i t, tasks st !! i = Some t → is_finished t = true) →
      semaphore st = max_concurrent) ∧
     (∀ outcomes, gather st = Some (Return outcomes) →
      semaphore st = max_concurrent)) ∧
  (∀ st,
     run (evaluate_all_students_free_format_async api student_submissions ctx
            max_concurrent progress_callback) events = Some st →
     ((∀ i t, tasks st !! i = Some t → is_finished t = true) →
      semaphore st = max_concurrent) ∧
     (∀ outcomes, gather st = Some (Return outcomes) →
      semaphore st = max_concurrent)).
Proof.
  assert (Hgather : ∀ Out (st : State Out) outcomes,
    gather st = Some (Return outcomes) →
    ∀ i t, tasks st !! i = Some t → is_finished t = true).
  { intros Out st outcomes Hg i t Hi. unfold gather in Hg.
    destruct (failure st); [done|].
    destruct (mapM _ (tasks st)) as [l|] eqn:Hm; [|done].
    apply mapM_Some in Hm.
    destruct (Forall2_lookup_l _ _ _ _ _ Hm Hi) as (o & _ & Ho).
    by destruct t. }
  split; intros st Hrun;
    destruct (run_invariant _ _ _ _ _ _ _ _ events st Hrun) as (_ & Hsem & _).
  all: split; [intros Hall|intros outcomes Hg;
                              pose proof (Hgather _ st outcomes Hg) as Hall].
  all: rewrite (finished_not_in_flight st Hall) in Hsem; lia.
Qed.

Lemma permits_all_returned_witness :
  ∃ st,
    run (evaluate_all_students_async sample_decode sample_api sample_students
           sample_context 2 (Some failing_callback))
        [Enter 0; Enter 1; Resume 0; Resume 1; Enter 2; Resume 2] = Some st ∧
    gather st = Some (Raise (Exc "RuntimeError" "progress bar is gone")) ∧
    semaphore st = 2.
Proof.
  destruct (run _ [Enter 0; Enter 1; Resume 0; Resume 1; Enter 2; Resume 2])
    as [st|] eqn:Hrun; [|by vm_compute in Hrun].
  exists st.
  destruct (permits_all_returned sample_decode sample_api sample_students
              sample_context 2 (Some failing_callback)
              [Enter 0; Enter 1; Resume 0; Resume 1; Enter 2; Resume 2])
    as [Hs _].
  destruct (Hs st Hrun) as [Hfin _].
  split; [done|].
  vm_compute in Hrun. injection Hrun as <-.
  split; [reflexivity|]. apply Hfin.
  intros [|[|[|i]]] t H; simpl in H; [by injection H as <-..|discriminate].
Defined.

(** *** Requests *)

Lemma machine_requests {Res Out} request_of (resume : string → result string → result Res)
    (on_success : string → Res → Out) on_failure items max_concurrent
    progress_callback api events st i request :
  run {| start := initial items max_concurrent;
         next := step request_of resume on_success on_failure items
                   progress_callback api |} events = Some st →
  tasks st !! i = Some (Calling request) →
  ∃ student_name student_work,
    items !! i = Some (student_name, student_work) ∧
    request = request_of student_name student_work.
Proof.
  revert st. induction events as [|ev events IH] using rev_ind; intros st.
  - intros [= <-]. unfold initial. simpl. rewrite list_lookup_fmap.
    destruct (items !! i); simpl; intros [=].
  - rewrite run_snoc. destruct (run _ events) as [st0|]; [|done].
    simpl. intros Hstep Hi. specialize (IH st0 eq_refl).
    apply step_inv in Hstep as
      [(j & name & work & permits & -> & Ht & Hs & Hp & ->)
      |(j & request' & name & work & r & p & -> & Ht & Hs & He & ->)];
      simpl in Hi.
    + apply list_lookup_insert_Some in Hi as [(-> & [= <-] & _)|[_ Hi]];
        [by exists name, work|by apply IH].
    + apply list_lookup_insert_Some in Hi as [(-> & Hr & _)|[_ Hi]];
        [by destruct r|by apply IH].
Qed.

Lemma build_evaluation_prompt_ends work grid kb ci :
  ∃ before, build_evaluation_prompt work grid kb ci = before +:+ work.
Proof.
  unfold build_evaluation_prompt.
  destruct (Str.truthy kb), (Str.truthy ci); apply StrFacts.join_snoc.
Qed.

Lemma free_format_prompt_ends name work grid kb ofi ci :
  ∃ before, free_format_prompt name work grid kb ofi ci = before +:+ work.
Proof.
  unfold free_format_prompt.
  destruct (Str.truthy grid), (Str.truthy kb), (Str.truthy ci);
    apply StrFacts.join_snoc.
Qed.



End OrchestratorMoreFacts.

(** ** The script: reading files and sorting results *)

Module MainScriptFacts.
Import ZipHandler LlmEvaluator MainScript StrFacts Utf8Facts StripFacts.

Lemma block_nonempty name text : block name text ≠ "".
Proof. done. Qed.

Section Reading.

Variables parse_pdf parse_docx parse_excel parse_html : bytes → result string.
Variable decode_utf8_replace : bytes → string.

Local Abbreviation parse_document :=
  (parse_document parse_pdf parse_docx parse_excel parse_html decode_utf8_replace).
Local Abbreviation parse_files :=
  (parse_files parse_pdf parse_docx parse_excel parse_html decode_utf8_replace).
Local Abbreviation parse_uploaded_files :=
  (parse_uploaded_files parse_pdf parse_docx parse_excel parse_html decode_utf8_replace).
Local Abbreviation read_evaluation_grid :=
  (read_evaluation_grid parse_pdf parse_docx parse_excel parse_html
                        decode_utf8_replace).
Local Abbreviation launch :=
  (launch parse_pdf parse_docx parse_excel parse_html decode_utf8_replace).
Local Abbreviation parse_students :=
  (parse_students parse_pdf parse_docx parse_excel parse_html decode_utf8_replace).
Local Abbreviation parsing_step :=
  (parsing_step parse_pdf parse_docx parse_excel parse_html decode_utf8_replace).
Local Abbreviation readable :=
  (readable parse_pdf parse_docx parse_excel parse_html decode_utf8_replace).
Local Abbreviation raises :=
  (raises parse_pdf parse_docx parse_excel parse_html decode_utf8_replace).
Local Abbreviation block_of :=
  (block_of parse_pdf parse_docx parse_excel parse_html decode_utf8_replace).
Local Abbreviation blocks :=
  (blocks parse_pdf parse_docx parse_excel parse_html decode_utf8_replace).
Local Abbreviation has_readable :=
  (has_readable parse_pdf parse_docx parse_excel parse_html decode_utf8_replace).
Local Abbreviation work_of :=
  (work_of parse_pdf parse_docx parse_excel parse_html decode_utf8_replace).

(** The loop returns the blocks of the files that gave text, in
    order, after what it was given, unless a parser raises; it then
    raises what the first such parser raised. *)
Lemma parse_files_spec files : ∀ contents,
  match parse_files files contents with
  | Return r => r = contents ++ blocks files ∧ ∀ f, f ∈ files → raises f = false
  | Raise e =>
      ∃ before f after, files = before ++ f :: after ∧
        (∀ g, g ∈ before → raises g = false) ∧
        parse_document f.1 f.2 = Raise e
  end.
Proof.
  induction files as [|[name content] rest IH]; intros contents.
  - simpl. rewrite app_nil_r. split; [done|]. intros f H. by apply elem_of_nil in H.
  - cbn [MainScript.parse_files].
    destruct (parse_document name content) as [parsed|e] eqn:Hp; cbn.
    + match goal with |- context [parse_files rest ?c] => specialize (IH c) end.
      assert (Hb : (match parsed with
                    | Some text => if Str.truthy text then contents ++ [block name text] else contents
                    | None => contents end) ++ blocks rest
                   = contents ++ blocks ((name, content) :: rest)).
      { unfold MainScript.blocks. cbn [omap list_omap]. unfold MainScript.block_of at 2.
        cbn [fst snd]. rewrite Hp.
        destruct parsed as [text|]; [|done].
        destruct (Str.truthy text); [|done]. by rewrite <- app_assoc. }
      destruct (parse_files rest _) as [r|e].
      * destruct IH as [-> Hall]. split; [done|].
        intros f [->|Hf]%elem_of_cons; [|by apply Hall].
        unfold MainScript.raises. cbn [fst snd]. by rewrite Hp.
      * destruct IH as (before & f & after & -> & Hbefore & Hf).
        exists ((name, content) :: before), f, after. split; [done|]. split; [|done].
        intros g [->|Hg]%elem_of_cons; [|by apply Hbefore].
        unfold MainScript.raises. cbn [fst snd]. by rewrite Hp.
    + exists [], (name, content), rest. split; [done|]. split; [|done].
      intros g H. by apply elem_of_nil in H.
Qed.

Lemma blocks_nonempty files b : b ∈ blocks files → b ≠ "".
Proof.
  unfold MainScript.blocks. rewrite list_elem_of_omap. intros (f & _ & Hf).
  unfold MainScript.block_of in Hf.
  destruct (parse_document f.1 f.2) as [[text|]|]; [|done..].
  destruct (Str.truthy text); [|done]. injection Hf as <-. apply block_nonempty.
Qed.

Lemma block_of_readable f : is_Some (block_of f) ↔ readable f = true.
Proof.
  unfold MainScript.block_of, MainScript.readable, truthy_text.
  destruct (parse_document f.1 f.2) as [[text|]|]; simpl.
  all: try destruct (Str.truthy text).
  all: split; first [done | by intros [? ?] | by eexists].
Qed.

Lemma blocks_nil files : blocks files = [] ↔ ∀ f, f ∈ files → readable f = false.
Proof.
  induction files as [|f rest IH].
  - split; [|done]. intros _ f H. by apply elem_of_nil in H.
  - unfold MainScript.blocks. cbn [omap list_omap].
    pose proof (block_of_readable f) as Hr.
    destruct (block_of f) as [b|] eqn:Hb.
    + split; [done|]. intros H. specialize (H f (list_elem_of_here _ _)).
      destruct Hr as [Hr _]. rewrite Hr in H; [done|by eexists].
    + fold (blocks rest). rewrite IH. split.
      * intros H g Hg. apply elem_of_cons in Hg as [Hg|Hg]; [subst g|by apply H].
        destruct (readable f) eqn:Hf; [|done].
        destruct Hr as [_ Hr]. by destruct (Hr eq_refl).
      * intros H g Hg. apply H. by right.
Qed.

(** *** The evaluation grid *)

Lemma parse_uploaded_files_spec files :
  match parse_uploaded_files files with
  | Return text =>
      text = Str.join (nl +:+ nl) (blocks files) ∧
      ∀ f, f ∈ files → raises f = false
  | Raise e =>
      ∃ before f after, files = before ++ f :: after ∧
        (∀ g, g ∈ before → raises g = false) ∧
        parse_document f.1 f.2 = Raise e
  end.
Proof.
  destruct files as [|f rest].
  - split; [done|]. intros f H. by apply elem_of_nil in H.
  - unfold MainScript.parse_uploaded_files.
    pose proof (parse_files_spec (f :: rest) []) as H.
    destruct (parse_files (f :: rest) []) as [r|e]; [|done].
    destruct H as [-> H]. done.
Qed.

(** What the reading of the grid gives, in the words of the code. *)
Lemma read_evaluation_grid_spec eval_grid_files eval_grid_text :
  match read_evaluation_grid eval_grid_files eval_grid_text with
  | GridRead eval_grid_content =>
      eval_grid_content
      = Str.join (nl +:+ nl) (blocks eval_grid_files ++ typed eval_grid_text) ∧
      eval_grid_content ≠ "" ∧
      (∀ f, f ∈ eval_grid_files → raises f = false) ∧
      ((∃ f, f ∈ eval_grid_files ∧ readable f = true) ∨
       Str.strip eval_grid_text ≠ "")
  | GridStopped message =>
      message = "❌ Impossible de lire la grille d'évaluation." ∧
      (∀ f, f ∈ eval_grid_files → raises f = false) ∧
      (∀ f, f ∈ eval_grid_files → readable f = false) ∧
      Str.strip eval_grid_text = ""
  | GridUncaught e =>
      ∃ before f after, eval_grid_files = before ++ f :: after ∧
        (∀ g, g ∈ before → raises g = false) ∧
        parse_document f.1 f.2 = Raise e
  end.
Proof.
  unfold MainScript.read_evaluation_grid.
  assert (Hfiles :
    match (match eval_grid_files with
           | [] => Return []
           | _ => files_content ← parse_uploaded_files eval_grid_files;
                  Return (if Str.truthy files_content then [files_content] else [])
           end) with
    | Return parts =>
        Str.join (nl +:+ nl) (parts ++ typed eval_grid_text)
        = Str.join (nl +:+ nl) (blocks eval_grid_files ++ typed eval_grid_text) ∧
        (∀ f, f ∈ eval_grid_files → raises f = false)
    | Raise e =>
        ∃ before f after, eval_grid_files = before ++ f :: after ∧
          (∀ g, g ∈ before → raises g = false) ∧
          parse_document f.1 f.2 = Raise e
    end).
  { pose proof (parse_uploaded_files_spec eval_grid_files) as H.
    destruct eval_grid_files as [|f rest].
    { split; [done|]. intros f Hf. by apply elem_of_nil in Hf. }
    destruct (parse_uploaded_files (f :: rest)) as [text|e]; [|done].
    destruct H as [-> Hall]. set (bs := blocks (f :: rest)).
    cbn [mbind result_bind]. split; [|done].
    destruct (Str.truthy (Str.join (nl +:+ nl) bs)) eqn:Ht.
    - unfold typed. destruct (Str.truthy (Str.strip eval_grid_text)).
      + apply join_join. by intros ->.
      + by rewrite !app_nil_r.
    - assert (bs = []) as ->; [|done].
      apply (join_empty (nl +:+ nl)); [apply blocks_nonempty|].
      by destruct (Str.join (nl +:+ nl) bs). }
  match goal with
  | H : match ?m with _ => _ end |- _ => destruct m as [parts|e]; [|done]
  end.
  destruct Hfiles as [Hjoin Hall].
  assert (Hparts : (if Str.truthy (Str.strip eval_grid_text)
                    then parts ++ [typed_block eval_grid_text] else parts)
                   = parts ++ typed eval_grid_text).
  { unfold typed. destruct (Str.truthy (Str.strip eval_grid_text)); [done|].
    by rewrite app_nil_r. }
  rewrite Hparts, Hjoin. clear Hparts Hjoin.
  assert (Hne : ∀ x, x ∈ blocks eval_grid_files ++ typed eval_grid_text → x ≠ "").
  { intros x [Hx|Hx]%elem_of_app; [by eapply blocks_nonempty|].
    unfold typed in Hx. destruct (Str.truthy (Str.strip eval_grid_text)).
    - apply list_elem_of_singleton in Hx as ->. done.
    - by apply elem_of_nil in Hx. }
  destruct (Str.truthy (Str.join _ _)) eqn:Ht.
  - split; [done|]. split; [by intros Heq; rewrite Heq in Ht|]. split; [done|].
    destruct (Str.strip eval_grid_text) eqn:Hs; [|by right]. left.
    unfold typed in Ht. rewrite Hs, app_nil_r in Ht. cbn [Str.truthy] in Ht.
    destruct (blocks eval_grid_files) as [|b bs] eqn:Hb; [done|].
    assert (Hin : b ∈ blocks eval_grid_files) by (rewrite Hb; left).
    unfold MainScript.blocks in Hin.
    apply list_elem_of_omap in Hin as (f & Hf & Hbf).
    exists f. split; [done|]. apply block_of_readable. by eexists.
  - split; [done|]. split; [done|].
    assert (Hnil : blocks eval_grid_files ++ typed eval_grid_text = []).
    { apply (join_empty (nl +:+ nl)); [done|].
      by destruct (Str.join _ _). }
    apply app_eq_nil in Hnil as [Hb Hty]. split; [by apply blocks_nil|].
    unfold typed in Hty. by destruct (Str.strip eval_grid_text).
Qed.

Lemma typed_typed_part text : typed_part text (typed text).
Proof.
  unfold typed, typed_part.
  destruct (Str.truthy (Str.strip text)) eqn:Ht.
  - right. split.
    + intros Hb. apply truthy_strip in Hb. by rewrite Hb in Ht.
    + exists (Str.strip text). split; [apply strip_trims|].
      split; [|done]. intros E. by rewrite E in Ht.
  - left. split; [|done]. by apply truthy_strip.
Qed.

Lemma not_truthy_strip s : Str.truthy (Str.strip s) = true ↔ ¬ Str.blank s.
Proof.
  rewrite <- truthy_strip. by destruct (Str.truthy (Str.strip s)).
Qed.

Lemma launch_validated output_format eval_grid_files eval_grid_text
    output_format_instructions student_zip :
  validated output_format eval_grid_files eval_grid_text
    output_format_instructions student_zip →
  launch output_format eval_grid_files eval_grid_text
    output_format_instructions student_zip
  = read_evaluation_grid eval_grid_files eval_grid_text.
Proof.
  intros (Hgrid & Hinstr & Hzip). unfold MainScript.launch.
  destruct student_zip as [zip|]; [|done].
  destruct output_format.
  - destruct Hgrid as [Hf|Ht]; [done| |].
    + by destruct eval_grid_files.
    + apply not_truthy_strip in Ht. rewrite Ht. by destruct eval_grid_files.
  - destruct Hgrid as [Hf|Ht]; [done| |].
    + by destruct eval_grid_files.
    + apply not_truthy_strip in Ht. rewrite Ht. by destruct eval_grid_files.
  - specialize (Hinstr eq_refl). apply not_truthy_strip in Hinstr.
    by rewrite Hinstr.
Qed.

(** X10.  The handler of the evaluation button, from the validations
    to the check of the grid.  With a structured format, no grid file
    and a blank grid text, it stops and asks for a grid; with the free
    format and blank instructions, it stops and asks for instructions;
    past these, without an archive, it stops and asks for the archive.
    Once the three validations pass, the grid it goes on with is the
    blocks of the uploaded files that gave text, in upload order,
    followed by the typed text without the white space around it when
    it is not blank, separated by blank lines; a file whose parser
    raises is not skipped: the exception of the first such file leaves
    the script.  The script stops with the "cannot read the grid"
    message exactly when the validations pass, no parser raises, no
    file gave text and the typed text is blank.  Blank is meant as
    Python's [str.strip] has it. *)
Theorem evaluation_grid_reading output_format eval_grid_files eval_grid_text
    output_format_instructions student_zip :
  let outcome := launch output_format eval_grid_files eval_grid_text
                   output_format_instructions student_zip in
  let no_grid := eval_grid_files = [] ∧ Str.blank eval_grid_text in
  let no_instructions := Str.blank output_format_instructions in
  (output_format ≠ word_free → no_grid →
   outcome = GridStopped
     "❌ Veuillez fournir une grille d'évaluation (fichier ou texte).") ∧
  (output_format = word_free → no_instructions →
   outcome = GridStopped
     "❌ Veuillez fournir des instructions pour le format de sortie.") ∧
  ((output_format ≠ word_free → ¬ no_grid) →
   (output_format = word_free → ¬ no_instructions) →
   student_zip = None →
   outcome = GridStopped
     "❌ Veuillez uploader le fichier ZIP des travaux étudiants.") ∧
  (validated output_format eval_grid_files eval_grid_text
     output_format_instructions student_zip →
   match outcome with
   | GridRead eval_grid_content =>
       (∃ part, typed_part eval_grid_text part ∧
          eval_grid_content
          = Str.join (nl +:+ nl) (blocks eval_grid_files ++ part)) ∧
       eval_grid_content ≠ "" ∧
       (∀ f, f ∈ eval_grid_files → raises f = false) ∧
       ((∃ f, f ∈ eval_grid_files ∧ readable f = true) ∨
        ¬ Str.blank eval_grid_text)
   | GridStopped message =>
       message = "❌ Impossible de lire la grille d'évaluation." ∧
       (∀ f, f ∈ eval_grid_files → raises f = false) ∧
       (∀ f, f ∈ eval_grid_files → readable f = false) ∧
       Str.blank eval_grid_text
   | GridUncaught e =>
       ∃ before f after, eval_grid_files = before ++ f :: after ∧
         (∀ g, g ∈ before → raises g = false) ∧
         parse_document f.1 f.2 = Raise e
   end) ∧
  (outcome = GridStopped "❌ Impossible de lire la grille d'évaluation."
   ↔ validated output_format eval_grid_files eval_grid_text
       output_format_instructions student_zip ∧
     (∀ f, f ∈ eval_grid_files → raises f = false) ∧
     (∀ f, f ∈ eval_grid_files → readable f = false) ∧
     Str.blank eval_grid_text).
Proof.
  intros outcome no_grid no_instructions.
  assert (Hvalid :
    validated output_format eval_grid_files eval_grid_text
      output_format_instructions student_zip →
    match outcome with
    | GridRead eval_grid_content =>
        (∃ part, typed_part eval_grid_text part ∧
           eval_grid_content
           = Str.join (nl +:+ nl) (blocks eval_grid_files ++ part)) ∧
        eval_grid_content ≠ "" ∧
        (∀ f, f ∈ eval_grid_files → raises f = false) ∧
        ((∃ f, f ∈ eval_grid_files ∧ readable f = true) ∨
         ¬ Str.blank eval_grid_text)
    | GridStopped message =>
        message = "❌ Impossible de lire la grille d'évaluation." ∧
        (∀ f, f ∈ eval_grid_files → raises f = false) ∧
        (∀ f, f ∈ eval_grid_files → readable f = false) ∧
        Str.blank eval_grid_text
    | GridUncaught e =>
        ∃ before f after, eval_grid_files = before ++ f :: after ∧
          (∀ g, g ∈ before → raises g = false) ∧
          parse_document f.1 f.2 = Raise e
    end).
  { intros Hv. subst outcome. rewrite (launch_validated _ _ _ _ _ Hv).
    pose proof (read_evaluation_grid_spec eval_grid_files eval_grid_text) as H.
    destruct (read_evaluation_grid eval_grid_files eval_grid_text)
      as [e|message|content]; [done| |].
    - destruct H as (Hm & Hr & Hn & Hs). split; [done|]. split; [done|].
      split; [done|]. by apply strip_blank.
    - destruct H as (Hc & Hne & Hr & Hsome). split; [|split; [done|]].
      + exists (typed eval_grid_text). split; [apply typed_typed_part|done].
      + split; [done|]. destruct Hsome as [Hf|Hs]; [by left|right].
        intros Hb. by apply strip_blank in Hb. }
  assert (Hgrid : output_format ≠ word_free → no_grid →
    outcome = GridStopped
      "❌ Veuillez fournir une grille d'évaluation (fichier ou texte).").
  { intros Hf [-> Hb]. apply truthy_strip in Hb. subst outcome.
    unfold MainScript.launch. rewrite Hb. by destruct output_format. }
  assert (Hinstr : output_format = word_free → no_instructions →
    outcome = GridStopped
      "❌ Veuillez fournir des instructions pour le format de sortie.").
  { intros -> Hb. apply truthy_strip in Hb. subst outcome.
    unfold MainScript.launch. by rewrite Hb. }
  assert (Hzip : (output_format ≠ word_free → ¬ no_grid) →
    (output_format = word_free → ¬ no_instructions) →
    student_zip = None →
    outcome = GridStopped
      "❌ Veuillez uploader le fichier ZIP des travaux étudiants.").
  { intros Hg Hi ->. subst outcome no_grid no_instructions.
    unfold MainScript.launch.
    destruct output_format.
    - destruct eval_grid_files; [|done].
      destruct (Str.truthy (Str.strip eval_grid_text)) eqn:Ht; [done|].
      exfalso. apply Hg; [done|]. split; [done|]. by apply truthy_strip.
    - destruct eval_grid_files; [|done].
      destruct (Str.truthy (Str.strip eval_grid_text)) eqn:Ht; [done|].
      exfalso. apply Hg; [done|]. split; [done|]. by apply truthy_strip.
    - destruct (Str.truthy (Str.strip output_format_instructions)) eqn:Ht;
        [done|].
      exfalso. apply Hi; [done|]. by apply truthy_strip. }
  split; [done|]. split; [done|]. split; [done|]. split; [done|].
  split.
  - intros Hstop.
    assert (Hv : validated output_format eval_grid_files eval_grid_text
                   output_format_instructions student_zip).
    { unfold validated. split; [|split].
      - intros Hf.
        destruct eval_grid_files as [|f rest]; [|by left]. right.
        intros Hb. rewrite Hgrid in Hstop; done.
      - intros Hf Hb. rewrite Hinstr in Hstop; done.
      - intros Hz.
        assert (Hg : output_format ≠ word_free → ¬ no_grid).
        { intros Hf Hn. rewrite Hgrid in Hstop; done. }
        assert (Hi : output_format = word_free → ¬ no_instructions).
        { intros Hf Hn. rewrite Hinstr in Hstop; done. }
        rewrite Hzip in Hstop; done. }
    split; [done|]. specialize (Hvalid Hv). rewrite Hstop in Hvalid.
    by destruct Hvalid as (_ & ? & ? & ?).
  - intros (Hv & Hr & Hn & Hb). specialize (Hvalid Hv).
    destruct outcome as [e|message|content].
    + destruct Hvalid as (before & f & after & -> & _ & Hf).
      specialize (Hr f). unfold MainScript.raises in Hr. rewrite Hf in Hr.
      discriminate Hr. apply elem_of_app. right. by left.
    + by destruct Hvalid as (-> & _).
    + destruct Hvalid as (_ & _ & _ & [(f & Hf & Hrd)|Hnb]); [|done].
      rewrite (Hn f Hf) in Hrd. done.
Qed.

(** The grid of the samples: a typed text between a no-break space and
    a line feed, and no file. *)
Lemma typed_grid_sample :
  MainScript.launch sample_parse_pdf sample_parse_other sample_parse_other
    sample_parse_other sample_decode_text excel []
    (nbsp +:+ "Critère 1" +:+ nl) "" (Some [x50; x4b])
  = GridRead ("=== Texte saisi ===" +:+ nl +:+ "Critère 1").
Proof. by vm_compute. Qed.
(** *** The students' files *)

Lemma dict_set_fresh {V} key (value : V) d :
  key ∉ d.*1 → dict_set key value d = d ++ [(key, value)].
Proof.
  induction d as [|[k v] d IH]; [done|]. intros Hk.
  apply not_elem_of_cons in Hk as [Hne Hk]. cbn [dict_set].
  destruct (decide (k = key)) as [->|_]; [done|]. by rewrite IH.
Qed.

Lemma has_readable_blocks item : has_readable item = true ↔ blocks item.2 ≠ [].
Proof.
  unfold MainScript.has_readable. rewrite blocks_nil, existsb_exists. split.
  - intros (f & Hf & Hr) H. apply list_elem_of_In in Hf.
    specialize (H f Hf). congruence.
  - intros H. destruct (existsb readable item.2) eqn:He.
    + by apply existsb_exists.
    + exfalso. apply H. intros f Hf. destruct (readable f) eqn:Hr; [|done].
      assert (existsb readable item.2 = true); [|congruence].
      apply existsb_exists. exists f. by rewrite <- list_elem_of_In.
Qed.

Lemma parse_students_spec items : ∀ parsed warnings,
  NoDup (parsed.*1 ++ items.*1) →
  match parse_students items parsed warnings with
  | Return (parsed_submissions, shown) =>
      parsed_submissions
      = parsed ++ (work_of <$> filter (λ item, has_readable item) items) ∧
      shown
      = warnings ++ (warning_of <$> filter (λ item, ¬ has_readable item) items) ∧
      ∀ item f, item ∈ items → f ∈ item.2 → raises f = false
  | Raise e =>
      ∃ item f, item ∈ items ∧ f ∈ item.2 ∧ parse_document f.1 f.2 = Raise e
  end.
Proof.
  induction items as [|[student_name files] rest IH]; intros parsed warnings Hnd.
  - cbn. rewrite !app_nil_r. split; [done|]. split; [done|].
    intros item f H. by apply elem_of_nil in H.
  - cbn [MainScript.parse_students].
    pose proof (parse_files_spec files []) as Hfiles.
    pose proof (has_readable_blocks (student_name, files)) as Hread.
    cbn [snd] in Hread.
    destruct (parse_files files []) as [parts|e]; cbn [mbind result_bind].
    + destruct Hfiles as [-> Hfiles]. cbn [app].
      destruct (blocks files) as [|b bs] eqn:Hb.
      * assert (Hno : has_readable (student_name, files) = false).
        { destruct (has_readable (student_name, files)); [|done].
          by destruct Hread as [Hread _]; destruct (Hread eq_refl). }
        specialize (IH parsed
                      (warnings ++ ["⚠️ Aucun fichier lisible pour " +:+ student_name])).
        destruct (parse_students rest parsed _) as [[p w]|e].
        -- destruct IH as (-> & -> & Hall).
           { rewrite fmap_cons in Hnd. apply NoDup_app in Hnd as (H1 & H2 & H3).
             apply NoDup_app. split; [done|]. split.
             - intros x Hx Hr. apply (H2 x Hx). by right.
             - by apply NoDup_cons in H3 as [_ H3]. }
           rewrite filter_cons_False by (rewrite Hno; tauto).
           rewrite filter_cons_True by (rewrite Hno; tauto).
           split; [done|]. split; [by rewrite <- app_assoc|].
           intros item f [->|Hi]%elem_of_cons Hf; [by apply Hfiles|by eapply Hall].
        -- destruct IH as (item & f & Hi & Hf & Hr).
           { rewrite fmap_cons in Hnd. apply NoDup_app in Hnd as (H1 & H2 & H3).
             apply NoDup_app. split; [done|]. split.
             - intros x Hx Hr. apply (H2 x Hx). by right.
             - by apply NoDup_cons in H3 as [_ H3]. }
           exists item, f. split; [by right|done].
      * assert (Hyes : has_readable (student_name, files) = true).
        { by apply Hread. }
        rewrite dict_set_fresh.
        2:{ rewrite fmap_cons in Hnd. apply NoDup_app in Hnd as (_ & H2 & _).
            intros Hin. apply (H2 _ Hin). by left. }
        specialize (IH (parsed ++ [(student_name, Str.join (nl +:+ nl) (b :: bs))])
                      warnings).
        destruct (parse_students rest _ warnings) as [[p w]|e].
        -- destruct IH as (-> & -> & Hall).
           { rewrite fmap_cons in Hnd. rewrite fmap_app, <- app_assoc. done. }
           rewrite filter_cons_True by (rewrite Hyes; done).
           rewrite filter_cons_False by (rewrite Hyes; intros H; by apply H).
           rewrite fmap_cons. unfold MainScript.work_of at 2. cbn [fst snd].
           rewrite Hb. split; [by rewrite <- app_assoc|]. split; [done|].
           intros item f [->|Hi]%elem_of_cons Hf; [by apply Hfiles|by eapply Hall].
        -- destruct IH as (item & f & Hi & Hf & Hr).
           { rewrite fmap_cons in Hnd. rewrite fmap_app, <- app_assoc. done. }
           exists item, f. split; [by right|done].
    + destruct Hfiles as (before & f & after & -> & _ & Hr).
      exists (student_name, before ++ f :: after), f.
      split; [by left|]. split; [|done].
      apply elem_of_app. right. by left.
Qed.

Lemma filter_all {A} (P : A → Prop) `{∀ x, Decision (P x)} (l : list A) :
  (∀ x, x ∈ l → P x) → filter P l = l.
Proof.
  induction l as [|a l IH]; [done|]. intros Hall.
  rewrite filter_cons_True by (apply Hall; by left).
  rewrite IH; [done|]. intros x Hx. apply Hall. by right.
Qed.

(** X11.  The parsing of the students' files, for the items of a
    dictionary (distinct names): the students the script goes on to
    evaluate are exactly those with a file that gave text, in the order
    of the dictionary, each with the blocks of those files separated by
    blank lines, a text that is never empty; every other student gets
    one warning and is dropped; the script stops with the "no readable
    work" message exactly when no student has such a file; and a file
    whose parser raises is not skipped: the exception leaves the
    script. *)
Theorem student_parsing items :
  NoDup items.*1 →
  match parsing_step items with
  | Evaluates parsed_submissions warnings =>
      parsed_submissions = work_of <$> filter (λ item, has_readable item) items ∧
      warnings = warning_of <$> filter (λ item, ¬ has_readable item) items ∧
      parsed_submissions ≠ [] ∧
      NoDup parsed_submissions.*1 ∧
      Forall (λ kv, kv.2 ≠ "") parsed_submissions ∧
      length parsed_submissions + length warnings = length items ∧
      ∀ item f, item ∈ items → f ∈ item.2 → raises f = false
  | ParseStopped message warnings =>
      message = "❌ Aucun travail lisible trouvé." ∧
      (∀ item, item ∈ items → has_readable item = false) ∧
      warnings = warning_of <$> items
  | ParseUncaught e =>
      ∃ item f, item ∈ items ∧ f ∈ item.2 ∧ parse_document f.1 f.2 = Raise e
  end.
Proof.
  intros Hnd. unfold MainScript.parsing_step.
  pose proof (parse_students_spec items [] []) as H. cbn [fmap list_fmap app] in H.
  specialize (H Hnd).
  destruct (parse_students items [] []) as [[p w]|e]; [|done].
  destruct H as (-> & -> & Hall). cbn [app].
  destruct (work_of <$> filter (λ item, has_readable item) items) as [|kv p] eqn:Hp.
  - apply fmap_nil_inv in Hp. split; [done|].
    assert (Hno : ∀ item, item ∈ items → has_readable item = false).
    { intros item Hi. destruct (has_readable item) eqn:Hr; [|done].
      exfalso. eapply (filter_nil_not_elem_of _ _ item Hp); [|done]. by rewrite Hr. }
    split; [done|]. f_equal. apply filter_all.
    intros item Hi. rewrite (Hno item Hi). tauto.
  - split; [done|]. split; [done|]. split; [done|]. rewrite <- Hp. clear kv p Hp.
    split; [|split; [|split; [|done]]].
    + rewrite <- list_fmap_compose.
      apply (sublist_NoDup _ items.*1); [done|].
      apply fmap_sublist, sublist_filter.
    + apply Forall_fmap, Forall_forall. intros item Hi.
      apply list_elem_of_filter in Hi as [Hr _]. cbn [snd MainScript.work_of].
      intros Hj. apply join_empty in Hj; [|apply blocks_nonempty].
      apply Is_true_true in Hr. by apply has_readable_blocks in Hr.
    + rewrite !length_fmap, <- length_app.
      apply Permutation_length, filter_app_complement.
Qed.

End Reading.

Lemma student_parsing_witness :
  match MainScript.parsing_step sample_parse_pdf sample_parse_other
          sample_parse_other sample_parse_other sample_decode_text sample_items with
  | Evaluates parsed_submissions warnings =>
      parsed_submissions.*1 = ["Alice"; "Chloé"] ∧
      warnings = ["⚠️ Aucun fichier lisible pour Bob"]
  | _ => False
  end.
Proof.
  pose proof (student_parsing sample_parse_pdf sample_parse_other
                sample_parse_other sample_parse_other sample_decode_text
                sample_items) as H.
  destruct (MainScript.parsing_step _ _ _ _ _ sample_items) as [e|m w|p w] eqn:Hs;
    [by vm_compute in Hs..|].
  destruct H as (-> & -> & _).
  { apply (bool_decide_unpack _). by vm_compute. }
  by vm_compute.
Defined.

(** *** The results of the evaluation *)

Lemma omap_imap {A B C} (f : B → option C) (l : list A) :
  ∀ (g : nat → A → B) (h : nat → A → option C),
    (∀ i x, f (g i x) = h i x) →
    omap f (imap g l) = omap id (imap h l).
Proof.
  induction l as [|a l IH]; intros g h Hfg; [done|].
  rewrite !imap_cons. cbn [omap list_omap id]. rewrite Hfg.
  by rewrite (IH (g ∘ S) (h ∘ S) (λ i x, Hfg (S i) x)).
Qed.

Lemma elem_of_omap_imap {A B} (l : list A) (f : nat → A → option B) y :
  y ∈ omap id (imap f l) ↔ ∃ i x, l !! i = Some x ∧ f i x = Some y.
Proof.
  rewrite list_elem_of_omap. split.
  - intros (o & Ho & Hy). apply list_elem_of_lookup in Ho as [i Hi].
    rewrite list_lookup_imap in Hi.
    destruct (l !! i) as [x|] eqn:Hx; [|done]. injection Hi as <-.
    by exists i, x.
  - intros (i & x & Hx & Hy). exists (Some y). split; [|done].
    apply list_elem_of_lookup. exists i. by rewrite list_lookup_imap, Hx, <- Hy.
Qed.

(** Two selections that split a list between them. *)
Lemma omap_imap_split {A B C} (l : list A) :
  ∀ (f : nat → A → option B) (g : nat → A → option C),
    (∀ i x, l !! i = Some x → is_Some (f i x) ↔ g i x = None) →
    length (omap id (imap f l)) + length (omap id (imap g l)) = length l.
Proof.
  induction l as [|a l IH]; intros f g Hfg; [done|].
  rewrite !imap_cons. cbn [omap list_omap id length].
  specialize (IH (f ∘ S) (g ∘ S) (λ i x Hx, Hfg (S i) x Hx)).
  pose proof (Hfg 0 a eq_refl) as [H1 H2].
  destruct (f 0 a) as [b|], (g 0 a) as [c|]; cbn [length].
  - by specialize (H1 (ltac:(by eexists))).
  - lia.
  - lia.
  - by destruct (H2 eq_refl).
Qed.

(** A selection keeps the order. *)
Lemma omap_imap_sublist {A B C} (h : B → C) (k : A → C) (l : list A) :
  ∀ (f : nat → A → option B),
    (∀ i x y, f i x = Some y → h y = k x) →
    h <$> omap id (imap f l) `sublist_of` k <$> l.
Proof.
  induction l as [|a l IH]; intros f Hf; [done|].
  rewrite imap_cons. cbn [omap list_omap id]. rewrite fmap_cons.
  specialize (IH (f ∘ S) (λ i x y, Hf (S i) x y)).
  destruct (f 0 a) as [b|] eqn:Hb.
  - rewrite fmap_cons, (Hf 0 a b Hb). by apply sublist_skip.
  - by apply sublist_cons.
Qed.

Lemma sort_free_results_spec results : ∀ free_evaluations errors,
  sort_free_results results free_evaluations errors
  = (free_evaluations
     ++ omap (λ r, match r.2 with inl result => Some (r.1, result) | inr _ => None end)
             results,
     errors
     ++ omap (λ r, match r.2 with inl _ => None | inr e => Some (error_of r.1 e) end)
             results).
Proof.
  induction results as [|[name [result|e]] rest IH]; intros free errors.
  - by rewrite !app_nil_r.
  - cbn [sort_free_results omap list_omap fst snd]. rewrite IH.
    by rewrite <- app_assoc.
  - cbn [sort_free_results omap list_omap fst snd]. rewrite IH.
    by rewrite <- app_assoc.
Qed.

Lemma sort_results_spec results : ∀ evaluations errors,
  sort_results results evaluations errors
  = (evaluations
     ++ omap (λ r, match r with inl result => Some result | inr _ => None end) results,
     errors
     ++ omap (λ r, match r with
                   | inl _ => None
                   | inr e => Some ("❌ Erreur: " +:+ str_exception e)
                   end) results).
Proof.
  induction results as [|[result|e] rest IH]; intros evaluations errors.
  - by rewrite !app_nil_r.
  - cbn [sort_results omap list_omap]. rewrite IH. by rewrite <- app_assoc.
  - cbn [sort_results omap list_omap]. rewrite IH. by rewrite <- app_assoc.
Qed.

Lemma offer_nothing {A} (evaluations : list A) message :
  offer evaluations = NothingEvaluated message → evaluations = [].
Proof. by destruct evaluations. Qed.

Import OrchestratorFacts OrchestratorMore OrchestratorMoreFacts.

(** What [asyncio.run] hands to the script, whatever the schedule. *)
Lemma handed_over {Res Out} request_of (resume : string → result string → result Res)
    (on_success : string → Res → Out) on_failure student_submissions
    max_concurrent api events st results :
  run {| start := initial student_submissions max_concurrent;
         next := step request_of resume on_success on_failure
                   student_submissions (Some update_progress) api |} events
  = Some st →
  gather st = Some (Return results) →
  results = imap (λ i item, capture on_success on_failure item.1
                              (resume item.1 (api i))) student_submissions.
Proof.
  intros Hrun Hg.
  rewrite (run_quieted request_of resume on_success on_failure
             student_submissions max_concurrent api (Some update_progress)
             events update_progress_in_range) in Hrun.
  pose proof (run_result request_of resume on_success on_failure
                student_submissions max_concurrent
                (quieted (Some update_progress)) api events st _
                (returns_normally_quieted _) Hrun Hg) as H.
  by injection H.
Qed.

(** X12.  After a free-form evaluation, every student is accounted for
    once: whatever the schedule, the list the export receives holds the
    students whose call was answered, in input order, each with that
    answer, and every other student gets one error message with the name
    and the text of the exception.  The script reports that nothing
    could be evaluated exactly when every call failed. *)
Theorem free_form_results_accounted api student_submissions ctx max_concurrent
    events st results :
  run (evaluate_all_students_free_format_async api student_submissions ctx
         max_concurrent (Some update_progress)) events = Some st →
  gather st = Some (Return results) →
  sort_free_results results [] []
  = (answered api student_submissions, failed api student_submissions) ∧
  length (answered api student_submissions)
  + length (failed api student_submissions) = length student_submissions ∧
  (answered api student_submissions).*1 `sublist_of` student_submissions.*1 ∧
  (∀ student_name content,
     (student_name, content) ∈ answered api student_submissions ↔
     ∃ i work, student_submissions !! i = Some (student_name, work) ∧
               api i = Return content) ∧
  (∀ message,
     message ∈ failed api student_submissions ↔
     ∃ i student_name work e,
       student_submissions !! i = Some (student_name, work) ∧
       api i = Raise e ∧ message = error_of student_name e) ∧
  (offer (answered api student_submissions)
   = NothingEvaluated "❌ Aucune évaluation n'a pu être effectuée." ↔
   ∀ i, i < length student_submissions → ∃ e, api i = Raise e).
Proof.
  intros Hrun Hg.
  pose proof (handed_over _ _ _ _ _ _ _ _ _ _ Hrun Hg) as ->.
  split; [|split; [|split; [|split; [|split]]]].
  - rewrite sort_free_results_spec. cbn [app].
    unfold answered, failed. f_equal.
    + apply omap_imap. intros i [name work]. cbn [fst].
      by destruct (api i).
    + apply omap_imap. intros i [name work]. cbn [fst].
      by destruct (api i).
  - apply omap_imap_split. intros i item _.
    destruct (api i); split; first [done | by eexists | by intros [? ?]].
  - apply omap_imap_sublist. intros i item y H.
    destruct (api i); [|done]. by injection H as <-.
  - intros name content. unfold answered. rewrite elem_of_omap_imap. split.
    + intros (i & [n work] & Hi & H). destruct (api i) eqn:Ha; [|done].
      injection H as -> ->. by exists i, work.
    + intros (i & work & Hi & Ha). exists i, (name, work). by rewrite Ha.
  - intros message. unfold failed. rewrite elem_of_omap_imap. split.
    + intros (i & [n work] & Hi & H). destruct (api i) as [|e] eqn:Ha; [done|].
      injection H as <-. by exists i, n, work, e.
    + intros (i & name & work & e & Hi & Ha & ->). exists i, (name, work).
      by rewrite Ha.
  - split.
    + intros H%offer_nothing i Hi.
      destruct (lookup_lt_is_Some_2 _ _ Hi) as [[name work] Hl].
      destruct (api i) as [content|e] eqn:Ha; [|by exists e]. exfalso.
      assert (Hin : (name, content) ∈ answered api student_submissions).
      { unfold answered. apply elem_of_omap_imap. exists i, (name, work).
        by rewrite Ha. }
      rewrite H in Hin. by apply elem_of_nil in Hin.
    + intros Hall.
      destruct (answered api student_submissions) as [|[name content] l] eqn:Han;
        [done|]. exfalso.
      assert (Hin : (name, content) ∈ answered api student_submissions).
      { rewrite Han. by left. }
      unfold answered in Hin. apply elem_of_omap_imap in Hin as (i & item & Hi & H).
      apply lookup_lt_Some in Hi as Hlt. destruct (Hall i Hlt) as [e He].
      by rewrite He in H.
Qed.

Lemma free_form_results_accounted_witness :
  ∃ st,
    run (evaluate_all_students_free_format_async sample_api sample_students
           sample_context 2 (Some update_progress)) sample_events = Some st ∧
    sort_free_results
      [("Alice", inl "Bon travail.");
       ("Bob", inr (Exc "APITimeoutError" "Request timed out."));
       ("Chloé", inl "Bon travail.")] [] []
    = ([("Alice", "Bon travail."); ("Chloé", "Bon travail.")],
       ["❌ Erreur pour Bob: Request timed out."]).
Proof.
  destruct (run _ sample_events) as [st|] eqn:Hrun; [|by vm_compute in Hrun].
  exists st. split; [done|].
  destruct (free_form_results_accounted sample_api sample_students
              sample_context 2 sample_events st
              [("Alice", inl "Bon travail.");
               ("Bob", inr (Exc "APITimeoutError" "Request timed out."));
               ("Chloé", inl "Bon travail.")] Hrun) as [Hsort _].
  - vm_compute in Hrun. injection Hrun as <-. reflexivity.
  - rewrite Hsort. reflexivity.
Defined.

(** X13.  After a structured evaluation, whatever the schedule, the
    list the export receives holds one result for each student whose
    call was answered and whose answer could be decoded, in input order
    and under that student's name; each of the other students adds one
    error message, so that results and messages add up to the number of
    students.  The script reports that nothing could be evaluated
    exactly when no student's evaluation succeeded. *)
Theorem structured_results_accounted json_decode api student_submissions ctx
    max_concurrent events st results :
  run (evaluate_all_students_async json_decode api student_submissions ctx
         max_concurrent (Some update_progress)) events = Some st →
  gather st = Some (Return results) →
  sort_results results [] []
  = (evaluated json_decode api student_submissions,
     unevaluated json_decode api student_submissions) ∧
  length (evaluated json_decode api student_submissions)
  + length (unevaluated json_decode api student_submissions)
  = length student_submissions ∧
  EvaluationResult.student_name <$> evaluated json_decode api student_submissions
    `sublist_of` student_submissions.*1 ∧
  (∀ result,
     result ∈ evaluated json_decode api student_submissions ↔
     ∃ i work,
       student_submissions !! i = Some (EvaluationResult.student_name result, work) ∧
       evaluate_student_work_async_resume json_decode
         (EvaluationResult.student_name result) (api i) = Return result) ∧
  (offer (evaluated json_decode api student_submissions)
   = NothingEvaluated "❌ Aucune évaluation n'a pu être effectuée." ↔
   ∀ i student_name work,
     student_submissions !! i = Some (student_name, work) →
     ∃ e, evaluate_student_work_async_resume json_decode student_name (api i)
          = Raise e).
Proof.
  intros Hrun Hg.
  pose proof (handed_over _ _ _ _ _ _ _ _ _ _ Hrun Hg) as ->.
  assert (Hname : ∀ name answer result,
            evaluate_student_work_async_resume json_decode name answer
            = Return result → EvaluationResult.student_name result = name).
  { intros name answer result. unfold evaluate_student_work_async_resume.
    destruct answer as [content|]; [|done]. cbn [mbind result_bind].
    destruct (json_decode content); [|done]. cbn [mbind result_bind].
    by intros [= <-]. }
  split; [|split; [|split; [|split]]].
  - rewrite sort_results_spec. cbn [app].
    unfold evaluated, unevaluated. f_equal.
    + apply omap_imap. intros i [name work]. cbn [fst capture].
      by destruct (evaluate_student_work_async_resume json_decode name (api i)).
    + apply omap_imap. intros i [name work]. cbn [fst capture].
      by destruct (evaluate_student_work_async_resume json_decode name (api i)).
  - apply omap_imap_split. intros i item _.
    destruct (evaluate_student_work_async_resume _ _ _); split;
      first [done | by eexists | by intros [? ?]].
  - apply omap_imap_sublist. intros i item y H.
    destruct (evaluate_student_work_async_resume _ _ _) as [r|] eqn:Hr; [|done].
    injection H as <-. by eapply Hname.
  - intros result. unfold evaluated. rewrite elem_of_omap_imap. split.
    + intros (i & [n work] & Hi & H). cbn [fst] in H.
      destruct (evaluate_student_work_async_resume _ _ _) as [r|] eqn:Hr; [|done].
      injection H as ->. pose proof (Hname _ _ _ Hr) as <-. by exists i, work.
    + intros (i & work & Hi & Ha). eexists i, (_, work). split; [done|].
      cbn [fst]. by rewrite Ha.
  - split.
    + intros H%offer_nothing i name work Hl.
      destruct (evaluate_student_work_async_resume json_decode name (api i))
        as [r|e] eqn:Ha; [|by exists e]. exfalso.
      assert (Hin : r ∈ evaluated json_decode api student_submissions).
      { unfold evaluated. apply elem_of_omap_imap. exists i, (name, work).
        cbn [fst]. by rewrite Ha. }
      rewrite H in Hin. by apply elem_of_nil in Hin.
    + intros Hall.
      destruct (evaluated json_decode api student_submissions) as [|r l] eqn:Han;
        [done|]. exfalso.
      assert (Hin : r ∈ evaluated json_decode api student_submissions).
      { rewrite Han. by left. }
      unfold evaluated in Hin.
      apply elem_of_omap_imap in Hin as (i & [name work] & Hi & H).
      destruct (Hall i name work Hi) as [e He]. cbn [fst] in H.
      by rewrite He in H.
Qed.

Lemma structured_results_accounted_witness :
  ∃ st results,
    run (evaluate_all_students_async sample_decode sample_api sample_students
           sample_context 2 (Some update_progress)) sample_events = Some st ∧
    gather st = Some (Return results) ∧
    EvaluationResult.student_name
      <$> (sort_results results [] []).1 = ["Alice"; "Chloé"] ∧
    (sort_results results [] []).2 = ["❌ Erreur: Request timed out."].
Proof.
  destruct (run _ sample_events) as [st|] eqn:Hrun; [|by vm_compute in Hrun].
  destruct (gather st) as [[results|]|] eqn:Hg;
    [|vm_compute in Hrun; injection Hrun as <-; by vm_compute in Hg..].
  exists st, results. split; [done|]. split; [done|].
  destruct (structured_results_accounted sample_decode sample_api sample_students
              sample_context 2 sample_events st results Hrun Hg) as [-> _].
  split; reflexivity.
Defined.


End MainScriptFacts.

(** ** The exports *)

Module ExportsFacts.
Import Exports.

Section Filenames.

Variable isalnum_beyond_ascii : N → bool.

Local Abbreviation isalnum := (isalnum isalnum_beyond_ascii).
Local Abbreviation keeps := (keeps isalnum_beyond_ascii).
Local Abbreviation sanitize_filename := (sanitize_filename isalnum_beyond_ascii).

Lemma keeps_underscore : keeps 95 = true.
Proof. unfold Exports.keeps. apply orb_true_r. Qed.

Lemma keeps_sanitized c : keeps (if keeps c then c else 95%N) = true.
Proof. destruct (keeps c) eqn:Hc; [done|apply keeps_underscore]. Qed.

(** The ASCII characters that are kept. *)
Lemma keeps_ascii c :
  (c < 128)%N → keeps c = true →
  (48 ≤ c ≤ 57 ∨ 65 ≤ c ≤ 90 ∨ 97 ≤ c ≤ 122 ∨ c = 32 ∨ c = 45 ∨ c = 95)%N.
Proof.
  intros Hc. unfold Exports.keeps, Exports.isalnum.
  destruct (N.ltb_spec c 128); [|lia].
  rewrite !orb_true_iff, !andb_true_iff, !N.leb_le, bool_decide_eq_true.
  rewrite !elem_of_cons, elem_of_nil. lia.
Qed.

(** X14.  [sanitize_filename] changes no length and no character that
    is a letter, a digit, a space, a hyphen or an underscore, and
    turns every other character into an underscore; so its result
    holds only such characters, among the ASCII ones only
    [0-9A-Za-z _-], hence no slash, backslash, dot, colon or control
    character; and sanitizing twice is sanitizing once. *)
Theorem sanitize_filename_safe name :
  length (sanitize_filename name) = length name ∧
  (∀ i c, name !! i = Some c →
     sanitize_filename name !! i = Some (if keeps c then c else 95%N)) ∧
  Forall (λ c, keeps c = true) (sanitize_filename name) ∧
  (∀ c, c ∈ sanitize_filename name → (c < 128)%N →
     (48 ≤ c ≤ 57 ∨ 65 ≤ c ≤ 90 ∨ 97 ≤ c ≤ 122 ∨ c = 32 ∨ c = 45 ∨ c = 95)%N) ∧
  sanitize_filename (sanitize_filename name) = sanitize_filename name ∧
  (sanitize_filename name = name ↔ Forall (λ c, keeps c = true) name).
Proof.
  assert (Hall : Forall (λ c, keeps c = true) (sanitize_filename name)).
  { apply Forall_fmap, Forall_forall. intros c _. apply keeps_sanitized. }
  assert (Hfix : ∀ l, Forall (λ c, keeps c = true) l → sanitize_filename l = l).
  { intros l Hl. induction Hl as [|c l Hc _ IH]; [done|].
    unfold Exports.sanitize_filename in *. rewrite fmap_cons, IH.
    by rewrite Hc. }
  split; [apply length_fmap|]. split.
  { intros i c Hi.
    change (sanitize_filename name)
      with ((λ c, if keeps c then c else 95%N) <$> name).
    by rewrite list_lookup_fmap, Hi. }
  split; [done|]. split.
  { intros c Hc Hlt. apply keeps_ascii; [done|].
    by apply (proj1 (Forall_forall _ _) Hall). }
  split; [by apply Hfix|]. split; [|apply Hfix].
  intros Heq. by rewrite <- Heq.
Qed.

(** *** The entries of the archives *)

Section Archives.

Context {E : Type}.
Variable student_name : E → text.

Local Abbreviation safe_name evaluation :=
  (sanitize_filename (student_name evaluation)).
Local Abbreviation markdown_entry :=
  (markdown_entry isalnum_beyond_ascii student_name).
Local Abbreviation word_entry :=
  (word_entry isalnum_beyond_ascii student_name).

Lemma sanitized_no_slash name : filter (λ c, c = 47%N) (sanitize_filename name) = [].
Proof.
  induction name as [|c name IH]; [done|].
  unfold Exports.sanitize_filename in *. rewrite fmap_cons.
  rewrite filter_cons_False; [done|].
  intros H. pose proof (keeps_sanitized c) as Hk. rewrite H in Hk.
  by vm_compute in Hk.
Qed.

Lemma markdown_entry_inj e e' :
  (markdown_entry e).1 = (markdown_entry e').1 ↔ safe_name e = safe_name e'.
Proof.
  unfold Exports.markdown_entry. cbn [fst]. split; [|by intros ->].
  intros H. apply app_inv_head in H. by apply app_inv_tail in H.
Qed.

Lemma word_entry_inj e e' :
  (word_entry e).1 = (word_entry e').1 ↔ safe_name e = safe_name e'.
Proof.
  unfold Exports.word_entry. cbn [fst]. split; [|by intros ->].
  intros H. apply app_inv_head in H. by apply app_inv_tail in H.
Qed.

Lemma word_not_markdown e e' : (word_entry e).1 ≠ (markdown_entry e').1.
Proof. unfold Exports.word_entry, Exports.markdown_entry. by intros [=]. Qed.

Lemma word_one_slash e :
  length (filter (λ c, c = 47%N) (word_entry e).1) = 1.
Proof.
  unfold Exports.word_entry. cbn [fst].
  rewrite !filter_app, !sanitized_no_slash. by vm_compute.
Qed.

Lemma markdown_one_slash e :
  length (filter (λ c, c = 47%N) (markdown_entry e).1) = 1.
Proof.
  unfold Exports.markdown_entry. cbn [fst].
  rewrite !filter_app, !sanitized_no_slash. by vm_compute.
Qed.

Local Abbreviation pair_of evaluation :=
  [word_entry evaluation; markdown_entry evaluation].

Lemma word_in_pairs e evaluations :
  (word_entry e).1 ∈ (evaluations ≫= λ e', pair_of e').*1 ↔
  safe_name e ∈ (λ e', safe_name e') <$> evaluations.
Proof.
  induction evaluations as [|e' l IH];
    [split; cbn; intros H; by apply elem_of_nil in H|].
  cbn [mbind list_bind app]. rewrite !fmap_cons, !elem_of_cons, IH.
  rewrite word_entry_inj. pose proof (word_not_markdown e e'). tauto.
Qed.

Lemma markdown_in_pairs e evaluations :
  (markdown_entry e).1 ∈ (evaluations ≫= λ e', pair_of e').*1 ↔
  safe_name e ∈ (λ e', safe_name e') <$> evaluations.
Proof.
  induction evaluations as [|e' l IH];
    [split; cbn; intros H; by apply elem_of_nil in H|].
  cbn [mbind list_bind app]. rewrite !fmap_cons, !elem_of_cons, IH.
  rewrite markdown_entry_inj. pose proof (word_not_markdown e' e).
  split; [|tauto]. intros [Heq|[?|?]]; [by symmetry in Heq|tauto..].
Qed.

Lemma pairs_NoDup evaluations :
  NoDup (evaluations ≫= λ e, pair_of e).*1 ↔
  NoDup ((λ e, safe_name e) <$> evaluations).
Proof.
  induction evaluations as [|e l IH]; [by split; intros; constructor|].
  cbn [mbind list_bind app]. rewrite !fmap_cons, !NoDup_cons, IH.
  rewrite !not_elem_of_cons, word_in_pairs, markdown_in_pairs.
  pose proof (word_not_markdown e e). tauto.
Qed.

Lemma markdown_in_entries e evaluations :
  (markdown_entry e).1 ∈ (markdown_entry <$> evaluations).*1 ↔
  safe_name e ∈ (λ e', safe_name e') <$> evaluations.
Proof.
  induction evaluations as [|e' l IH];
    [split; cbn; intros H; by apply elem_of_nil in H|].
  by rewrite !fmap_cons, !elem_of_cons, IH, markdown_entry_inj.
Qed.

Lemma markdown_entries_NoDup evaluations :
  NoDup (markdown_entry <$> evaluations).*1 ↔
  NoDup ((λ e, safe_name e) <$> evaluations).
Proof.
  induction evaluations as [|e l IH]; [by split; intros; constructor|].
  by rewrite !fmap_cons, !NoDup_cons, IH, markdown_in_entries.
Qed.

(** X15.  The archives of the combined exports: two entries per
    evaluation (one, after the workbook, for the Excel export); the
    name of every entry but the workbook holds exactly one slash,
    the one after [word] or [markdown], whatever the student is
    called; and the names of the entries are distinct exactly when
    the sanitized names of the students are. *)
Theorem archive_entries evaluations :
  let excel := create_combined_export_excel isalnum_beyond_ascii student_name
                 evaluations in
  let word := create_combined_export_word isalnum_beyond_ascii student_name
                evaluations in
  let free := create_combined_export_free_format isalnum_beyond_ascii
                student_name evaluations in
  length excel = 1 + length evaluations ∧
  length word = 2 * length evaluations ∧
  length free = 2 * length evaluations ∧
  (∀ name, name ∈ tail excel.*1 ++ word.*1 ++ free.*1 →
     length (filter (λ c, c = 47%N) name) = 1) ∧
  (NoDup excel.*1 ↔ NoDup ((λ e, safe_name e) <$> evaluations)) ∧
  (NoDup word.*1 ↔ NoDup ((λ e, safe_name e) <$> evaluations)) ∧
  (NoDup free.*1 ↔ NoDup ((λ e, safe_name e) <$> evaluations)).
Proof.
  cbn zeta.
  unfold create_combined_export_excel, create_combined_export_word,
    create_combined_export_free_format.
  assert (Hlen : ∀ l : list E, length (l ≫= λ e, pair_of e) = 2 * length l).
  { induction l as [|e l IH]; [done|].
    cbn [mbind list_bind app length] in IH |- *. lia. }
  split; [by rewrite length_cons, length_fmap|].
  split; [apply Hlen|]. split; [apply Hlen|]. split; [|split; [|split]].
  - assert (Hpairs : ∀ name, name ∈ (evaluations ≫= λ e, pair_of e).*1 →
              length (filter (λ c, c = 47%N) name) = 1).
    { intros name Hn. apply list_elem_of_fmap in Hn as (x & -> & Hn).
      apply list_elem_of_bind in Hn as (e & Hn & _).
      apply elem_of_cons in Hn as [->|Hn]; [exact (word_one_slash e)|].
      apply list_elem_of_singleton in Hn as ->. exact (markdown_one_slash e). }
    intros name Hn. rewrite fmap_cons in Hn. cbn [tail] in Hn.
    apply elem_of_app in Hn as [Hn|Hn]; [|apply elem_of_app in Hn as [Hn|Hn]];
      [|by apply Hpairs..].
    apply list_elem_of_fmap in Hn as (x & -> & Hn).
    apply list_elem_of_fmap in Hn as (e & -> & _). exact (markdown_one_slash e).
  - rewrite fmap_cons, NoDup_cons, markdown_entries_NoDup. cbn [fst].
    split; [tauto|]. intros Hnd. split; [|done].
    intros Hin. apply list_elem_of_fmap in Hin as (x & Heq & Hin).
    apply list_elem_of_fmap in Hin as (e & -> & _).
    unfold Exports.markdown_entry in Heq. cbn [fst] in Heq. by injection Heq.
  - apply pairs_NoDup.
  - apply pairs_NoDup.
Qed.

End Archives.


End Filenames.

(** *** Sheet names *)

(** The replacements one after the other amount to one pass. *)
Lemma replace_all name :
  foldl (λ sanitized char, replace char 95 sanitized) name invalid_chars
  = (λ c, if bool_decide (c ∈ invalid_chars) then 95%N else c) <$> name.
Proof.
  unfold invalid_chars. cbn [foldl]. unfold replace.
  rewrite <- !list_fmap_compose. apply list_fmap_ext. intros _ c _. cbn.
  destruct (N.eqb_spec c 91) as [->|H1]; [done|].
  destruct (N.eqb_spec c 93) as [->|H2]; [done|].
  destruct (N.eqb_spec c 58) as [->|H3]; [done|].
  destruct (N.eqb_spec c 42) as [->|H4]; [done|].
  destruct (N.eqb_spec c 63) as [->|H5]; [done|].
  destruct (N.eqb_spec c 47) as [->|H6]; [done|].
  destruct (N.eqb_spec c 92) as [->|H7]; [done|].
  rewrite bool_decide_eq_false_2; [done|].
  rewrite !elem_of_cons, elem_of_nil. lia.
Qed.

(** X16.  A sheet name from [sanitize_sheet_name] has at most 31
    characters and none of [ [ ] : * ? / \ ]; it is the first 31
    characters of the name with exactly those replaced by an
    underscore; a name that is already fit comes back unchanged, so
    that sanitizing twice is sanitizing once; and names that agree on
    their first 31 characters get the same sheet name. *)
Theorem sanitize_sheet_name_fit name :
  length (sanitize_sheet_name name) = length name `min` 31 ∧
  Forall valid_char (sanitize_sheet_name name) ∧
  (∀ i c, i < 31 → name !! i = Some c →
     sanitize_sheet_name name !! i
     = Some (if bool_decide (c ∈ invalid_chars) then 95%N else c)) ∧
  (length name ≤ 31 → Forall valid_char name → sanitize_sheet_name name = name) ∧
  sanitize_sheet_name (sanitize_sheet_name name) = sanitize_sheet_name name ∧
  (∀ other, take 31 other = take 31 name →
     sanitize_sheet_name other = sanitize_sheet_name name).
Proof.
  unfold sanitize_sheet_name. rewrite !replace_all.
  set (f := λ c : N, if bool_decide (c ∈ invalid_chars) then 95%N else c).
  assert (Hvalid : ∀ l, Forall valid_char (f <$> l)).
  { intros l. apply Forall_fmap, Forall_forall. intros c _. unfold f, valid_char.
    cbn. case_bool_decide; [|done]. unfold invalid_chars.
    repeat (apply not_elem_of_cons; split; [done|]). apply not_elem_of_nil. }
  assert (Hfix : ∀ l, Forall valid_char l → f <$> l = l).
  { intros l Hl. induction Hl as [|c l Hc _ IH]; [done|].
    rewrite fmap_cons, IH. unfold f. by rewrite bool_decide_eq_false_2. }
  split; [rewrite length_take, length_fmap; lia|].
  split; [rewrite <- fmap_take; apply Hvalid|].
  split.
  { intros i c Hi Hc. rewrite lookup_take_lt by done.
    by rewrite list_lookup_fmap, Hc. }
  split.
  { intros Hlen Hv. rewrite Hfix by done. by apply take_ge. }
  split.
  { rewrite <- !fmap_take. rewrite Hfix by apply Hvalid.
    by rewrite take_take, Nat.min_id. }
  intros other Heq. rewrite replace_all. fold f. by rewrite <- !fmap_take, Heq.
Qed.

(** *** Free-form Word documents *)

Import ZipHandlerFacts.

Local Abbreviation sep := (LlmEvaluator.nl +:+ LlmEvaluator.nl).

Lemma split_blank_lines_cons a s' :
  split_blank_lines (String a s')
  = match s' with
    | String b rest =>
        if Ascii.eqb a "010" && Ascii.eqb b "010"
        then EmptyString :: split_blank_lines rest
        else first_of EmptyString (split_blank_lines s') a
    | EmptyString => first_of EmptyString (split_blank_lines s') a
    end.
Proof. by destruct s'. Qed.

Lemma first_of_nonempty w l a : first_of w l a ≠ [].
Proof. by destruct l. Qed.

Lemma split_blank_lines_nonempty s : split_blank_lines s ≠ [].
Proof.
  destruct s as [|a s']; [done|]. rewrite split_blank_lines_cons.
  destruct s' as [|b rest]; [apply first_of_nonempty|].
  destruct (_ && _); [done|apply first_of_nonempty].
Qed.

Lemma join_first_of sep l a :
  l ≠ [] → Str.join sep (first_of "" l a) = String a (Str.join sep l).
Proof. destruct l as [|w [|w' ws]]; [done|done|]. by intros _. Qed.

(** Splitting at the blank lines and joining again gives the content
    back. *)
Lemma split_blank_lines_join s :
  Str.join (LlmEvaluator.nl +:+ LlmEvaluator.nl) (split_blank_lines s) = s.
Proof.
  assert (H : Str.join (LlmEvaluator.nl +:+ LlmEvaluator.nl) (split_blank_lines s) = s ∧
              ∀ a, Str.join (LlmEvaluator.nl +:+ LlmEvaluator.nl)
                     (split_blank_lines (String a s)) = String a s);
    [|by destruct H].
  induction s as [|b rest [IH1 IH2]].
  - split; [done|]. by intros a.
  - split; [apply IH2|]. intros a.
    rewrite (split_blank_lines_cons a (String b rest)).
    destruct (Ascii.eqb a "010" && Ascii.eqb b "010") eqn:Hab.
    + apply andb_true_iff in Hab as [->%Ascii.eqb_eq ->%Ascii.eqb_eq].
      pose proof (split_blank_lines_nonempty rest) as Hne.
      destruct (split_blank_lines rest) as [|w ws] eqn:Hs; [done|].
      change (Str.join ?sep ("" :: w :: ws)) with ("" +:+ sep +:+ Str.join sep (w :: ws)).
      by rewrite IH1.
    + rewrite join_first_of by apply split_blank_lines_nonempty.
      by rewrite (IH2 b).
Qed.

(** A content without a blank line is one paragraph. *)
Lemma split_blank_lines_whole s :
  Str.contains sep s = false → split_blank_lines s = [s].
Proof.
  induction s as [|a s' IH]; [done|]. intros Hc.
  cbn [Str.contains] in Hc. apply orb_false_elim in Hc as [Hp Hc].
  rewrite split_blank_lines_cons. destruct s' as [|b rest]; [done|].
  destruct (Ascii.eqb a "010" && Ascii.eqb b "010") eqn:Hab.
  - apply andb_true_iff in Hab as [->%Ascii.eqb_eq ->%Ascii.eqb_eq].
    by destruct rest.
  - by rewrite (IH Hc).
Qed.

(** The first blank line ends the first paragraph. *)
Lemma split_blank_lines_first : ∀ a b,
  Str.contains sep (a +:+ LlmEvaluator.nl) = false →
  split_blank_lines (a +:+ sep +:+ b) = a :: split_blank_lines b.
Proof.
  induction a as [|c a IH]; intros b Hc;
    change (sep +:+ b) with (String "010" (String "010" b)) in *.
  - rewrite append_nil. by rewrite split_blank_lines_cons.
  - rewrite append_cons in Hc. cbn [Str.contains] in Hc.
    apply orb_false_elim in Hc as [Hp Hc].
    rewrite append_cons, split_blank_lines_cons.
    destruct (a +:+ String "010" (String "010" b)) as [|d rest] eqn:Hrest.
    { by destruct a. }
    assert (Hcd : Ascii.eqb c "010" && Ascii.eqb d "010" = false).
    { destruct (Ascii.eqb c "010" && Ascii.eqb d "010") eqn:Hab; [|done].
      apply andb_true_iff in Hab as [->%Ascii.eqb_eq ->%Ascii.eqb_eq].
      destruct a as [|d' a].
      - done.
      - rewrite append_cons in Hrest. injection Hrest as -> _.
        rewrite append_cons in Hp. by destruct (a +:+ LlmEvaluator.nl). }
    specialize (IH b Hc).
    change (sep +:+ b) with (String "010" (String "010" b)) in IH.
    by rewrite Hcd, <- Hrest, IH.
Qed.

Lemma mark_drop level r : Str.drop (S level) (mark level +:+ r) = r.
Proof.
  induction level as [|l IH]; [done|].
  cbn [mark]. rewrite append_cons. cbn [Str.drop]. apply IH.
Qed.

Lemma mark_ends level : Utf8.ends Str.isspace (mark level).
Proof.
  induction level as [|l IH].
  - by exists "", " ".
  - apply (ends_suffix "#" (mark l)), IH.
Qed.

(** What the body of the loop asks for. *)
Lemma requested_spec para_text :
  match requested para_text with
  | None => Str.blank para_text
  | Some b =>
      ¬ Str.blank para_text ∧ Str.trims para_text (source_of b) ∧
      well_formed b
  end.
Proof.
  unfold requested.
  destruct (Str.truthy (Str.strip para_text)) eqn:Ht;
    [|by apply truthy_strip].
  assert (Hnb : ¬ Str.blank para_text).
  { intros Hb. apply truthy_strip in Hb. by rewrite Hb in Ht. }
  pose proof (strip_trims para_text) as Htrims.
  assert (Htrimmed : Str.trimmed (Str.strip para_text)).
  { by destruct Htrims as (l & r & _ & _ & _ & H). }
  assert (Hmark : ∀ level, 1 ≤ level ≤ 3 →
            Str.startswith (mark level) (Str.strip para_text) = true →
            let b := Heading (Str.drop (S level) (Str.strip para_text)) level in
            ¬ Str.blank para_text ∧ Str.trims para_text (source_of b) ∧
            well_formed b).
  { intros level Hl Hp b. subst b. apply prefix_app in Hp as [r Hr].
    rewrite Hr in *. rewrite mark_drop. cbn [source_of well_formed].
    split; [done|]. split; [done|]. split; [done|].
    destruct Htrimmed as [_ Hend]. split.
    - intros ->. apply Hend. rewrite append_empty_r. apply mark_ends.
    - intros He. apply Hend. by apply ends_suffix. }
  destruct (Str.startswith "# " _) eqn:H1; [by apply (Hmark 1); [lia|]|].
  destruct (Str.startswith "## " _) eqn:H2; [by apply (Hmark 2); [lia|]|].
  destruct (Str.startswith "### " _) eqn:H3; [by apply (Hmark 3); [lia|]|].
  split; [done|]. split; [done|]. cbn [well_formed].
  split; [by intros E; rewrite E in Ht|]. split; [done|].
  intros level Hl.
  assert (Hlevel : level = 1 ∨ level = 2 ∨ level = 3) by lia.
  destruct Hlevel as [-> | [-> | ->] ]; done.
Qed.

Lemma renders_requested l : renders l (omap requested l).
Proof.
  induction l as [|p l IH]; [constructor|]. cbn [omap list_omap].
  pose proof (requested_spec p) as H. destruct (requested p) as [b|].
  - destruct H as (Hnb & Ht & Hw). by constructor.
  - by constructor.
Qed.

(** A well-formed block is known by the paragraph it was made from. *)
Lemma source_of_inj b b' :
  well_formed b → well_formed b' → source_of b = source_of b' → b = b'.
Proof.
  destruct b as [text level|text], b' as [text' level'|text'];
    cbn [well_formed source_of].
  - intros (Hl & _) (Hl' & _) Hs.
    assert (Hlevel : level = 1 ∨ level = 2 ∨ level = 3) by lia.
    assert (Hlevel' : level' = 1 ∨ level' = 2 ∨ level' = 3) by lia.
    destruct Hlevel as [-> | [-> | ->] ], Hlevel' as [-> | [-> | ->] ];
      cbn [mark] in Hs; rewrite ?append_cons, ?append_nil in Hs;
      first [by injection Hs as -> | discriminate Hs].
  - intros (Hl & _) (_ & _ & Hm) Hs. specialize (Hm level Hl).
    rewrite <- Hs in Hm. unfold Str.startswith in Hm.
    by rewrite app_prefix in Hm.
  - intros (_ & _ & Hm) (Hl & _) Hs. specialize (Hm level' Hl).
    rewrite Hs in Hm. unfold Str.startswith in Hm.
    by rewrite app_prefix in Hm.
  - by intros _ _ ->.
Qed.

Lemma renders_functional l : ∀ blocks others,
  renders l blocks → renders l others → others = blocks.
Proof.
  induction l as [|p l IH]; intros blocks others Hb Ho.
  - inversion Hb. by inversion Ho.
  - inversion Hb as [|? ? ? Hblank Hrest|? ? b ? Hnb Ht Hw Hrest]; subst;
      inversion Ho as [|? ? ? Hblank' Hrest'|? ? b' ? Hnb' Ht' Hw' Hrest'];
      subst; try done.
    + by apply IH.
    + f_equal; [|by apply IH]. apply source_of_inj; [done..|].
      by rewrite (trims_unique _ _ Ht), (trims_unique _ _ Ht').
Qed.

Section Document.

Variable add_heading : string → nat → option Exception.
Variable add_paragraph : string → option Exception.

Local Abbreviation call := (call add_heading add_paragraph).
Local Abbreviation add := (add add_heading add_paragraph).
Local Abbreviation add_paragraphs := (add_paragraphs add_heading add_paragraph).
Local Abbreviation create_free_format_word_document :=
  (create_free_format_word_document add_heading add_paragraph).

Local Abbreviation made := (made add_heading add_paragraph).

Lemma add_paragraphs_spec l : ∀ doc,
  (∀ b, b ∈ doc → call b = None) →
  made (doc ++ omap requested l) (add_paragraphs doc l).
Proof.
  induction l as [|p l IH]; intros doc Hdoc.
  - cbn. by rewrite app_nil_r.
  - cbn [Exports.add_paragraphs omap list_omap].
    destruct (requested p) as [b|]; [|by apply IH].
    unfold Exports.add. destruct (call b) as [e|] eqn:Hb.
    + cbn. exists doc, b, (omap requested l). done.
    + cbn [mbind result_bind].
      replace (doc ++ b :: omap requested l)
        with ((doc ++ [b]) ++ omap requested l) by by rewrite <- app_assoc.
      apply IH. intros b' [Hb'|Hb']%elem_of_app; [by apply Hdoc|].
      by apply list_elem_of_singleton in Hb' as ->.
Qed.

(** X17.  The free-form Word document.  The content is cut into
    paragraphs at its blank lines, from the left: a content without a
    blank line is one paragraph, the first paragraph ends where the
    first blank line starts, and the paragraphs joined again by blank
    lines give the content back.  After the title, the library is
    asked for one block per paragraph that is not blank, in order: a
    heading of level 1, 2 or 3 when the paragraph, without the white
    space around it, starts with that many [#] and a space, holding
    what follows them; else a plain paragraph holding the paragraph
    without the white space around it.  These blocks are determined
    by the content.  When the library accepts every call the document
    holds the title and these blocks; otherwise the exception of the
    first call it refuses leaves the function.  White space is that
    of Python's [str.strip]. *)
Theorem free_format_document student_name content :
  (Str.contains sep content = false → paragraphs content = [content]) ∧
  (∀ a b, content = a +:+ sep +:+ b →
          Str.contains sep (a +:+ LlmEvaluator.nl) = false →
          paragraphs content = a :: paragraphs b) ∧
  Str.join sep (paragraphs content) = content ∧
  ∃ blocks,
    renders (paragraphs content) blocks ∧
    (∀ others, renders (paragraphs content) others → others = blocks) ∧
    made (Heading ("Évaluation - " +:+ student_name) 0 :: blocks)
         (create_free_format_word_document student_name content).
Proof.
  unfold paragraphs.
  split; [apply split_blank_lines_whole|].
  split; [intros a b ->; apply split_blank_lines_first|].
  split; [apply split_blank_lines_join|].
  exists (omap requested (split_blank_lines content)).
  split; [apply renders_requested|].
  split; [intros others; apply renders_functional, renders_requested|].
  unfold Exports.create_free_format_word_document, Exports.add at 1.
  set (title := Heading ("Évaluation - " +:+ student_name) 0).
  destruct (call title) as [e|] eqn:Ht.
  - cbn. exists [], title, (omap requested (split_blank_lines content)).
    split; [done|]. split; [|done]. intros b Hb. by apply elem_of_nil in Hb.
  - cbn [mbind result_bind app].
    apply (add_paragraphs_spec (split_blank_lines content) [title]).
    by intros b ->%list_elem_of_singleton.
Qed.

End Document.

(** The sample content: a heading, a paragraph between a no-break space
    and a space, two blank paragraphs and a second heading. *)
Lemma free_format_sample :
  create_free_format_word_document (λ text _, sample_refuses text)
    sample_refuses "Chloé" sample_content
  = Return [Heading "Évaluation - Chloé" 0; Heading "Bilan" 1;
            Paragraph "Bon travail."; Heading "Détail" 2] ∧
  create_free_format_word_document (λ text _, sample_refuses text)
    sample_refuses "Chloé"
    (sample_content +:+ LlmEvaluator.nl +:+ LlmEvaluator.nl
     +:+ String (ascii_of_N 1) "")
  = Raise (Exc "ValueError" "All strings must be XML compatible").
Proof. split; by vm_compute. Qed.

End ExportsFacts.
